(** * The task engine of EasyEmulatorScriptsEditor

    A shallow embedding of [src/core/task_engine.py] (class [TaskEngine])
    together with the parts of the Python runtime it leans on: strings and
    their methods, dynamically typed values, exceptions, and the collaborators
    [ADBController] and [ImageProcessor], which appear as an interface.

    Layout: Python strings; values, messages and exceptions; the platform
    interface; the engine state and its monad; the methods of [TaskEngine];
    a small evaluator for a fragment of Python expressions and two scripted
    platforms; then the properties. *)

From Stdlib Require Import ZArith QArith Qround String Ascii List Lia Bool.
From stdpp Require Import gmap strings list fin_maps.

Open Scope string_scope.

(* ===================================================================== *)
(** * Python strings

    A Python [str] is modelled by its UTF-8 encoding, a Rocq [string].  The
    characters the engine searches for ([;], [=], [!], [&], [|], [<], [>])
    are ASCII, and an ASCII byte never occurs inside a multi-byte UTF-8
    sequence, so byte-wise search and replacement agree with Python's
    search and replacement on code points. *)

Definition is_char (c d : ascii) : bool := Ascii.eqb c d.

Arguments is_char : simpl never.

Fixpoint string_drop (n : nat) (s : string) : string :=
  match n, s with
  | O, _ => s
  | S _, EmptyString => EmptyString
  | S k, String _ s' => string_drop k s'
  end.

Fixpoint string_rev_onto (s acc : string) : string :=
  match s with
  | EmptyString => acc
  | String c s' => string_rev_onto s' (String c acc)
  end.

Definition string_rev (s : string) : string := string_rev_onto s EmptyString.

Fixpoint starts_with (p s : string) : bool :=
  match p, s with
  | EmptyString, _ => true
  | String _ _, EmptyString => false
  | String a p', String b s' => is_char a b && starts_with p' s'
  end.

Definition ends_with (p s : string) : bool :=
  starts_with (string_rev p) (string_rev s).

(** [s.replace(old, new)] for a non-empty [old]: occurrences are taken from
    left to right and do not overlap.  [skip] counts the bytes of the
    occurrence under replacement that are still to be dropped. *)
Fixpoint replace_from (old new : string) (skip : nat) (s : string) : string :=
  match s with
  | EmptyString => EmptyString
  | String c s' =>
      match skip with
      | S k => replace_from old new k s'
      | O =>
          if starts_with old s
          then new ++ replace_from old new (String.length old - 1) s'
          else String c (replace_from old new O s')
      end
  end.

Definition str_replace (old new s : string) : string := replace_from old new 0 s.

(** [s.split(sep)] for a one-character separator: never the empty list. *)
Fixpoint str_split (sep : ascii) (s : string) : list string :=
  match s with
  | EmptyString => [EmptyString]
  | String c s' =>
      if is_char c sep then EmptyString :: str_split sep s'
      else match str_split sep s' with
           | [] => [String c EmptyString]
           | piece :: pieces => String c piece :: pieces
           end
  end.

(** [s.split(sep, 1)]: split at the first separator only. *)
Fixpoint str_split_first (sep : ascii) (s : string) : string * option string :=
  match s with
  | EmptyString => (EmptyString, None)
  | String c s' =>
      if is_char c sep then (EmptyString, Some s')
      else let '(a, b) := str_split_first sep s' in (String c a, b)
  end.

Fixpoint str_contains_char (c : ascii) (s : string) : bool :=
  match s with
  | EmptyString => false
  | String d s' => is_char c d || str_contains_char c s'
  end.

(** Whitespace as [str.strip()] sees it: the code points for which
    [str.isspace()] holds, here in UTF-8.  [ws_width bs] is the number of
    bytes of the whitespace code point that starts [bs], or [0]. *)
Definition byte_in (lo hi : nat) (c : ascii) : bool :=
  (lo <=? nat_of_ascii c)%nat && (nat_of_ascii c <=? hi)%nat.

Definition ascii_space (c : ascii) : bool :=
  byte_in 9 13 c || byte_in 28 32 c.

Definition ws_width (s : string) : nat :=
  match s with
  | EmptyString => 0
  | String a r1 =>
      if ascii_space a then 1
      else match r1 with
           | EmptyString => 0
           | String b r2 =>
               if byte_in 194 194 a && (byte_in 133 133 b || byte_in 160 160 b)
               then 2                              (* U+0085, U+00A0 *)
               else match r2 with
                    | EmptyString => 0
                    | String c _ =>
                        if byte_in 225 225 a && byte_in 154 154 b && byte_in 128 128 c
                        then 3                     (* U+1680 *)
                        else if byte_in 226 226 a && byte_in 128 128 b
                                && (byte_in 128 138 c || byte_in 168 169 c
                                    || byte_in 175 175 c)
                        then 3                     (* U+2000-200A, 2028, 2029, 202F *)
                        else if byte_in 226 226 a && byte_in 129 129 b && byte_in 159 159 c
                        then 3                     (* U+205F *)
                        else if byte_in 227 227 a && byte_in 128 128 b && byte_in 128 128 c
                        then 3                     (* U+3000 *)
                        else 0
                    end
           end
  end.

(** The same, read from the end of the string: the argument is reversed. *)
Definition ws_width_rev (r : string) : nat :=
  match r with
  | EmptyString => 0
  | String c r1 =>
      if ascii_space c then 1
      else match r1 with
           | EmptyString => 0
           | String b r2 =>
               if Nat.eqb (ws_width (String b (String c EmptyString))) 2 then 2
               else match r2 with
                    | EmptyString => 0
                    | String a _ =>
                        if Nat.eqb (ws_width (String a (String b (String c EmptyString)))) 3
                        then 3 else 0
                    end
           end
  end.

Fixpoint strip_with (width : string -> nat) (fuel : nat) (s : string) : string :=
  match fuel with
  | O => s
  | S f =>
      match width s with
      | O => s
      | S k => strip_with width f (string_drop (S k) s)
      end
  end.

Definition str_lstrip (s : string) : string :=
  strip_with ws_width (String.length s) s.

Definition str_rstrip (s : string) : string :=
  string_rev (strip_with ws_width_rev (String.length s) (string_rev s)).

Definition str_strip (s : string) : string := str_rstrip (str_lstrip s).

Definition str_is_empty (s : string) : bool :=
  match s with EmptyString => true | _ => false end.

(** [re.sub(r'(?<![=<>!])=(?![=])', '==', s)]: every [=] that is not
    preceded by one of [=<>!] and not followed by [=] becomes [==].  Both
    look-arounds read the subject string, not the output; [prev] is the
    character before the current position, absent at the start. *)
Definition guards_eq (c : ascii) : bool :=
  is_char c "=" || is_char c "<" || is_char c ">" || is_char c "!".

Definition next_is_eq (s : string) : bool :=
  match s with
  | String c _ => is_char c "="
  | EmptyString => false
  end.

Fixpoint sub_bare_eq (prev : option ascii) (s : string) : string :=
  match s with
  | EmptyString => EmptyString
  | String c s' =>
      if is_char c "="
         && negb (from_option guards_eq false prev)
         && negb (next_is_eq s')
      then String "=" (String "=" (sub_bare_eq (Some c) s'))
      else String c (sub_bare_eq (Some c) s')
  end.

(** The operator rewriting that opens [_evaluate_expression]
    (task_engine.py, lines 421-425), in the order of the source. *)
Definition rewrite_operators (expression : string) : string :=
  let expression :=
    str_replace "!" " not "
      (str_replace "||" " or " (str_replace "&&" " and " expression)) in
  sub_bare_eq None expression.

(** [str.isidentifier()] on ASCII strings; [None] when the string has a
    byte outside ASCII, where Python consults the Unicode tables. *)
Definition ident_start (c : ascii) : bool :=
  byte_in 65 90 c || byte_in 97 122 c || is_char c "_".

Definition ident_part (c : ascii) : bool := ident_start c || byte_in 48 57 c.

Fixpoint all_chars (p : ascii -> bool) (s : string) : bool :=
  match s with
  | EmptyString => true
  | String c s' => p c && all_chars p s'
  end.

Definition str_isidentifier (s : string) : option bool :=
  if negb (all_chars (byte_in 0 127) s) then None
  else match s with
       | EmptyString => Some false
       | String c s' => Some (ident_start c && all_chars ident_part s')
       end.

(* ===================================================================== *)
(** * Values, objects, messages and exceptions *)

(** A Python value as the engine meets it: JSON scalars, and references to
    list objects.  Lists are mutable and shared, so they live in an object
    store ([heap]) and a value only names one.  A finite float is modelled
    by the rational it denotes; [VNaN] is the float that is not a number
    ([float("nan")]), which compares unequal to everything, itself
    included.  The infinities are outside the model. *)
Inductive value : Type :=
  | VNone
  | VBool (b : bool)
  | VInt (n : Z)
  | VFloat (q : Q)
  | VNaN
  | VStr (s : string)
  | VRef (l : nat).

Abbreviation heap := (gmap nat (list value)).
Abbreviation scope := (gmap string value).

(** A task is a JSON object: a dict from field names to values. *)
Abbreviation task := (gmap string value).

Definition as_number (v : value) : option Q :=
  match v with
  | VBool b => Some (if b then 1%Q else 0%Q)
  | VInt n => Some (inject_Z n)
  | VFloat q => Some q
  | _ => None
  end.

Definition is_none (v : value) : bool :=
  match v with VNone => true | _ => false end.

Definition is_nan (v : value) : bool :=
  match v with VNaN => true | _ => false end.

(** What [float(s)] returns. *)
Inductive pyfloat : Type :=
  | Finite (q : Q)
  | NaN.

Definition float_value (x : pyfloat) : value :=
  match x with Finite q => VFloat q | NaN => VNaN end.

(** [v == "literal"] for a string literal. *)
Definition is_str (v : value) (s : string) : bool :=
  match v with VStr t => String.eqb t s | _ => false end.

(** [a == b].  Numbers compare by value across [bool], [int] and [float],
    and NaN equals nothing; lists compare element by element, the same
    object being equal to itself without a look inside.  [depth] bounds the
    nesting that is followed; [None] when it is exceeded, when a reference
    dangles, or when two items are both NaN (items that are the same object
    count as equal, and the model does not tell float objects apart). *)
Fixpoint py_eq_at (depth : nat) (h : heap) (a b : value) : option bool :=
  match a, b with
  | VRef x, VRef y =>
      if Nat.eqb x y then Some true
      else match depth with
           | O => None
           | S d =>
               match h !! x, h !! y with
               | Some xs, Some ys =>
                   if negb (Nat.eqb (length xs) (length ys)) then Some false
                   else
                     (fix items (xs ys : list value) : option bool :=
                        match xs, ys with
                        | VNaN :: _, VNaN :: _ => None
                        | x1 :: xs', y1 :: ys' =>
                            match py_eq_at d h x1 y1 with
                            | Some true => items xs' ys'
                            | other => other
                            end
                        | _, _ => Some true
                        end) xs ys
               | _, _ => None
               end
           end
  | VNone, VNone => Some true
  | VStr s, VStr t => Some (String.eqb s t)
  | _, _ =>
      match as_number a, as_number b with
      | Some x, Some y => Some (Qeq_bool x y)
      | _, _ => Some false
      end
  end.

Definition py_eq (h : heap) (a b : value) : option bool := py_eq_at 8 h a b.

Arguments py_eq : simpl never.

(** Truth value of an object, as [if v:] and [not v] take it. *)
Definition truthy (h : heap) (v : value) : bool :=
  match v with
  | VNone => false
  | VBool b => b
  | VInt n => negb (Z.eqb n 0)
  | VFloat q => negb (Qeq_bool q 0)
  | VNaN => true
  | VStr s => negb (str_is_empty s)
  | VRef l => match h !! l with Some [] => false | _ => true end
  end.

(** The text of an f-string: literal pieces and formatted values, kept in
    order.  A formatted value is recorded as the value, a [{x:.2f}] field
    as the number. *)
Inductive piece : Type :=
  | Text (s : string)
  | Show (v : value)
  | Fixed2 (q : Q).

Abbreviation message := (list piece).

(** Exceptions.  The classes down to [OtherError] derive from Python's
    [Exception].  [BaseOnly] stands for a class that derives from
    [BaseException] and not from [Exception] ([SystemExit],
    [KeyboardInterrupt], [GeneratorExit], [BaseException] itself): an
    evaluated text can raise one, and [except Exception] does not catch
    it. *)
Inductive exn_class : Type :=
  | Exception
  | ValueError
  | NameError
  | KeyError
  | TypeError
  | AttributeError
  | TimeoutError
  | OtherError (name : string)
  | BaseOnly (name : string).

(** [issubclass(cls, Exception)]. *)
Definition is_exception (c : exn_class) : bool :=
  match c with
  | BaseOnly _ => false
  | _ => true
  end.

Record exn : Type := MkExn { exn_cls : exn_class; exn_msg : message }.

(** What a call comes to: a value, an exception, or nothing at all (the
    model has no answer: a loop ran out of fuel, or a runtime service gave
    none). *)
Inductive outcome (A : Type) : Type :=
  | Ret (a : A)
  | Exc (x : exn)
  | NoResult.

Arguments Ret {A} a.
Arguments Exc {A} x.
Arguments NoResult {A}.

(** Calls that leave the engine, in the order they are made. *)
Inductive call : Type :=
  | CConnect (device : value)
  | CScreenshot (path : value)
  | CTap (x y : value)
  | CLongPress (x y duration : value)
  | CSwipe (x1 y1 x2 y2 duration : value)
  | CRestartApp (package : value)
  | CSleep (seconds : Q)
  | CProgress (current total : nat).

(* ===================================================================== *)
(** * The platform: collaborators and runtime services

    [ADBController] and [ImageProcessor] run external programs; their public
    methods catch every exception themselves and report through their return
    value, which is what the engine sees.  [eval], [int], [float], the
    clock and [os.path.join] belong to the Python runtime.  All of them are
    operations of an interface over an abstract state of the outside
    world. *)
Class Platform : Type := {
  world : Type;
  image : Type;
  (* time *)
  time_time : world -> Q * world;
  time_sleep : Q -> world -> world;
  (* ADBController: (success, message) *)
  adb_connect_device : value -> world -> bool * world;
  adb_screenshot : value -> world -> (bool * value) * world;
  adb_tap : value -> value -> world -> (bool * value) * world;
  adb_long_press : value -> value -> value -> world -> (bool * value) * world;
  adb_swipe : value -> value -> value -> value -> value -> world -> (bool * value) * world;
  adb_restart_app : value -> world -> (bool * value) * world;
  (* ImageProcessor; find_template reads the threshold in force *)
  img_load_image : value -> world -> option image * world;
  img_find_template : value -> image -> image -> world -> option (Z * Z) * world;
  img_extract_text : image -> value -> world -> option string * world;
  img_find_text_location : image -> value -> value -> world -> (option (Z * Z) * string) * world;
  (* eval(source, safe_globals, local_scope): the objects and the local
     scope after the call, and the value or the exception; None when the
     call gives no result *)
  py_eval : string -> heap -> scope -> option (heap * scope * (exn + value));
  (* int(s) and float(s): Some None is ValueError *)
  py_int : string -> option (option Z);
  py_float : string -> option (option pyfloat);
  os_path_join : string -> string -> string;
  (* the caller's stop predicate *)
  is_running_callable : world -> bool * world;
}.

(* ===================================================================== *)
(** * The engine state *)

(** The settings read once in [__init__]. *)
Record settings : Type := Settings {
  device_id : value;
  ocr_language : value;
  max_retries : value;
  retry_delay : Q;
  timeout : value;
  task_delay : Q;
  base_dir : string;
}.

(** The attributes of a [TaskEngine], the threshold of its image
    processor, the object store, and what has been printed and called. *)
Record engine `{Platform} : Type := Engine {
  variables : scope;
  watched_variables : gset string;
  objects : heap;
  task_queue : list task;
  current_task : option task;
  is_running : bool;
  last_success_time : option Q;
  run_start_time : option Q;
  success_counts : list (value * Z);
  threshold : value;
  cfg : settings;
  stdout : list message;
  trace : list call;
  env : world;
}.

Section EngineState.
Context `{Platform}.

(** Field updates. *)
Definition set_variables (x : scope) (e : engine) : engine :=
  {| variables := x; watched_variables := watched_variables e;
     objects := objects e; task_queue := task_queue e;
     current_task := current_task e; is_running := is_running e;
     last_success_time := last_success_time e;
     run_start_time := run_start_time e; success_counts := success_counts e;
     threshold := threshold e; cfg := cfg e; stdout := stdout e;
     trace := trace e; env := env e |}.

Definition set_watched_variables (x : gset string) (e : engine) : engine :=
  {| variables := variables e; watched_variables := x; objects := objects e;
     task_queue := task_queue e; current_task := current_task e;
     is_running := is_running e; last_success_time := last_success_time e;
     run_start_time := run_start_time e; success_counts := success_counts e;
     threshold := threshold e; cfg := cfg e; stdout := stdout e;
     trace := trace e; env := env e |}.

Definition set_objects (x : heap) (e : engine) : engine :=
  {| variables := variables e; watched_variables := watched_variables e;
     objects := x; task_queue := task_queue e;
     current_task := current_task e; is_running := is_running e;
     last_success_time := last_success_time e;
     run_start_time := run_start_time e; success_counts := success_counts e;
     threshold := threshold e; cfg := cfg e; stdout := stdout e;
     trace := trace e; env := env e |}.

Definition set_task_queue (x : list task) (e : engine) : engine :=
  {| variables := variables e; watched_variables := watched_variables e;
     objects := objects e; task_queue := x; current_task := current_task e;
     is_running := is_running e; last_success_time := last_success_time e;
     run_start_time := run_start_time e; success_counts := success_counts e;
     threshold := threshold e; cfg := cfg e; stdout := stdout e;
     trace := trace e; env := env e |}.

Definition set_current_task (x : option task) (e : engine) : engine :=
  {| variables := variables e; watched_variables := watched_variables e;
     objects := objects e; task_queue := task_queue e; current_task := x;
     is_running := is_running e; last_success_time := last_success_time e;
     run_start_time := run_start_time e; success_counts := success_counts e;
     threshold := threshold e; cfg := cfg e; stdout := stdout e;
     trace := trace e; env := env e |}.

Definition set_is_running (x : bool) (e : engine) : engine :=
  {| variables := variables e; watched_variables := watched_variables e;
     objects := objects e; task_queue := task_queue e;
     current_task := current_task e; is_running := x;
     last_success_time := last_success_time e;
     run_start_time := run_start_time e; success_counts := success_counts e;
     threshold := threshold e; cfg := cfg e; stdout := stdout e;
     trace := trace e; env := env e |}.

Definition set_last_success_time (x : option Q) (e : engine) : engine :=
  {| variables := variables e; watched_variables := watched_variables e;
     objects := objects e; task_queue := task_queue e;
     current_task := current_task e; is_running := is_running e;
     last_success_time := x; run_start_time := run_start_time e;
     success_counts := success_counts e; threshold := threshold e;
     cfg := cfg e; stdout := stdout e; trace := trace e; env := env e |}.

Definition set_run_start_time (x : option Q) (e : engine) : engine :=
  {| variables := variables e; watched_variables := watched_variables e;
     objects := objects e; task_queue := task_queue e;
     current_task := current_task e; is_running := is_running e;
     last_success_time := last_success_time e; run_start_time := x;
     success_counts := success_counts e; threshold := threshold e;
     cfg := cfg e; stdout := stdout e; trace := trace e; env := env e |}.

Definition set_success_counts (x : list (value * Z)) (e : engine) : engine :=
  {| variables := variables e; watched_variables := watched_variables e;
     objects := objects e; task_queue := task_queue e;
     current_task := current_task e; is_running := is_running e;
     last_success_time := last_success_time e;
     run_start_time := run_start_time e; success_counts := x;
     threshold := threshold e; cfg := cfg e; stdout := stdout e;
     trace := trace e; env := env e |}.

Definition set_threshold (x : value) (e : engine) : engine :=
  {| variables := variables e; watched_variables := watched_variables e;
     objects := objects e; task_queue := task_queue e;
     current_task := current_task e; is_running := is_running e;
     last_success_time := last_success_time e;
     run_start_time := run_start_time e; success_counts := success_counts e;
     threshold := x; cfg := cfg e; stdout := stdout e; trace := trace e;
     env := env e |}.

Definition set_stdout (x : list message) (e : engine) : engine :=
  {| variables := variables e; watched_variables := watched_variables e;
     objects := objects e; task_queue := task_queue e;
     current_task := current_task e; is_running := is_running e;
     last_success_time := last_success_time e;
     run_start_time := run_start_time e; success_counts := success_counts e;
     threshold := threshold e; cfg := cfg e; stdout := x; trace := trace e;
     env := env e |}.

Definition set_trace (x : list call) (e : engine) : engine :=
  {| variables := variables e; watched_variables := watched_variables e;
     objects := objects e; task_queue := task_queue e;
     current_task := current_task e; is_running := is_running e;
     last_success_time := last_success_time e;
     run_start_time := run_start_time e; success_counts := success_counts e;
     threshold := threshold e; cfg := cfg e; stdout := stdout e; trace := x;
     env := env e |}.

Definition set_env (x : world) (e : engine) : engine :=
  {| variables := variables e; watched_variables := watched_variables e;
     objects := objects e; task_queue := task_queue e;
     current_task := current_task e; is_running := is_running e;
     last_success_time := last_success_time e;
     run_start_time := run_start_time e; success_counts := success_counts e;
     threshold := threshold e; cfg := cfg e; stdout := stdout e;
     trace := trace e; env := x |}.

(* --------------------------------------------------------------------- *)
(** ** The monad of engine methods

    A method takes the engine state and comes to an [outcome] and a new
    state.  An exception leaves the state as it was when it was raised. *)

Definition M (A : Type) : Type := engine -> outcome A * engine.

Definition ret {A} (a : A) : M A := fun e => (Ret a, e).

Definition raise {A} (x : exn) : M A := fun e => (Exc x, e).

Definition no_result {A} : M A := fun e => (NoResult, e).

Definition bind {A B} (m : M A) (k : A -> M B) : M B :=
  fun e =>
    match m e with
    | (Ret a, e') => k a e'
    | (Exc x, e') => (Exc x, e')
    | (NoResult, e') => (NoResult, e')
    end.

(** [try: body / except Exception as x: handler x]: an exception that
    does not derive from [Exception] passes the handler by. *)
Definition try_except {A} (body : M A) (handler : exn -> M A) : M A :=
  fun e =>
    match body e with
    | (Exc x, e') => if is_exception (exn_cls x) then handler x e' else (Exc x, e')
    | other => other
    end.

(** [try: body / finally: final].  The final block runs on return and on
    exception alike; an exception of its own replaces the pending one. *)
Definition try_finally {A} (body : M A) (final : M unit) : M A :=
  fun e =>
    match body e with
    | (NoResult, e') => (NoResult, e')
    | (r, e') =>
        match final e' with
        | (Ret _, e'') => (r, e'')
        | (Exc x, e'') => (Exc x, e'')
        | (NoResult, e'') => (NoResult, e'')
        end
    end.

Definition gets {A} (f : engine -> A) : M A := fun e => (Ret (f e), e).

Definition modify (f : engine -> engine) : M unit := fun e => (Ret tt, f e).

End EngineState.

Notation "'let*' x ':=' m 'in' k" := (bind m (fun x => k))
  (at level 10, x name, m at level 100, k at level 200).
Notation "m ';;' k" := (bind m (fun _ => k))
  (at level 100, k at level 200, right associativity, only parsing).

Definition error (c : exn_class) (m : message) : exn := MkExn c m.

Section Runtime.
Context `{Platform}.

(** [print(message)]. *)
Definition print (m : message) : M unit :=
  modify (fun e => set_stdout (stdout e ++ [m]) e).

(** Leaving the engine: the call is recorded, the world answers. *)
Definition record (c : call) : M unit :=
  modify (fun e => set_trace (trace e ++ [c]) e).

Definition ask {A} (f : world -> A * world) : M A :=
  fun e => let '(a, w) := f (env e) in (Ret a, set_env w e).

Definition time_now : M Q := ask time_time.

(** [time.sleep(seconds)] on a number. *)
Definition sleep (seconds : Q) : M unit :=
  if Qle_bool 0 seconds
  then record (CSleep seconds) ;; modify (fun e => set_env (time_sleep seconds (env e)) e)
  else raise (error ValueError [Text "sleep length must be non-negative"]).

(** [time.sleep(v)] on any value. *)
Definition sleep_value (v : value) : M unit :=
  if is_nan v then raise (error ValueError [Text "Invalid value NaN (not a number)"])
  else match as_number v with
       | Some q => sleep q
       | None => raise (error TypeError [Show v; Text " object cannot be interpreted as a number"])
       end.

Definition adb_call (c : call) (f : world -> (bool * value) * world) : M (bool * value) :=
  record c ;; ask f.

(** Dict access on a task: [task.get(k)], [task.get(k, d)], [k in task],
    [task[k]]. *)
Definition task_get (t : task) (k : string) : value := default VNone (t !! k).

Definition task_get_or (t : task) (k : string) (d : value) : value := default d (t !! k).

Definition task_has (t : task) (k : string) : bool := bool_decide (is_Some (t !! k)).

Definition task_item (t : task) (k : string) : M value :=
  match t !! k with
  | Some v => ret v
  | None => raise (error KeyError [Text "'"; Text k; Text "'"])
  end.

Definition is_truthy (v : value) : M bool := gets (fun e => truthy (objects e) v).

(** [a > b], [a >= b] between a number and a value: [TypeError] unless
    the value is a number too, and false against NaN. *)
Definition num_gt (a : Q) (b : value) : M bool :=
  if is_nan b then ret false
  else match as_number b with
       | Some q => ret (negb (Qle_bool a q))
       | None => raise (error TypeError [Text "'>' not supported between instances of 'float' and "; Show b])
       end.

Definition num_ge (a : Q) (b : value) : M bool :=
  if is_nan b then ret false
  else match as_number b with
       | Some q => ret (Qle_bool q a)
       | None => raise (error TypeError [Text "'>=' not supported between instances of 'int' and "; Show b])
       end.

(** [retries - attempt] once [retries] is known to be a number. *)
Definition num_minus (a : value) (n : Z) : value :=
  match a with
  | VInt r => VInt (r - n)
  | VBool b => VInt ((if b then 1 else 0) - n)
  | VFloat q => VFloat (q - inject_Z n)
  | other => other
  end.

(* --------------------------------------------------------------------- *)
(** ** [TaskEngine]: small methods *)

Definition load_tasks (tasks_config : list task) : M unit :=
  modify (set_task_queue tasks_config).

Definition stop : M unit := modify (set_is_running false).

(** [_log]: prints when there is no task context or the task asks for it. *)
Definition _log (t : option task) (m : message) : M unit :=
  match t with
  | None => print m
  | Some t =>
      let* wanted := is_truthy (task_get_or t "print_log" (VBool false)) in
      if wanted then print m else ret tt
  end.

(* --------------------------------------------------------------------- *)
(** ** Jump Map Builder ([_build_jump_map], lines 47-64)

    [i] is the index of the head of [tasks] in the queue, [stack] holds the
    open LOOP indices with the innermost first. *)
Definition is_loop (t : task) : bool := is_str (task_get t "type") "LOOP".

Definition is_end_loop (t : task) : bool := is_str (task_get t "type") "END_LOOP".

Fixpoint scan_loops (tasks : list task) (i : nat) (stack : list nat)
    (jump_map : gmap nat nat) : exn + gmap nat nat :=
  match tasks with
  | [] =>
      match stack with
      | [] => inr jump_map
      | top :: _ =>
          inl (error ValueError
                 [Text "任务 "; Show (VInt (Z.of_nat top));
                  Text ": 'LOOP' 没有匹配的 'END_LOOP'"])
      end
  | t :: rest =>
      if is_loop t then scan_loops rest (S i) (i :: stack) jump_map
      else if is_end_loop t then
        match stack with
        | [] =>
            inl (error ValueError
                   [Text "任务 "; Show (VInt (Z.of_nat i));
                    Text ": 找到没有匹配的 'LOOP' 的 'END_LOOP'"])
        | loop_index :: stack' =>
            scan_loops rest (S i) stack'
              (<[i := loop_index]> (<[loop_index := i]> jump_map))
        end
      else scan_loops rest (S i) stack jump_map
  end.

Definition build_jump_map (tasks : list task) : exn + gmap nat nat :=
  scan_loops tasks 0 [] ∅.

Definition _build_jump_map : M (gmap nat nat) :=
  let* queue := gets task_queue in
  match build_jump_map queue with
  | inl x => raise x
  | inr jump_map => ret jump_map
  end.

(* --------------------------------------------------------------------- *)
(** ** Variable Store ([_set_variable], lines 496-509) *)

Definition py_equal (a b : value) : M bool :=
  fun e =>
    match py_eq (objects e) a b with
    | Some r => (Ret r, e)
    | None => (NoResult, e)
    end.

Definition watch_line (name : string) (v : value) : message :=
  [Text "监控日志: 变量 '"; Text name; Text "' 的值已更新为: "; Show v].

Definition _set_variable (name : string) (v : value) : M unit :=
  let* old_value := gets (fun e => default VNone (variables e !! name)) in
  let* same := py_equal old_value v in
  if same then ret tt
  else
    modify (fun e => set_variables (<[name := v]> (variables e)) e) ;;
    let* watched := gets (fun e => bool_decide (name ∈ watched_variables e)) in
    if watched then print (watch_line name v) else ret tt.

(* --------------------------------------------------------------------- *)
(** ** Expression Evaluator ([_evaluate_expression], lines 417-449, and
    [_execute_action], lines 451-480) *)

(** [eval(source, safe_globals, local_scope)]: the evaluator works on the
    object store and on [local_scope]; what it does to either stays, also
    when it raises.  In Python a text can reach further (from the objects
    it is given it can get, attribute by attribute, at the engine itself),
    and [py_eval] has no way to say so: it answers with the objects, the
    local scope and the value.  The properties of this file that pass
    through an evaluation are therefore stated on what [py_eval] answers
    and on the state the evaluation leaves; those about what the executor
    and the execution loop leave alone are about tasks that evaluate
    nothing. *)
Definition eval_in (source : string) (local_scope : scope) : M (scope * (exn + value)) :=
  fun e =>
    match py_eval source (objects e) local_scope with
    | Some (h, sc, r) => (Ret (sc, r), set_objects h e)
    | None => (NoResult, e)
    end.

(** The loop over the clauses.  A step either returns from the method
    ([Some b]) or goes on to the next clause ([None]). *)
Fixpoint eval_conditions (conditions : list string) (local_scope : scope) : M bool :=
  match conditions with
  | [] => ret true
  | cond :: rest =>
      if str_is_empty cond then eval_conditions rest local_scope
      else
        let* r := eval_in cond local_scope in
        let '(local_scope, result) := r in
        let* verdict :=
          try_except
            (match result with
             | inl x => raise x
             | inr v =>
                 let* holds := is_truthy v in
                 if negb holds then ret (Some false) else ret None
             end)
            (fun x =>
               _log None ([Text "评估表达式 '"; Text cond; Text "' 时出错: "] ++ exn_msg x) ;;
               ret (Some false)) in
        match verdict with
        | Some b => ret b
        | None => eval_conditions rest local_scope
        end
  end.

Definition no_attribute (v : value) (name : string) : exn :=
  error AttributeError [Show v; Text " object has no attribute '"; Text name; Text "'"].

Definition _evaluate_expression (expression : value) : M bool :=
  match expression with
  | VStr expression =>
      let expression := rewrite_operators expression in
      let* local_scope := gets variables in
      let conditions := map str_strip (str_split ";" expression) in
      eval_conditions conditions local_scope
  | other => raise (no_attribute other "replace")
  end.

Fixpoint run_statements (statements : list string) (local_scope : scope) : M unit :=
  match statements with
  | [] => ret tt
  | stmt :: rest =>
      if str_is_empty stmt then run_statements rest local_scope
      else if negb (str_contains_char "=" stmt)
      then raise (error ValueError [Text "无效的赋值表达式: "; Text stmt])
      else
        let '(lhs, rhs) := str_split_first "=" stmt in
        let var_name := str_strip lhs in
        let expr := str_strip (default EmptyString rhs) in
        match str_isidentifier var_name with
        | None => no_result
        | Some false => raise (error NameError [Text "无效的变量名: "; Text var_name])
        | Some true =>
            let* r := eval_in expr local_scope in
            let '(local_scope, result) := r in
            match result with
            | inl x => raise x
            | inr v =>
                _set_variable var_name v ;;
                run_statements rest (<[var_name := v]> local_scope)
            end
        end
  end.

Definition _execute_action (action : value) : M unit :=
  match action with
  | VStr action =>
      let* local_scope := gets variables in
      let statements := map str_strip (str_split ";" action) in
      run_statements statements local_scope
  | other => raise (no_attribute other "split")
  end.

(** [_parse_value], lines 526-547. *)
Definition _parse_value (v : value) : M value :=
  match v with
  | VStr s =>
      if starts_with "{{" s && ends_with "}}" s then
        let var_name :=
          str_strip (string_rev (string_drop 2 (string_rev (string_drop 2 s)))) in
        gets (fun e => default VNone (variables e !! var_name))
      else
        match py_int s with
        | None => no_result
        | Some (Some n) => ret (VInt n)
        | Some None =>
            match py_float s with
            | None => no_result
            | Some (Some x) => ret (float_value x)
            | Some None => ret (VStr s)
            end
        end
  | other => ret other
  end.

(* --------------------------------------------------------------------- *)
(** ** Action Dispatcher: the handlers (lines 233-415, 482-524) *)

Definition failed (m : message) : exn := error Exception m.

Definition _handle_screenshot (t : task) : M unit :=
  let* save_path := task_item t "save_path" in
  let* r := adb_call (CScreenshot save_path) (adb_screenshot save_path) in
  let '(success, message) := r in
  if success then ret tt else raise (failed [Text "截图失败: "; Show message]).

Definition _handle_long_press (t : task) : M unit :=
  let x := task_get t "x" in
  let y := task_get t "y" in
  let duration := task_get_or t "duration" (VInt 1000) in
  if is_none x || is_none y then raise (failed [Text "长按任务缺少x或y坐标"])
  else
    _log (Some t) [Text "正在执行坐标长按: ("; Show x; Text ", "; Show y;
                   Text ")，时长: "; Show duration; Text "ms"] ;;
    let* r := adb_call (CLongPress x y duration) (adb_long_press x y duration) in
    let '(success, message) := r in
    if success then ret tt
    else raise (failed [Text "坐标长按 ("; Show x; Text ", "; Show y; Text ") 失败: ";
                        Show message]).

Definition _handle_restart_app (t : task) : M unit :=
  let package_name := task_get t "package_name" in
  let* given := is_truthy package_name in
  if negb given then raise (failed [Text "重启应用任务缺少 'package_name' 参数"])
  else
    _log (Some t) [Text "正在重启应用: "; Show package_name] ;;
    let* r := adb_call (CRestartApp package_name) (adb_restart_app package_name) in
    let '(success, message) := r in
    if success then ret tt
    else raise (failed [Text "重启应用 '"; Show package_name; Text "' 失败: "; Show message]).

(** The last step of a click: tap the position that was settled on. *)
Definition tap_position (t : task) (final_x final_y : value) : M unit :=
  _log (Some t) [Text "最终确定点击坐标: ("; Show final_x; Text ", "; Show final_y; Text ")"] ;;
  let* r := adb_call (CTap final_x final_y) (adb_tap final_x final_y) in
  let '(success, message) := r in
  if success then ret tt
  else raise (failed [Text "点击坐标 ("; Show final_x; Text ", "; Show final_y;
                      Text ") 失败: "; Show message]).

Definition position (p : Z * Z) : value * value := (VInt (fst p), VInt (snd p)).

Definition _handle_click (t : task) : M unit :=
  let x := task_get t "x" in
  let y := task_get t "y" in
  let target_text := task_get t "target_text" in
  let target_image_path := task_get t "target" in
  let* by_text := is_truthy target_text in
  let* by_image := is_truthy target_image_path in
  if negb (is_none x) && negb (is_none y) && negb by_text && negb by_image then
    _log (Some t) [Text "正在执行坐标点击: ("; Show x; Text ", "; Show y; Text ")"] ;;
    let* r := adb_call (CTap x y) (adb_tap x y) in
    let '(success, message) := r in
    if success then ret tt
    else raise (failed [Text "坐标点击 ("; Show x; Text ", "; Show y; Text ") 失败: ";
                        Show message])
  else
    _log (Some t) [Text "需要进行图像/文字识别，正在截取屏幕..."] ;;
    let* base := gets (fun e => base_dir (cfg e)) in
    let temp_screenshot_path := VStr (os_path_join base "temp_screen_click.png") in
    let* r := adb_call (CScreenshot temp_screenshot_path)
                (adb_screenshot temp_screenshot_path) in
    let '(success, message) := r in
    if negb success then raise (failed [Text "获取截图以进行识别失败: "; Show message])
    else
      let* loaded := ask (img_load_image temp_screenshot_path) in
      match loaded with
      | None => raise (failed [Text "加载用于识别的截图失败"])
      | Some source_img =>
          let* click_pos :=
            if by_text then
              _log (Some t) [Text "正在通过OCR查找文字: '"; Show target_text; Text "'"] ;;
              let* default_lang := gets (fun e => ocr_language (cfg e)) in
              let lang := task_get_or t "lang" default_lang in
              let* found := ask (img_find_text_location source_img target_text lang) in
              let '(click_pos, recognized_text) := found in
              match click_pos with
              | Some p => ret (Some (position p))
              | None =>
                  let error_detail :=
                    if str_is_empty recognized_text then [Text "未识别到任何文字。"]
                    else [Text "实际识别内容: '"; Text recognized_text; Text "'"] in
                  raise (failed ([Text "未找到目标文字 '"; Show target_text; Text "'。"]
                                 ++ error_detail))
              end
            else if by_image then
              _log (Some t) [Text "正在通过模板匹配查找图像: "; Show target_image_path] ;;
              let* template := ask (img_load_image target_image_path) in
              match template with
              | None => raise (failed [Text "加载目标图像失败: "; Show target_image_path])
              | Some template_img =>
                  let* original_threshold := gets threshold in
                  let current_threshold := task_get_or t "threshold" original_threshold in
                  modify (set_threshold current_threshold) ;;
                  let* in_force := gets threshold in
                  let* click_pos := ask (img_find_template in_force source_img template_img) in
                  modify (set_threshold original_threshold) ;;
                  match click_pos with
                  | Some p => ret (Some (position p))
                  | None =>
                      raise (failed [Text "未找到目标图像: "; Show target_image_path;
                                     Text " (置信度: "; Show current_threshold; Text ")"])
                  end
              end
            else if negb (is_none x) && negb (is_none y) then ret (Some (x, y))
            else ret None in
          match click_pos with
          | None => raise (failed [Text "点击任务缺少有效的目标(文字/图像/坐标)"])
          | Some (final_x, final_y) => tap_position t final_x final_y
          end
      end.

(** The [for] loop of [_handle_find_and_click_one] (lines 357-381): the
    first target that loads and matches ends the method. *)
Fixpoint try_targets (t : task) (judge_only : value) (source_img : image)
    (current_threshold : value) (target_image_paths : list value) : M unit :=
  match target_image_paths with
  | [] =>
      raise (failed [Text "未能在屏幕上找到任何一个目标图片 (置信度: ";
                     Show current_threshold; Text ")。"])
  | target_path :: rest =>
      _log (Some t) [Text "正在尝试匹配图片: "; Show target_path] ;;
      let* template := ask (img_load_image target_path) in
      match template with
      | None =>
          _log (Some t) [Text "警告: 加载目标图片失败，已跳过: "; Show target_path] ;;
          try_targets t judge_only source_img current_threshold rest
      | Some template_img =>
          let* in_force := gets threshold in
          let* click_pos := ask (img_find_template in_force source_img template_img) in
          match click_pos with
          | None => try_targets t judge_only source_img current_threshold rest
          | Some p =>
              let '(final_x, final_y) := position p in
              _log (Some t) [Text "成功找到图片 '"; Show target_path; Text "' 在坐标: (";
                             Show final_x; Text ", "; Show final_y; Text ")。"] ;;
              let* only_judge := is_truthy judge_only in
              if only_judge then _log (Some t) [Text "模式为“仅判断”，跳过点击操作。"]
              else
                _log (Some t) [Text "执行点击操作..."] ;;
                let* r := adb_call (CTap final_x final_y) (adb_tap final_x final_y) in
                let '(success, message) := r in
                if success then ret tt
                else raise (failed [Text "点击目标 '"; Show target_path; Text "' 失败: ";
                                    Show message])
          end
      end
  end.

Definition _handle_find_and_click_one (t : task) : M unit :=
  let target_image_paths := task_get t "targets" in
  let judge_only := task_get_or t "judge_only" (VBool false) in
  let* listed :=
    gets (fun e => match target_image_paths with
                   | VRef l => objects e !! l
                   | _ => None
                   end) in
  match listed with
  | None | Some [] =>
      raise (failed [Text "find_and_click_one 任务需要一个 'targets' 列表参数。"])
  | Some paths =>
      _log (Some t) [Text "开始执行 'find_and_click_one' 任务，准备截图..."] ;;
      let* base := gets (fun e => base_dir (cfg e)) in
      let temp_screenshot_path := VStr (os_path_join base "temp_screen_find_one.png") in
      let* r := adb_call (CScreenshot temp_screenshot_path)
                  (adb_screenshot temp_screenshot_path) in
      let '(success, message) := r in
      if negb success
      then raise (failed [Text "为 'find_and_click_one' 任务截图失败: "; Show message])
      else
        let* loaded := ask (img_load_image temp_screenshot_path) in
        match loaded with
        | None => raise (failed [Text "为 'find_and_click_one' 加载截图失败。"])
        | Some source_img =>
            let* original_threshold := gets threshold in
            let current_threshold := task_get_or t "threshold" original_threshold in
            modify (set_threshold current_threshold) ;;
            try_finally
              (try_targets t judge_only source_img current_threshold paths)
              (modify (set_threshold original_threshold))
        end
  end.

(** A variable name has to be a string to enter the store. *)
Definition as_name (v : value) : M string :=
  match v with
  | VStr s => ret s
  | _ => no_result
  end.

Definition _handle_ocr (t : task) : M unit :=
  let variable_name := task_get t "variable_name" in
  let* given := is_truthy variable_name in
  if negb given then raise (failed [Text "OCR任务缺少 'variable_name' 参数"])
  else
    let* base := gets (fun e => base_dir (cfg e)) in
    let temp_screenshot_path := VStr (os_path_join base "temp_screen_ocr.png") in
    let* r := adb_call (CScreenshot temp_screenshot_path)
                (adb_screenshot temp_screenshot_path) in
    let '(success, message) := r in
    if negb success then raise (failed [Text "OCR截图失败: "; Show message])
    else
      let* loaded := ask (img_load_image temp_screenshot_path) in
      match loaded with
      | None => raise (failed [Text "OCR加载截图失败"])
      | Some source_img =>
          let* default_lang := gets (fun e => ocr_language (cfg e)) in
          let lang := task_get_or t "lang" default_lang in
          let* extracted := ask (img_extract_text source_img lang) in
          let* extracted_text :=
            match extracted with
            | Some text => ret text
            | None =>
                _log (Some t) [Text "OCR未能识别出任何文字 (语言: "; Show lang; Text ")"] ;;
                ret EmptyString
            end in
          let* name := as_name variable_name in
          _set_variable name (VStr (str_strip extracted_text)) ;;
          let* stored := gets (fun e => default (VStr EmptyString) (variables e !! name)) in
          _log (Some t) [Text "OCR识别结果已存入变量 '"; Text name; Text "': '";
                         Show stored; Text "'"]
      end.

Definition _handle_wait (t : task) : M unit :=
  sleep_value (task_get_or t "duration" (VInt 1)).

Definition _handle_swipe (t : task) : M unit :=
  let* x1 := task_item t "x1" in
  let* y1 := task_item t "y1" in
  let* x2 := task_item t "x2" in
  let* y2 := task_item t "y2" in
  let duration := task_get_or t "duration" (VInt 300) in
  let* r := adb_call (CSwipe x1 y1 x2 y2 duration) (adb_swipe x1 y1 x2 y2 duration) in
  let '(success, message) := r in
  if success then ret tt else raise (failed [Text "滑动操作失败: "; Show message]).

Definition _handle_set_variable (t : task) : M unit :=
  let* name_value := task_item t "name" in
  let* raw := task_item t "value" in
  let* v := _parse_value raw in
  let* name := as_name name_value in
  let* logged := is_truthy (task_get_or t "print_log" (VBool false)) in
  (if logged
   then modify (fun e => set_watched_variables ({[name]} ∪ watched_variables e) e)
   else ret tt) ;;
  _log (Some t) [Text "执行 set_variable: 变量 '"; Text name; Text "' 被赋值为 '";
                 Show v; Text "'"] ;;
  _set_variable name v.

(** [_handle_task_success], lines 570-589.  [success_counts] is a dict
    keyed by the description; a list cannot be a key, and a NaN key is found
    again only as the same object, which the model does not follow. *)
Definition same_key (a b : value) : bool := default false (py_eq ∅ a b).

Fixpoint counts_get (k : value) (counts : list (value * Z)) : option Z :=
  match counts with
  | [] => None
  | (k', n) :: rest => if same_key k' k then Some n else counts_get k rest
  end.

Fixpoint counts_set (k : value) (n : Z) (counts : list (value * Z)) : list (value * Z) :=
  match counts with
  | [] => [(k, n)]
  | (k', n') :: rest =>
      if same_key k' k then (k', n) :: rest else (k', n') :: counts_set k n rest
  end.

Definition newline : string := String (ascii_of_nat 10) EmptyString.

Definition _handle_task_success (t : task) : M unit :=
  let* timed := is_truthy (task_get_or t "enable_timer" (VBool false)) in
  if negb timed then ret tt
  else
    let task_desc := task_get_or t "description" (VStr "未命名任务") in
    match task_desc with
    | VRef _ => raise (error TypeError [Text "unhashable type: 'list'"])
    | VNaN => no_result
    | _ =>
        let* counts := gets success_counts in
        modify (set_success_counts
                  (counts_set task_desc (default 0%Z (counts_get task_desc counts) + 1) counts)) ;;
        let* now := time_now in
        let* last := gets last_success_time in
        match last with
        | Some before =>
            print [Text "计时器: 任务 '"; Show task_desc; Text "' 与上一个成功任务间隔 ";
                   Fixed2 (now - before); Text " 秒"]
        | None =>
            print [Text "计时器: 任务 '"; Show task_desc; Text "' 的计时器已启动。"]
        end ;;
        modify (set_last_success_time (Some now))
    end.

(* --------------------------------------------------------------------- *)
(** ** Retry/Timeout Controller ([_execute_task], lines 137-231) *)

(** Lines 177-196: the handler for the task type. *)
Definition dispatch (t : task) (task_type : value) : M unit :=
  if is_str task_type "screenshot" then _handle_screenshot t
  else if is_str task_type "click" then _handle_click t
  else if is_str task_type "long_press" then _handle_long_press t
  else if is_str task_type "wait" then _handle_wait t
  else if is_str task_type "set_variable" then _handle_set_variable t
  else if is_str task_type "swipe" then _handle_swipe t
  else if is_str task_type "ocr" then _handle_ocr t
  else if is_str task_type "find_and_click_one" then _handle_find_and_click_one t
  else if is_str task_type "restart_app" then _handle_restart_app t
  else if negb (is_str task_type "LOOP" || is_str task_type "END_LOOP")
  then _log (Some t) [Text "未知任务类型: "; Show task_type]
  else ret tt.

(** Lines 172-174: the deadline check at the head of an attempt. *)
Definition check_deadline (timeout : value) (start_time : Q) : M unit :=
  if is_none timeout then ret tt
  else
    let* now := time_now in
    let* late := num_gt (now - start_time) timeout in
    if late
    then raise (error TimeoutError [Text "任务执行超时("; Show timeout; Text "秒)"])
    else ret tt.

(** Lines 198-203. *)
Definition run_post_action (t : task) : M unit :=
  if task_has t "post_action"
  then try_except (_execute_action (task_get t "post_action"))
         (fun x => raise (failed ([Text "执行后置动作失败: "] ++ exn_msg x)))
  else ret tt.

(** The body of the [try] (lines 172-207). *)
Definition attempt_once (t : task) (task_type timeout : value) (start_time : Q) : M unit :=
  check_deadline timeout start_time ;;
  dispatch t task_type ;;
  run_post_action t ;;
  _handle_task_success t.

Definition failure_message (retries : value) (last_error : exn) : message :=
  [Text "任务执行失败(重试"; Show retries; Text "次后): "] ++ exn_msg last_error.

Definition double_failure_message (retries : value) (last_error action_e : exn) : message :=
  failure_message retries last_error
  ++ [Text newline; Text "并且执行失败时动作也失败了: "] ++ exn_msg action_e.

(** Lines 216-224: retries are used up. *)
Definition retries_exhausted (t : task) (retries : value) (last_error : exn) : M unit :=
  (if task_has t "on_fail_action"
   then try_except
          (_log (Some t) [Text "任务失败，正在执行失败时动作: ";
                          Show (task_get t "on_fail_action")] ;;
           _execute_action (task_get t "on_fail_action"))
          (fun action_e =>
             raise (failed (double_failure_message retries last_error action_e)))
   else ret tt) ;;
  raise (failed (failure_message retries last_error)).

(** The [except] block (lines 209-229). *)
Definition on_attempt_failure (t : task) (wait_for_success retries : value)
    (attempt : Z) (last_error : exn) : M unit :=
  let* blocking := is_truthy wait_for_success in
  if negb blocking then
    let* exhausted := num_ge (inject_Z attempt) retries in
    if exhausted then retries_exhausted t retries last_error
    else _log (Some t) ([Text "任务执行失败，剩余重试次数: "; Show (num_minus retries attempt);
                         Text ", 错误: "] ++ exn_msg last_error)
  else
    let* delay := gets (fun e => retry_delay (cfg e)) in
    _log (Some t) ([Text "阻塞任务执行失败，将在 "; Show (VFloat delay);
                    Text " 秒后重试... 错误: "] ++ exn_msg last_error).

(** The [while True] loop (lines 164-231); [attempt] is the number of
    attempts made so far, [fuel] bounds the number still to be made. *)
Fixpoint attempts (fuel : nat) (t : task) (task_type wait_for_success retries timeout : value)
    (start_time : Q) (attempt : Z) : M unit :=
  match fuel with
  | O => no_result
  | S fuel' =>
      let* running := gets is_running in
      if negb running then _log (Some t) [Text "任务被用户手动停止。"]
      else
        let attempt := (attempt + 1)%Z in
        let* finished :=
          try_except
            (attempt_once t task_type timeout start_time ;; ret true)
            (fun x => on_attempt_failure t wait_for_success retries attempt x ;; ret false) in
        if finished then ret tt
        else
          let* delay := gets (fun e => retry_delay (cfg e)) in
          sleep delay ;;
          attempts fuel' t task_type wait_for_success retries timeout start_time attempt
  end.

(** Lines 148-231: what follows the pre-condition. *)
Definition execute_attempts (fuel : nat) (t : task) : M unit :=
  let task_type := task_get t "type" in
  let wait_for_success := task_get_or t "wait_for_success" (VBool false) in
  let* default_retries := gets (fun e => max_retries (cfg e)) in
  let retries := task_get_or t "retries" default_retries in
  let* blocking := is_truthy wait_for_success in
  let* default_timeout := gets (fun e => timeout (cfg e)) in
  let timeout := if blocking then task_get t "timeout"
                 else task_get_or t "timeout" default_timeout in
  let* start_time := time_now in
  attempts fuel t task_type wait_for_success retries timeout start_time 0.

(** Lines 139-146: the pre-condition; [true] when the task is to run. *)
Definition check_pre_condition (t : task) : M bool :=
  if task_has t "pre_condition" then
    try_except
      (let* holds := _evaluate_expression (task_get t "pre_condition") in
       if negb holds then
         _log (Some t) [Text "任务 '"; Show (task_get t "description");
                        Text "' 因前置条件不满足而被跳过。"] ;;
         ret false
       else ret true)
      (fun x => raise (failed ([Text "评估前置条件失败: "] ++ exn_msg x)))
  else ret true.

Definition _execute_task (fuel : nat) (t : task) : M unit :=
  let* proceed := check_pre_condition t in
  if proceed then execute_attempts fuel t else ret tt.

(* --------------------------------------------------------------------- *)
(** ** Execution Loop ([run], lines 66-125) *)

Definition jump_target (jump_map : gmap nat nat) (i : nat) : M nat :=
  match jump_map !! i with
  | Some j => ret (j + 1)%nat
  | None => raise (error KeyError [Show (VInt (Z.of_nat i))])
  end.

(** Lines 105-122: run the task at [i], report, pause. *)
Definition execute_and_report (fuel : nat) (progress_callback : bool)
    (total_tasks i : nat) (t : task) : M unit :=
  try_except (_execute_task fuel t)
    (fun x =>
       let* tolerated := is_truthy (task_get_or t "continue_on_fail" (VBool false)) in
       if tolerated
       then _log (Some t) ([Text "任务 '"; Show (task_get t "description");
                            Text "' 失败，但已设置为继续。错误: "] ++ exn_msg x)
       else raise x) ;;
  (if progress_callback then record (CProgress (i + 1) total_tasks) else ret tt) ;;
  let* delay := gets (fun e => task_delay (cfg e)) in
  if negb (Qle_bool delay 0) then sleep delay else ret tt.

(** The [while] loop (lines 82-122) with instruction pointer [i]. *)
Fixpoint run_loop (fuel : nat) (progress_callback : bool) (jump_map : gmap nat nat)
    (total_tasks i : nat) : M unit :=
  match fuel with
  | O => no_result
  | S fuel' =>
      if negb (i <? total_tasks)%nat then ret tt
      else
        let* running := gets is_running in
        if negb running then ret tt
        else
          let* wanted := ask is_running_callable in
          if negb wanted then ret tt
          else
            let* queue := gets task_queue in
            match queue !! i with
            | None => raise (error (OtherError "IndexError") [Text "list index out of range"])
            | Some t =>
                modify (set_current_task (Some t)) ;;
                let next := run_loop fuel' progress_callback jump_map total_tasks in
                let execute :=
                  execute_and_report fuel' progress_callback total_tasks i t ;;
                  next (i + 1)%nat in
                if is_loop t then
                  let* skip :=
                    if task_has t "pre_condition" then
                      let* holds := _evaluate_expression (task_get t "pre_condition") in
                      ret (negb holds)
                    else ret false in
                  if skip then let* j := jump_target jump_map i in next j
                  else execute
                else if is_end_loop t then
                  let* again :=
                    if negb (task_has t "pre_condition") then ret true
                    else
                      let* holds := _evaluate_expression (task_get t "pre_condition") in
                      ret (negb holds) in
                  if again then let* j := jump_target jump_map i in next j
                  else
                    _log (Some t) [Text "满足停止条件 '"; Show (task_get t "pre_condition");
                                   Text "'，正在退出循环。"] ;;
                    next (i + 1)%nat
                else execute
            end
  end.

Definition run (fuel : nat) (progress_callback : bool) : M unit :=
  modify (set_is_running true) ;;
  modify (set_last_success_time None) ;;
  let* now := time_now in
  modify (set_run_start_time (Some now)) ;;
  modify (set_success_counts []) ;;
  let* device := gets (fun e => device_id (cfg e)) in
  let* chosen := is_truthy device in
  (if chosen then
     record (CConnect device) ;;
     let* connected := ask (adb_connect_device device) in
     if connected then ret tt else raise (failed [Text "无法连接设备: "; Show device])
   else ret tt) ;;
  let* jump_map :=
    try_except _build_jump_map
      (fun x =>
         match exn_cls x with
         | ValueError => raise (failed ([Text "任务结构错误: "] ++ exn_msg x))
         | _ => raise x
         end) in
  let* total_tasks := gets (fun e => length (task_queue e)) in
  run_loop fuel progress_callback jump_map total_tasks 0 ;;
  let* running := gets is_running in
  if negb running then _log None [Text "任务被用户停止"] else ret tt.

End Runtime.

(* ===================================================================== *)
(** * A fragment of Python expressions

    [eval] is a service of the platform.  To run scenarios, this module
    gives it for a fragment of the expression language: integer literals,
    names, [True] [False] [None], list displays, [+ - *] on integers, one
    comparison, [not] [and] [or], parentheses and [list.append].  Inside the
    fragment it follows Python; outside it gives no answer ([None]), which
    the engine model carries as [NoResult]. *)
Module MiniPy.

Inductive token : Type :=
  | TInt (n : Z)
  | TName (s : string)
  | TKw (s : string)            (* and or not True False None *)
  | TOp (s : string)            (* < <= > >= == != + - * *)
  | TLParen | TRParen | TLBrack | TRBrack | TComma | TDot.

Fixpoint span (p : ascii -> bool) (s : string) : string * string :=
  match s with
  | EmptyString => (EmptyString, EmptyString)
  | String c s' =>
      if p c then let '(a, b) := span p s' in (String c a, b)
      else (EmptyString, s)
  end.

Definition is_digit (c : ascii) : bool := byte_in 48 57 c.

Definition digit_value (c : ascii) : Z := Z.of_nat (nat_of_ascii c - 48).

Fixpoint decimal (acc : Z) (digits : string) : Z :=
  match digits with
  | EmptyString => acc
  | String c s' => decimal (acc * 10 + digit_value c) s'
  end.

Definition reserved : list string :=
  ["if"; "else"; "elif"; "in"; "is"; "for"; "while"; "lambda"; "def"; "class";
   "return"; "yield"; "await"; "async"; "import"; "from"; "as"; "with"; "try";
   "except"; "finally"; "raise"; "pass"; "break"; "continue"; "del"; "global";
   "nonlocal"; "assert"].

Definition word_token (w : string) : option token :=
  if bool_decide (w ∈ ["and"; "or"; "not"; "True"; "False"; "None"]) then Some (TKw w)
  else if bool_decide (w ∈ reserved) then None
  else Some (TName w).

Definition head_is (p : ascii -> bool) (s : string) : bool :=
  match s with String c _ => p c | EmptyString => false end.

(** An operator at the head of [c :: rest], by longest match; [None] when
    the characters form a token outside the fragment. *)
Definition operator (c : ascii) (rest : string) : option (token * string) :=
  let followed_by d := head_is (is_char d) rest in
  let two := Some (TOp (String c "="), string_drop 1 rest) in
  let one := Some (TOp (String c EmptyString), rest) in
  if is_char c "<" then
    if followed_by "="%char then two
    else if followed_by "<"%char || followed_by ">"%char then None else one
  else if is_char c ">" then
    if followed_by "="%char then two else if followed_by ">"%char then None else one
  else if is_char c "=" || is_char c "!" then
    if followed_by "="%char then two else None
  else if is_char c "+" then if followed_by "="%char then None else one
  else if is_char c "-" then
    if followed_by "="%char || followed_by ">"%char then None else one
  else if is_char c "*" then
    if followed_by "="%char || followed_by "*"%char then None else one
  else if is_char c "(" then Some (TLParen, rest)
  else if is_char c ")" then Some (TRParen, rest)
  else if is_char c "[" then Some (TLBrack, rest)
  else if is_char c "]" then Some (TRBrack, rest)
  else if is_char c "," then Some (TComma, rest)
  else if is_char c "." then
    if head_is is_digit rest then None else Some (TDot, rest)
  else None.

Fixpoint lex (fuel : nat) (s : string) : option (list token) :=
  match fuel with
  | O => None
  | S f =>
      match s with
      | EmptyString => Some []
      | String c rest =>
          if is_char c " " || byte_in 9 9 c then lex f rest
          else if is_digit c then
            let '(digits, rest') := span is_digit s in
            if head_is (fun d => ident_part d || is_char d ".") rest' then None
            else if is_char c "0" && negb (String.length digits =? 1)%nat then None
            else cons (TInt (decimal 0 digits)) <$> lex f rest'
          else if ident_start c then
            let '(word, rest') := span ident_part s in
            match word_token word with
            | Some tok => cons tok <$> lex f rest'
            | None => None
            end
          else
            match operator c rest with
            | Some (tok, rest') => cons tok <$> lex f rest'
            | None => None
            end
      end
  end.

#[local] Set Warnings "-register-all".

Inductive expr : Type :=
  | EInt (n : Z)
  | EName (x : string)
  | EConst (v : value)
  | EList (items : list expr)
  | ENeg (a : expr)
  | ENot (a : expr)
  | EBin (op : string) (a b : expr)
  | ECmp (op : string) (a b : expr)
  | EAnd (a b : expr)
  | EOr (a b : expr)
  | EAppend (target arg : expr).

Definition is_cmp (op : string) : bool :=
  bool_decide (op ∈ ["<"; "<="; ">"; ">="; "=="; "!="]).

(** Recursive descent by precedence level: 0 [or], 1 [and], 2 [not],
    3 comparison, 4 [+ -], 5 [*], 6 unary minus, 7 primary.  [parse_rest]
    continues a left-associative chain, [parse_trailers] the [.append(..)]
    calls after a primary, [parse_items] the items of a list display. *)
Fixpoint parse (fuel level : nat) (ts : list token) : option (expr * list token) :=
  match fuel with
  | O => None
  | S f =>
      match level with
      | 0 | 1 | 4 | 5 =>
          '(lhs, ts') ← parse f (S level) ts; parse_rest f level lhs ts'
      | 2 =>
          match ts with
          | TKw "not" :: ts' => '(a, ts'') ← parse f 2 ts'; Some (ENot a, ts'')
          | _ => parse f 3 ts
          end
      | 3 =>
          '(lhs, ts') ← parse f 4 ts;
          match ts' with
          | TOp op :: ts'' =>
              if is_cmp op then
                '(rhs, ts3) ← parse f 4 ts'';
                match ts3 with
                | TOp op' :: _ => if is_cmp op' then None else Some (ECmp op lhs rhs, ts3)
                | _ => Some (ECmp op lhs rhs, ts3)
                end
              else Some (lhs, ts')
          | _ => Some (lhs, ts')
          end
      | 6 =>
          match ts with
          | TOp "-" :: ts' => '(a, ts'') ← parse f 6 ts'; Some (ENeg a, ts'')
          | _ => parse f 7 ts
          end
      | _ =>
          match ts with
          | TInt n :: ts' => parse_trailers f (EInt n) ts'
          | TName x :: ts' => parse_trailers f (EName x) ts'
          | TKw "True" :: ts' => parse_trailers f (EConst (VBool true)) ts'
          | TKw "False" :: ts' => parse_trailers f (EConst (VBool false)) ts'
          | TKw "None" :: ts' => parse_trailers f (EConst VNone) ts'
          | TLParen :: ts' =>
              '(a, ts'') ← parse f 0 ts';
              match ts'' with
              | TRParen :: ts3 => parse_trailers f a ts3
              | _ => None
              end
          | TLBrack :: TRBrack :: ts' => parse_trailers f (EList []) ts'
          | TLBrack :: ts' =>
              '(items, ts'') ← parse_items f ts'; parse_trailers f (EList items) ts''
          | _ => None
          end
      end
  end
with parse_rest (fuel level : nat) (lhs : expr) (ts : list token)
    : option (expr * list token) :=
  match fuel with
  | O => None
  | S f =>
      let chain (make : expr -> expr) (ts' : list token) :=
        '(rhs, ts'') ← parse f (S level) ts'; parse_rest f level (make rhs) ts'' in
      match level, ts with
      | 0, TKw "or" :: ts' => chain (EOr lhs) ts'
      | 1, TKw "and" :: ts' => chain (EAnd lhs) ts'
      | 4, TOp "+" :: ts' => chain (EBin "+" lhs) ts'
      | 4, TOp "-" :: ts' => chain (EBin "-" lhs) ts'
      | 5, TOp "*" :: ts' => chain (EBin "*" lhs) ts'
      | _, _ => Some (lhs, ts)
      end
  end
with parse_trailers (fuel : nat) (a : expr) (ts : list token)
    : option (expr * list token) :=
  match fuel with
  | O => None
  | S f =>
      match ts with
      | TDot :: TName "append" :: TLParen :: ts' =>
          '(arg, ts'') ← parse f 0 ts';
          match ts'' with
          | TRParen :: ts3 => parse_trailers f (EAppend a arg) ts3
          | _ => None
          end
      | TDot :: _ | TLParen :: _ | TLBrack :: _ => None
      | _ => Some (a, ts)
      end
  end
with parse_items (fuel : nat) (ts : list token) : option (list expr * list token) :=
  match fuel with
  | O => None
  | S f =>
      '(a, ts') ← parse f 0 ts;
      match ts' with
      | TRBrack :: ts'' => Some ([a], ts'')
      | TComma :: ts'' => '(rest, ts3) ← parse_items f ts''; Some (a :: rest, ts3)
      | _ => None
      end
  end.

Definition parse_source (source : string) : option expr :=
  ts ← lex (S (String.length source)) source;
  '(a, rest) ← parse (32 * S (length ts)) 0 ts;
  match rest with [] => Some a | _ => None end.

(** A fresh address: above every address in use. *)
Definition next_loc (h : heap) : nat :=
  map_fold (fun l _ acc => Nat.max (S l) acc) 0%nat h.

Definition builtin_names : list string :=
  ["abs"; "max"; "min"; "round"; "len"; "str"; "int"; "float"; "bool"; "__builtins__"].

Definition arith (op : string) (a b : Z) : option Z :=
  if String.eqb op "+" then Some (a + b)%Z
  else if String.eqb op "-" then Some (a - b)%Z
  else if String.eqb op "*" then Some (a * b)%Z
  else None.

Definition order (op : string) (a b : Z) : option bool :=
  if String.eqb op "<" then Some (a <? b)%Z
  else if String.eqb op "<=" then Some (a <=? b)%Z
  else if String.eqb op ">" then Some (b <? a)%Z
  else if String.eqb op ">=" then Some (b <=? a)%Z
  else None.

(** Evaluation, left to right; an exception ends it. *)
Fixpoint eval_expr (a : expr) (h : heap) (sc : scope) : option (heap * (exn + value)) :=
  let then_ (r : option (heap * (exn + value)))
            (k : heap -> value -> option (heap * (exn + value))) :=
    match r with
    | Some (h', inr v) => k h' v
    | other => other
    end in
  match a with
  | EInt n => Some (h, inr (VInt n))
  | EConst v => Some (h, inr v)
  | EName x =>
      match sc !! x with
      | Some v => Some (h, inr v)
      | None =>
          if bool_decide (x ∈ builtin_names) then None
          else Some (h, inl (error NameError [Text "name '"; Text x; Text "' is not defined"]))
      end
  | EList items =>
      let fix each (items : list expr) (h : heap) : option (heap * (exn + list value)) :=
        match items with
        | [] => Some (h, inr [])
        | item :: rest =>
            match eval_expr item h sc with
            | Some (h', inr v) =>
                match each rest h' with
                | Some (h'', inr vs) => Some (h'', inr (v :: vs))
                | other => other
                end
            | Some (h', inl x) => Some (h', inl x)
            | None => None
            end
        end in
      match each items h with
      | Some (h', inr vs) =>
          let l := next_loc h' in Some (<[l := vs]> h', inr (VRef l))
      | Some (h', inl x) => Some (h', inl x)
      | None => None
      end
  | ENeg a =>
      then_ (eval_expr a h sc) (fun h v =>
        match v with VInt n => Some (h, inr (VInt (- n))) | _ => None end)
  | ENot a =>
      then_ (eval_expr a h sc) (fun h v => Some (h, inr (VBool (negb (truthy h v)))))
  | EBin op a b =>
      then_ (eval_expr a h sc) (fun h v =>
      then_ (eval_expr b h sc) (fun h w =>
        match v, w with
        | VInt m, VInt n => n' ← arith op m n; Some (h, inr (VInt n'))
        | _, _ => None
        end))
  | ECmp op a b =>
      then_ (eval_expr a h sc) (fun h v =>
      then_ (eval_expr b h sc) (fun h w =>
        if String.eqb op "==" then r ← py_eq h v w; Some (h, inr (VBool r))
        else if String.eqb op "!=" then r ← py_eq h v w; Some (h, inr (VBool (negb r)))
        else match v, w with
             | VInt m, VInt n => r ← order op m n; Some (h, inr (VBool r))
             | _, _ => None
             end))
  | EAnd a b =>
      then_ (eval_expr a h sc) (fun h v =>
        if truthy h v then eval_expr b h sc else Some (h, inr v))
  | EOr a b =>
      then_ (eval_expr a h sc) (fun h v =>
        if truthy h v then Some (h, inr v) else eval_expr b h sc)
  | EAppend target arg =>
      then_ (eval_expr target h sc) (fun h v =>
      then_ (eval_expr arg h sc) (fun h w =>
        match v with
        | VRef l => items ← h !! l; Some (<[l := (items ++ [w])%list]> h, inr VNone)
        | _ => None
        end))
  end.

Definition eval (source : string) (h : heap) (sc : scope)
    : option (heap * scope * (exn + value)) :=
  a ← parse_source source;
  '(h', r) ← eval_expr a h sc;
  Some (h', sc, r).

End MiniPy.

(** Reading the record of calls. *)
Definition is_tap (c : call) : bool := match c with CTap _ _ => true | _ => false end.

Definition is_progress (i : nat) (c : call) : bool :=
  match c with CProgress j _ => Nat.eqb i j | _ => false end.

Definition count_calls (p : call -> bool) (cs : list call) : nat := length (filter p cs).

(* ===================================================================== *)
(** * A scripted platform

    A platform to run scenarios on.  The world is a clock in whole seconds;
    reading it takes a second and sleeping takes the time slept, rounded up.
    The device accepts every command when [device_ok] and refuses every one
    otherwise.  An image is its path; [match_score] says how well a
    template matches the screen, and a template is found when its score
    reaches the threshold in force.  Expressions go to [MiniPy.eval]. *)
Module Scripted.

Definition answer (device_ok : bool) (w : nat) : (bool * value) * nat :=
  if device_ok then ((true, VStr EmptyString), w)
  else ((false, VStr "error: device offline"), w).

Definition load_image (path : value) (w : nat) : option string * nat :=
  match path with
  | VStr s => if starts_with "missing" s then (None, w) else (Some s, w)
  | _ => (None, w)
  end.

Definition match_score (template : string) : option (Q * (Z * Z)) :=
  if String.eqb template "b.png" then Some (75 # 100, (120, 45)%Z)
  else if String.eqb template "c.png" then Some (95 # 100, (300, 10)%Z)
  else None.

Definition find_template (threshold : value) (source template : string) (w : nat)
    : option (Z * Z) * nat :=
  match match_score template, as_number threshold with
  | Some (score, where_), Some needed =>
      if Qle_bool needed score then (Some where_, w) else (None, w)
  | _, _ => (None, w)
  end.

(** [int(s)] for ASCII input: blanks around an optional sign and digits,
    single underscores allowed between digits. *)
Fixpoint digits_ok (after_digit : bool) (s : string) : bool :=
  match s with
  | EmptyString => after_digit
  | String c s' =>
      if MiniPy.is_digit c then digits_ok true s'
      else if is_char c "_" then after_digit && MiniPy.head_is MiniPy.is_digit s'
                                 && digits_ok false s'
      else false
  end.

Fixpoint only_digits (s : string) : string :=
  match s with
  | EmptyString => EmptyString
  | String c s' => if MiniPy.is_digit c then String c (only_digits s') else only_digits s'
  end.

Definition ascii_only (s : string) : bool := all_chars (byte_in 0 127) s.

Definition int_of_string (s : string) : option (option Z) :=
  if negb (ascii_only s) then None
  else
    let body := str_strip s in
    let '(negative, body) :=
      match body with
      | String c rest =>
          if is_char c "-" then (true, rest)
          else if is_char c "+" then (false, rest) else (false, body)
      | EmptyString => (false, body)
      end in
    if digits_ok false body
    then let n := MiniPy.decimal 0 (only_digits body) in
         Some (Some (if negative then (- n)%Z else n))
    else Some None.

(** [float(s)]: answered for [nan], and where it is plainly a
    [ValueError], for ASCII text without a digit that cannot spell [inf] or
    [nan]. *)
Fixpoint has_char (p : ascii -> bool) (s : string) : bool :=
  match s with
  | EmptyString => false
  | String c s' => p c || has_char p s'
  end.

Definition float_of_string (s : string) : option (option pyfloat) :=
  if ascii_only s && String.eqb (str_strip s) "nan" then Some (Some NaN)
  else if ascii_only s
     && negb (has_char (fun c => MiniPy.is_digit c || is_char c "n" || is_char c "N") s)
  then Some None
  else None.

Definition seconds_up (d : Q) : nat := Z.to_nat (Qceiling d).

Definition platform (device_ok : bool) : Platform :=
  {| world := nat;
     image := string;
     time_time := fun w => (inject_Z (Z.of_nat w), S w);
     time_sleep := fun d w => (w + seconds_up d)%nat;
     adb_connect_device := fun _ w => (device_ok, w);
     adb_screenshot := fun _ => answer device_ok;
     adb_tap := fun _ _ => answer device_ok;
     adb_long_press := fun _ _ _ => answer device_ok;
     adb_swipe := fun _ _ _ _ _ => answer device_ok;
     adb_restart_app := fun _ => answer device_ok;
     img_load_image := load_image;
     img_find_template := find_template;
     img_extract_text := fun _ _ w => (None, w);
     img_find_text_location := fun _ _ _ w => ((None, EmptyString), w);
     py_eval := MiniPy.eval;
     py_int := int_of_string;
     py_float := float_of_string;
     os_path_join := fun a b => a ++ "/" ++ b;
     is_running_callable := fun w => (true, w) |}.




Definition default_settings : settings :=
  {| device_id := VNone;
     ocr_language := VStr "chi_sim+eng";
     max_retries := VInt 3;
     retry_delay := 1;
     timeout := VInt 30;
     task_delay := 1 # 100;
     base_dir := "/app" |}.

(** The engine as [__init__] leaves it, on a given object store. *)
Definition fresh_engine (device_ok : bool) (h : heap) : @engine (platform device_ok) :=
  @Engine (platform device_ok)
    ∅                     (* variables *)
    ∅                     (* watched_variables *)
    h                     (* objects *)
    []                    (* task_queue *)
    None                  (* current_task *)
    false                 (* is_running *)
    None                  (* last_success_time *)
    None                  (* run_start_time *)
    []                    (* success_counts *)
    (VFloat (8 # 10))     (* threshold *)
    default_settings      (* cfg *)
    []                    (* stdout *)
    []                    (* trace *)
    0%nat                 (* env *).


Definition task_of (fields : list (string * value)) : task := list_to_map fields.

(** The three-task loop of the specification's scenario. *)
Definition counting_loop : list task :=
  [ task_of [("type", VStr "LOOP"); ("pre_condition", VStr "i<3")];
    task_of [("type", VStr "set_variable"); ("description", VStr "body");
             ("name", VStr "label"); ("value", VStr "busy");
             ("enable_timer", VBool true); ("post_action", VStr "i = i + 1")];
    task_of [("type", VStr "END_LOOP"); ("pre_condition", VStr "i>=3")] ].

Definition counting_start : @engine (platform true) :=
  set_task_queue counting_loop
    (set_variables (<["i" := VInt 0]> ∅) (fresh_engine true ∅)).

(** The store after the action [x = [1, 2]]: [x] is bound to a list. *)
Definition list_store : @engine (platform true) :=
  snd (_execute_action (VStr "x = [1, 2]") (fresh_engine true ∅)).

(** A tap on a device that refuses every command. *)
Definition stuck_tap (extra : list (string * value)) : task :=
  task_of ([("type", VStr "click"); ("description", VStr "tap");
            ("x", VInt 10); ("y", VInt 20); ("print_log", VBool true)] ++ extra).

Definition running_engine (device_ok : bool) (h : heap) : @engine (platform device_ok) :=
  set_is_running true (fresh_engine device_ok h).

(** Three image targets in a list object at address 0: the first cannot be
    loaded, the second matches at threshold 0.7 but not at the engine's
    0.8, the third matches at either. *)
Definition three_targets : heap :=
  <[0%nat := [VStr "missing.png"; VStr "b.png"; VStr "c.png"]]> ∅.

Definition find_one (extra : list (string * value)) : task :=
  task_of ([("type", VStr "find_and_click_one"); ("targets", VRef 0)] ++ extra).

End Scripted.

Open Scope list_scope.

(* ===================================================================== *)
(** * Notions the properties are stated with *)

(** Well-nested sequences: the balanced words over LOOP ... END_LOOP. *)
Inductive well_nested : list task -> Prop :=
  | wn_nil : well_nested []
  | wn_plain t ts :
      is_loop t = false -> is_end_loop t = false ->
      well_nested ts -> well_nested (t :: ts)
  | wn_loop opening body closing rest :
      is_loop opening = true -> is_end_loop closing = true ->
      well_nested body -> well_nested rest ->
      well_nested (opening :: body ++ closing :: rest).

Definition is_control (t : task) : bool := is_loop t || is_end_loop t.

(** The code points [str.isspace()] accepts, in UTF-8. *)
Definition utf8 (bytes : list nat) : string :=
  fold_right (fun b s => String (ascii_of_nat b) s) EmptyString bytes.

Definition whitespace : list string :=
  map utf8
    [ [9]; [10]; [11]; [12]; [13]; [28]; [29]; [30]; [31]; [32];
      [194; 133]; [194; 160]; [225; 154; 128];
      [226; 128; 128]; [226; 128; 129]; [226; 128; 130]; [226; 128; 131];
      [226; 128; 132]; [226; 128; 133]; [226; 128; 134]; [226; 128; 135];
      [226; 128; 136]; [226; 128; 137]; [226; 128; 138];
      [226; 128; 168]; [226; 128; 169]; [226; 128; 175];
      [226; 129; 159]; [227; 128; 128] ]%nat.

(** A string of nothing but whitespace and semicolons. *)
Inductive blank : string -> Prop :=
  | blank_empty : blank EmptyString
  | blank_semicolon s : blank s -> blank (String ";" s)
  | blank_space w s : w ∈ whitespace -> blank s -> blank (w ++ s)%string.

(** The lines of standard output that are watch lines. *)
Definition is_watch_line (m : message) : bool :=
  match m with
  | Text s :: _ => String.eqb s "监控日志: 变量 '"
  | _ => false
  end.

Definition watch_lines (out : list message) : list message :=
  List.filter is_watch_line out.

(** The characters the rewriting looks for. *)
Definition quiet (c : ascii) : bool :=
  negb (is_char "&" c) && negb (is_char "|" c) && negb (is_char "!" c)
  && negb (is_char c "=").

(** What is used of a whitespace code point. *)
Definition space_like (w : string) : Prop :=
  all_chars quiet w = true
  /\ all_chars (fun c => negb (is_char c ";")) w = true
  /\ (exists k, String.length w = S k)
  /\ (forall rest, ws_width (w ++ rest)%string = String.length w)
  /\ (forall rest, string_drop (String.length w) (w ++ rest)%string = rest).

(** A run of whitespace. *)
Definition spaces (ws : list string) : string :=
  fold_right String.append EmptyString ws.

Section Observations.
Context `{Platform}.

(** The value stored under [name]. *)
Definition current (e : engine) (name : string) : value :=
  default VNone (variables e !! name).

(** What a reader of the store finds under [name]: the value, and for a
    list the items it holds. *)
Definition stored (e : engine) (name : string) : option (value * option (list value)) :=
  v ← variables e !! name;
  Some (v, match v with VRef l => objects e !! l | _ => None end).

(** The clauses [clauses] are evaluated one after the other from the
    objects [h] and the scope [sc], each comes out true (or is empty and
    skipped), and evaluation arrives at [h'] and [sc']. *)
Inductive clauses_hold : list string -> heap -> scope -> heap -> scope -> Prop :=
  | hold_done h sc : clauses_hold [] h sc h sc
  | hold_skip c cs h sc h' sc' :
      str_is_empty c = true ->
      clauses_hold cs h sc h' sc' ->
      clauses_hold (c :: cs) h sc h' sc'
  | hold_true c cs h sc h1 sc1 v h' sc' :
      str_is_empty c = false ->
      py_eval c h sc = Some (h1, sc1, inr v) ->
      truthy h1 v = true ->
      clauses_hold cs h1 sc1 h' sc' ->
      clauses_hold (c :: cs) h sc h' sc'.

(** The search of [_handle_find_and_click_one] on its own: the first
    target that loads and matches at [threshold], and the world after the
    look-ups. *)
Fixpoint first_match (threshold : value) (source_img : image) (paths : list value)
    (w : world) : option (value * (Z * Z)) * world :=
  match paths with
  | [] => (None, w)
  | target_path :: rest =>
      match img_load_image target_path w with
      | (None, w1) => first_match threshold source_img rest w1
      | (Some template_img, w1) =>
          match img_find_template threshold source_img template_img w1 with
          | (Some p, w2) => (Some (target_path, p), w2)
          | (None, w2) => first_match threshold source_img rest w2
          end
      end
  end.

(** [keeps f m]: running [m] leaves the observation [f] of the state as it
    was, whatever the outcome. *)
Definition keeps {A B} (f : engine -> B) (m : M A) : Prop :=
  forall e, f (snd (m e)) = f e.

(** The part of the state that only [run], [stop] and [load_tasks] write. *)
Definition control (e : engine) : settings * bool * list task :=
  (cfg e, is_running e, task_queue e).

(** [post m e Q]: the outcome and the state that [m] comes to from [e]
    satisfy [Q]. *)
Definition post {A} (m : M A) (e : engine) (Q : outcome A -> engine -> Prop) : Prop :=
  Q (fst (m e)) (snd (m e)).

(** An attempt that fails in the action: the deadline check passes, the
    handler is invoked and raises [x], leaving the state [e2]. *)
Definition failing_attempt (t : task) (task_type timeout : value) (start_time : Q)
    (e : engine) : option (exn * engine) :=
  match check_deadline timeout start_time e with
  | (Ret _, e1) =>
      match dispatch t task_type e1 with
      | (Exc x, e2) => Some (x, e2)
      | _ => None
      end
  | _ => None
  end.

(** The state in which the next attempt starts: the failure is logged with
    the retries that remain, and the retry delay is slept. *)
Definition before_next_attempt (t : task) (retries : value) (attempt : Z) (x : exn)
    (e : engine) : engine :=
  snd ((_log (Some t) ([Text "任务执行失败，剩余重试次数: "; Show (num_minus retries attempt);
                        Text ", 错误: "] ++ exn_msg x) ;;
        sleep (retry_delay (cfg e))) e).

(** [n] attempts in a row, the first being attempt number [attempt + 1],
    each fail in the action; the last one raises [x] and leaves [e']. *)
Fixpoint failing_attempts (n : nat) (t : task) (task_type retries timeout : value)
    (start_time : Q) (attempt : Z) (e : engine) : option (exn * engine) :=
  match n with
  | O => None
  | S n' =>
      match failing_attempt t task_type timeout start_time e with
      | None => None
      | Some (x, a) =>
          match n' with
          | O => Some (x, a)
          | S _ =>
              failing_attempts n' t task_type retries timeout start_time (attempt + 1)
                (before_next_attempt t retries (attempt + 1) x a)
          end
      end
  end.


Definition not_found (current_threshold : value) : exn :=
  failed [Text "未能在屏幕上找到任何一个目标图片 (置信度: ";
          Show current_threshold; Text ")。"].

Definition find_one_screenshot (e : engine) : value :=
  VStr (os_path_join (base_dir (cfg e)) "temp_screen_find_one.png").

Definition not_timeout (r : outcome unit) : Prop :=
  forall x, r = Exc x -> exn_cls x <> TimeoutError.

(** [extends m1 m2]: wherever [m1] comes to an outcome, [m2] comes to the
    same outcome and state. *)
Definition extends {A} (m1 m2 : M A) : Prop :=
  forall e, fst (m1 e) <> NoResult -> m2 e = m1 e.

Definition taps (e : engine) : list call := filter (fun c => is_tap c = true) (trace e).

End Observations.

(** [only_exceptions m]: what [m] raises derives from [Exception], so
    that [except Exception] catches it. *)
Definition only_exceptions `{Platform} {A} (m : M A) : Prop :=
  forall e x, fst (m e) = Exc x -> is_exception (exn_cls x) = true.

(** What holds of the stack and the map after the tasks [pre]. *)
Record scan_inv (pre : list task) (stack : list nat) (jm : gmap nat nat) : Prop := {
  inv_back : forall a b, jm !! a = Some b -> jm !! b = Some a;
  inv_kinds : forall a b, jm !! a = Some b -> (a < b)%nat ->
      exists ta tb, pre !! a = Some ta /\ pre !! b = Some tb
                    /\ is_loop ta = true /\ is_end_loop tb = true;
  inv_distinct : forall a, jm !! a <> Some a;
  inv_stack : forall a, a ∈ stack ->
      jm !! a = None /\ exists ta, pre !! a = Some ta /\ is_loop ta = true;
  inv_covered : forall k t, pre !! k = Some t -> is_control t = true ->
      is_Some (jm !! k) \/ k ∈ stack;
  inv_dom : forall a, is_Some (jm !! a) -> (a < length pre)%nat;
}.

(* ===================================================================== *)
(** * More of the program, and the notions its properties are stated with *)

(** The number of LOOPs open after the tasks [ts], from [depth] open ones;
    [None] when an END_LOOP finds none open. *)
Fixpoint open_loops (ts : list task) (depth : nat) : option nat :=
  match ts with
  | [] => Some depth
  | t :: rest =>
      if is_loop t then open_loops rest (S depth)
      else if is_end_loop t then
        match depth with
        | O => None
        | S d => open_loops rest d
        end
      else open_loops rest depth
  end.

(** The two complaints of [_build_jump_map]. *)
Definition unmatched_end_loop (i : nat) : exn :=
  error ValueError [Text "任务 "; Show (VInt (Z.of_nat i));
                    Text ": 找到没有匹配的 'LOOP' 的 'END_LOOP'"].

Definition unmatched_loop (i : nat) : exn :=
  error ValueError [Text "任务 "; Show (VInt (Z.of_nat i));
                    Text ": 'LOOP' 没有匹配的 'END_LOOP'"].

(** The number of successes counted so far. *)
Definition counted (counts : list (value * Z)) : Z :=
  fold_right (fun entry total => (snd entry + total)%Z) 0%Z counts.

(* --------------------------------------------------------------------- *)
(** ** [TaskEngine.get_run_summary] (task_engine.py, lines 549-568) *)

(** [sep.join(lines)] on f-string texts. *)
Fixpoint join_with (sep : string) (lines : list message) : message :=
  match lines with
  | [] => []
  | [line] => line
  | line :: rest => line ++ Text sep :: join_with sep rest
  end.

Definition count_line (entry : value * Z) : message :=
  [Text "  - "; Show (fst entry); Text ": "; Show (VInt (snd entry)); Text " 次"].

(** The list [summary] as the method has built it when it joins it. *)
Definition summary_of (total_duration : Q) (success_counts : list (value * Z))
    : list message :=
  [[Text "--- 任务执行摘要 ---"];
   [Text "总耗时: "; Fixed2 total_duration; Text " 秒"]]
  ++ match success_counts with
     | [] => [[Text "没有启用计时的任务成功执行。"]]
     | _ => [Text "各计时任务成功次数:"] :: map count_line success_counts
     end
  ++ [[Text "--------------------"]].

Section Summary.
Context `{Platform}.

Definition get_run_summary : M message :=
  let* started := gets run_start_time in
  match started with
  | None => ret [Text "任务尚未运行，无法生成摘要。"]
  | Some run_start_time =>
      let* now := time_now in
      let total_duration := (now - run_start_time)%Q in
      let* counts := gets success_counts in
      ret (join_with newline (summary_of total_duration counts))
  end.

End Summary.

(* ===================================================================== *)
(** * [ImageProcessor] (image_processor.py)

    The methods the engine calls.  OpenCV and Tesseract are libraries: what
    they return is an argument here, and what the methods make of it is
    modelled line by line. *)
Module ImageProcessor.

(** [find_template], lines 49-66.  [matching] is what [cv2.matchTemplate]
    and [cv2.minMaxLoc] give, the best score and its place, or [None] when
    they raise (the method then prints and returns [None]); [shape] is
    [template_img.shape[:2]], the height first. *)
Definition find_template (threshold : Q) (matching : option (Q * (Z * Z)))
    (shape : Z * Z) : option (Z * Z) :=
  match matching with
  | None => None
  | Some (max_val, max_loc) =>
      if Qle_bool threshold max_val then
        let '(h, w) := shape in
        let center_x := (fst max_loc + w / 2)%Z in
        let center_y := (snd max_loc + h / 2)%Z in
        Some (center_x, center_y)
      else None
  end.

(** A row of [image_to_data(..., output_type=Output.DICT)].  [conf] is
    [int(data['conf'][i])], or the text of the [ValueError] when the
    conversion raises. *)
Record ocr_row : Type := OcrRow {
  text : string;
  conf : string + Z;
  left : Z;
  top : Z;
  width : Z;
  height : Z;
}.

(** What [image_to_data] comes to. *)
Inductive ocr_data : Type :=
  | NotInstalled                      (* ImportError *)
  | OcrFailed (reason : string)       (* any other exception, str(e) *)
  | OcrData (rows : list ocr_row).

(** [needle in haystack]. *)
Fixpoint str_in (needle haystack : string) : bool :=
  starts_with needle haystack
  || match haystack with
     | EmptyString => false
     | String _ rest => str_in needle rest
     end.

(** [sep.join(words)]. *)
Fixpoint str_join (sep : string) (words : list string) : string :=
  match words with
  | [] => EmptyString
  | [word] => word
  | word :: rest => (word ++ sep ++ str_join sep rest)%string
  end.

Definition center (row : ocr_row) : Z * Z :=
  ((left row + width row / 2)%Z, (top row + height row / 2)%Z).

Definition found_line (target_text : string) (p : Z * Z) : message :=
  [Text "找到文本 '"; Text target_text; Text "' 在位置: ("; Show (VInt (fst p));
   Text ", "; Show (VInt (snd p)); Text ")"].

(** The [for] loop of [find_text_location] (lines 102-117): the texts
    gathered so far, the location found so far, and what has been printed;
    [inl] when a confidence cannot be read, with what had been printed by
    then. *)
Fixpoint scan_rows (target_text : string) (rows : list ocr_row)
    (all_recognized_text : list string) (found_location : option (Z * Z))
    (printed : list message)
    : (string * list message) + (list string * option (Z * Z) * list message) :=
  match rows with
  | [] => inr (all_recognized_text, found_location, printed)
  | row :: rest =>
      let text := str_strip (text row) in
      let all_recognized_text :=
        if str_is_empty text then all_recognized_text
        else all_recognized_text ++ [text] in
      match conf row with
      | inl reason => inl (reason, printed)
      | inr confidence =>
          if (60 <? confidence)%Z && str_in target_text text
             && negb (bool_decide (is_Some found_location))
          then scan_rows target_text rest all_recognized_text (Some (center row))
                 (printed ++ [found_line target_text (center row)])
          else scan_rows target_text rest all_recognized_text found_location printed
      end
  end.

(** [find_text_location], lines 84-129: the location, the text, and what
    was printed. *)
Definition find_text_location (data : ocr_data) (target_text : string)
    : option (Z * Z) * string * list message :=
  let failed_with (printed : list message) (error_msg : string) :=
    (None, error_msg, printed ++ [[Text error_msg]]) in
  match data with
  | NotInstalled => failed_with [] "未安装pytesseract，无法进行OCR识别"
  | OcrFailed reason => failed_with [] ("OCR文本定位失败: " ++ reason)%string
  | OcrData rows =>
      match scan_rows target_text rows [] None [] with
      | inl (reason, printed) => failed_with printed ("OCR文本定位失败: " ++ reason)%string
      | inr (all_recognized_text, found_location, printed) =>
          (found_location, str_join " " all_recognized_text, printed)
      end
  end.

End ImageProcessor.

(* ===================================================================== *)
(** * The main window's hold on the task queue (ui/main_window.py)

    [MainWindow] edits [task_engine.task_queue] in place and finds the
    extent of a loop for display.  The list operations are Python's. *)
Module MainWindow.

(** [list.pop(i)]: [None] is [IndexError]. *)
Definition list_pop {A} (i : Z) (l : list A) : option (A * list A) :=
  let n := Z.of_nat (length l) in
  let j := if (i <? 0)%Z then (i + n)%Z else i in
  if (0 <=? j)%Z && (j <? n)%Z
  then x ← l !! Z.to_nat j; Some (x, delete (Z.to_nat j) l)
  else None.

(** [list.insert(i, x)]: the index is clamped. *)
Definition list_insert {A} (i : Z) (x : A) (l : list A) : list A :=
  let n := Z.of_nat (length l) in
  let j := if (i <? 0)%Z then Z.max 0 (i + n) else Z.min i n in
  take (Z.to_nat j) l ++ x :: drop (Z.to_nat j) l.

(** The queue and the selected row of the list widget ([-1]: none), which
    is what [move_task_up] and [move_task_down] read and write. *)
Record view : Type := View {
  task_queue : list task;
  current_row : Z;
}.

(** [move_task_up], lines 960-967, and [move_task_down], lines 969-976;
    [None] is the [IndexError] of [pop]. *)
Definition move_task_up (v : view) : option view :=
  let index := current_row v in
  if (0 <? index)%Z then
    match list_pop index (task_queue v) with
    | Some (t, rest) => Some (View (list_insert (index - 1) t rest) (index - 1))
    | None => None
    end
  else Some v.

Definition move_task_down (v : view) : option view :=
  let index := current_row v in
  if (0 <=? index)%Z && (index <? Z.of_nat (length (task_queue v)) - 1)%Z then
    match list_pop index (task_queue v) with
    | Some (t, rest) => Some (View (list_insert (index + 1) t rest) (index + 1))
    | None => None
    end
  else Some v.

(** [on_task_item_clicked], lines 744-799: the extent of the loop to
    highlight.  From a LOOP the search goes forward for its END_LOOP,
    counting the loops opened on the way; from an END_LOOP it goes
    backward.  [-1] stands for not found, as in the source. *)
Fixpoint search_forward (tasks : list task) (i : Z) (level : nat) : Z :=
  match tasks with
  | [] => (-1)%Z
  | t :: rest =>
      if is_loop t then search_forward rest (i + 1) (S level)
      else if is_end_loop t then
        match level with
        | O => i
        | S l => search_forward rest (i + 1) l
        end
      else search_forward rest (i + 1) level
  end.

(** [tasks] are the tasks before the one clicked, the nearest first. *)
Fixpoint search_backward (tasks : list task) (i : Z) (level : nat) : Z :=
  match tasks with
  | [] => (-1)%Z
  | t :: rest =>
      if is_end_loop t then search_backward rest (i - 1) (S level)
      else if is_loop t then
        match level with
        | O => i
        | S l => search_backward rest (i - 1) l
        end
      else search_backward rest (i - 1) level
  end.

(** The rows highlighted: [range(start_index, end_index + 1)] when both
    ends were found, none otherwise. *)
Definition on_task_item_clicked (index : Z) (queue : list task) : list Z :=
  if (index <? 0)%Z || (Z.of_nat (length queue) <=? index)%Z then []
  else
    match queue !! Z.to_nat index with
    | None => []
    | Some t =>
        let '(start_index, end_index) :=
          if is_loop t then
            (index, search_forward (drop (S (Z.to_nat index)) queue) (index + 1) 0)
          else if is_end_loop t then
            (search_backward (rev (take (Z.to_nat index) queue)) (index - 1) 0, index)
          else ((-1)%Z, (-1)%Z) in
        if negb (start_index =? -1)%Z && negb (end_index =? -1)%Z
        then map (fun k => (start_index + Z.of_nat k)%Z)
               (seq 0 (Z.to_nat (end_index + 1 - start_index)))
        else []
    end.

End MainWindow.

(** Notions for the properties of [find_text_location]: a row whose
    confidence can be read, and a row that answers the search. *)
Definition readable (row : ImageProcessor.ocr_row) : Prop :=
  exists confidence, ImageProcessor.conf row = inr confidence.

Definition answers (target_text : string) (row : ImageProcessor.ocr_row) : bool :=
  match ImageProcessor.conf row with
  | inr confidence =>
      (60 <? confidence)%Z
      && ImageProcessor.str_in target_text (str_strip (ImageProcessor.text row))
  | inl _ => false
  end.

Definition texts_of (rows : list ImageProcessor.ocr_row) : list string :=
  List.filter (fun s => negb (str_is_empty s))
    (map (fun row => str_strip (ImageProcessor.text row)) rows).

(** A task none of whose texts is evaluated: [_evaluate_expression] and
    [_execute_action] are reached from these three fields only. *)
Definition eval_free (t : task) : Prop :=
  t !! "pre_condition" = None /\ t !! "post_action" = None
  /\ t !! "on_fail_action" = None.

(** What a click comes to: one tap has been made when it returns, and one
    at most when it does not. *)
Section ClickNotions.
Context `{Platform}.

(** What the handlers, the retry loop and the execution loop never write
    themselves: the queue, the recognition threshold (but for the time of
    a task that sets its own) and the stamp of the start of the run. *)
Definition kept_by_tasks (e : engine) : list task * value * option Q :=
  (task_queue e, threshold e, run_start_time e).

Definition tapped_once (e : engine) (r : outcome unit) (e' : engine) : Prop :=
  (r = Ret tt -> exists x y, taps e' = taps e ++ [CTap x y])
  /\ (taps e' = taps e \/ exists x y, taps e' = taps e ++ [CTap x y]).

End ClickNotions.

(* ===================================================================== *)
(** * [ADBController] (adb_controller.py) *)

From Stdlib Require Import DecimalString.

(** [s.split()]: the words between runs of whitespace, the whitespace of
    [str.strip()].  [skip] counts the bytes still to be dropped of the
    whitespace code point under the cursor, [word] is the word being read,
    last character first. *)
Definition word_read (word : string) : list string :=
  if str_is_empty word then [] else [string_rev word].

Fixpoint split_words (skip : nat) (word : string) (s : string) : list string :=
  match s with
  | EmptyString => word_read word
  | String c s' =>
      match skip with
      | S k => split_words k word s'
      | O =>
          match ws_width s with
          | O => split_words 0 (String c word) s'
          | S k => word_read word ++ split_words k EmptyString s'
          end
      end
  end.

Definition str_split_ws (s : string) : list string := split_words 0 EmptyString s.

(** [str(n)] of an [int], as an f-string renders it. *)
Definition str_of_int (n : Z) : string := NilZero.string_of_int (Z.to_int n).

Module ADBController.

(** What [subprocess.run(cmd_list, shell=False, check=True,
    capture_output=True, text=True, ...)] comes to (lines 156-172). *)
Inductive completed : Type :=
  | Completed (stdout : string)
  | FileNotFound                            (* FileNotFoundError *)
  | CalledProcessError (stderr : string)    (* exit status not 0 *)
  | OtherException (text : string).         (* any other one, str(e) *)

Class Shell : Type := {
  system : Type;
  subprocess_run : list string -> system -> completed * system;
}.

(** The attributes of the controller (lines 14-20), with what it has
    printed, the commands it has run and the system it runs them on. *)
Record controller `{Shell} : Type := Controller {
  adb_path : string;
  device_addrs : list string;
  devices : gmap string (gmap string string);
  current_device : option string;
  device_id : option string;
  printed : list string;
  commands : list (list string);
  sys : system;
}.

Section Controller.
Context `{Shell}.

Definition set_devices (x : gmap string (gmap string string)) (c : controller) : controller :=
  {| adb_path := adb_path c; device_addrs := device_addrs c; devices := x;
     current_device := current_device c; device_id := device_id c;
     printed := printed c; commands := commands c; sys := sys c |}.

Definition select (x : string) (c : controller) : controller :=
  {| adb_path := adb_path c; device_addrs := device_addrs c; devices := devices c;
     current_device := Some x; device_id := Some x;
     printed := printed c; commands := commands c; sys := sys c |}.

Definition print (line : string) (c : controller) : controller :=
  {| adb_path := adb_path c; device_addrs := device_addrs c; devices := devices c;
     current_device := current_device c; device_id := device_id c;
     printed := printed c ++ [line]; commands := commands c; sys := sys c |}.

Definition ran (cmd_list : list string) (w : system) (c : controller) : controller :=
  {| adb_path := adb_path c; device_addrs := device_addrs c; devices := devices c;
     current_device := current_device c; device_id := device_id c;
     printed := printed c; commands := commands c ++ [cmd_list]; sys := w |}.

(** [__init__], lines 14-20. *)
Definition init (adb_path : string) (device_addrs : option (list string)) (w : system)
    : controller :=
  {| adb_path := adb_path; device_addrs := default [] device_addrs; devices := ∅;
     current_device := None; device_id := None;
     printed := []; commands := []; sys := w |}.

(** The truth of a device name: neither [None] nor empty. *)
Definition chosen (device : option string) : bool :=
  match device with
  | Some d => negb (str_is_empty d)
  | None => false
  end.

(** Lines 146-149: [-s] and the target device, if there is one. *)
Definition device_arguments (device_id : option string) (c : controller) : list string :=
  let target_device := if chosen device_id then device_id else current_device c in
  match target_device with
  | Some d => if str_is_empty d then [] else ["-s"; d]
  | None => []
  end.

(** [_run_command], lines 140-172. *)
Definition _run_command (command : string + list string) (device_id : option string)
    (c : controller) : (bool * string) * controller :=
  let cmd_list :=
    [adb_path c] ++ device_arguments device_id c
    ++ match command with
       | inl line => str_split_ws line
       | inr arguments => arguments
       end in
  let '(result, w) := subprocess_run cmd_list (sys c) in
  let c := ran cmd_list w c in
  match result with
  | Completed stdout => ((true, str_strip stdout), c)
  | FileNotFound =>
      let error_msg :=
        ("命令未找到，请确认ADB路径配置是否正确: '" ++ adb_path c ++ "'")%string in
      ((false, error_msg), print ("ADB命令执行失败: " ++ error_msg)%string c)
  | CalledProcessError stderr =>
      let error_msg := str_strip stderr in
      ((false, error_msg), print ("ADB命令执行失败: " ++ error_msg)%string c)
  | OtherException error_msg =>
      ((false, error_msg), print ("执行ADB时发生未知错误: " ++ error_msg)%string c)
  end.

(** [_check_device], lines 71-78; [None] is the [KeyError] of
    [self.devices[device_id]]. *)
Definition _check_device (device_id : string) (c : controller) : option bool * controller :=
  let '((success, result), c) := _run_command (inl "devices"%string) None c in
  let online := success && ImageProcessor.str_in device_id result in
  match devices c !! device_id with
  | None => (None, c)
  | Some entry =>
      let status := if online then "online"%string else "offline"%string in
      (Some online, set_devices (<[device_id := <["status"%string := status]> entry]> (devices c)) c)
  end.

(** [connect_device], lines 26-32, and [connect], lines 22-24. *)
Definition connect_device (device_id : string) (c : controller) : option bool * controller :=
  let c := select device_id c in
  let c :=
    if bool_decide (is_Some (devices c !! device_id)) then c
    else set_devices (<[device_id := {["status"%string := "offline"%string]}]> (devices c)) c in
  _check_device device_id c.

Definition connect (device_id : string) (c : controller) : option bool * controller :=
  connect_device device_id c.

(** [get_device_status], lines 80-82. *)
Definition get_device_status (device_id : string) (c : controller) : string :=
  default "unknown"%string (default ∅ (devices c !! device_id) !! "status"%string).

(** [screenshot], lines 84-105. *)
Definition screenshot (save_path : string) (c : controller)
    : (bool * option string) * controller :=
  if negb (chosen (current_device c)) then ((false, Some "没有选择任何设备"%string), c)
  else
    let screencap_cmd := "shell screencap -p /sdcard/screen.png"%string in
    let '((success, output), c) := _run_command (inl screencap_cmd) None c in
    if negb success
    then ((false, Some ("截图命令(screencap)失败: " ++ output)%string), c)
    else
      let pull_cmd_list := ["pull"; "/sdcard/screen.png"; save_path]%string in
      let '((success, output), c) := _run_command (inr pull_cmd_list) None c in
      if negb success
      then ((false, Some ("拉取截图(pull)失败: " ++ output)%string), c)
      else ((true, None), c).

(** [tap], lines 107-110; [swipe], lines 112-115; [long_press], lines
    117-120.  The coordinates are [int]s, as the signatures say. *)
Definition tap (x y : Z) (c : controller) : (bool * string) * controller :=
  let cmd := ("shell input tap " ++ str_of_int x ++ " " ++ str_of_int y)%string in
  _run_command (inl cmd) None c.

Definition swipe (x1 y1 x2 y2 duration : Z) (c : controller) : (bool * string) * controller :=
  let cmd := ("shell input swipe " ++ str_of_int x1 ++ " " ++ str_of_int y1 ++ " "
              ++ str_of_int x2 ++ " " ++ str_of_int y2 ++ " " ++ str_of_int duration)%string in
  _run_command (inl cmd) None c.

Definition long_press (x y duration : Z) (c : controller) : (bool * string) * controller :=
  let cmd := ("shell input swipe " ++ str_of_int x ++ " " ++ str_of_int y ++ " "
              ++ str_of_int x ++ " " ++ str_of_int y ++ " " ++ str_of_int duration)%string in
  _run_command (inl cmd) None c.

(** [restart_app], lines 122-138. *)
Definition restart_app (package_name : string) (c : controller)
    : (bool * option string) * controller :=
  let stop_cmd := ("shell am force-stop " ++ package_name)%string in
  let '((success, output), c) := _run_command (inl stop_cmd) None c in
  let c :=
    if negb success
    then print ("警告: 强制停止应用 '" ++ package_name
                ++ "' 可能失败 (这在应用未运行时是正常的): " ++ output)%string c
    else c in
  let start_cmd :=
    ("shell monkey -p " ++ package_name ++ " -c android.intent.category.LAUNCHER 1")%string in
  let '((success, output), c) := _run_command (inl start_cmd) None c in
  if negb success
  then ((false, Some ("启动应用 '" ++ package_name ++ "' 失败: " ++ output)%string), c)
  else ((true, None), c).

End Controller.

(** Whether a command line succeeds on a system. *)
Definition succeeds `{Shell} (cmd_list : list string) (w : system) : bool :=
  match fst (subprocess_run cmd_list w) with
  | Completed _ => true
  | _ => false
  end.

(** A system for examples: it answers the commands with the results on a
    list, in order, and with [FileNotFound] once the list is used up. *)
Definition scripted : Shell :=
  {| system := list completed;
     subprocess_run := fun _ answers =>
       match answers with
       | answer :: rest => (answer, rest)
       | [] => (FileNotFound, [])
       end |}.

End ADBController.

(** A character that is no whitespace and starts no whitespace: an ASCII
    one outside of [str.isspace()]. *)
Definition plain (c : ascii) : bool :=
  negb (ascii_space c) && (nat_of_ascii c <? 128)%nat.

(** A word as [str.split()] gives them. *)
Definition is_word (s : string) : bool := negb (str_is_empty s) && all_chars plain s.

(* ===================================================================== *)
(** * Properties *)

(** ** What a method leaves alone

    The methods followed here evaluate no text. *)

Section Frames.
Context `{Platform}.

Lemma keeps_ret {A B} (f : engine -> B) (a : A) : keeps f (ret a).
Proof. intros e. reflexivity. Qed.

Lemma keeps_raise {A B} (f : engine -> B) (x : exn) : keeps f (@raise _ A x).
Proof. intros e. reflexivity. Qed.

Lemma keeps_no_result {A B} (f : engine -> B) : keeps f (@no_result _ A).
Proof. intros e. reflexivity. Qed.

Lemma keeps_gets {A B} (f : engine -> B) (g : engine -> A) : keeps f (gets g).
Proof. intros e. reflexivity. Qed.

Lemma keeps_modify {B} (f : engine -> B) (g : engine -> engine) :
  (forall e, f (g e) = f e) -> keeps f (modify g).
Proof. intros Hg e. apply Hg. Qed.

Lemma keeps_bind {A B C} (f : engine -> C) (m : M A) (k : A -> M B) :
  keeps f m -> (forall a, keeps f (k a)) -> keeps f (bind m k).
Proof.
  intros Hm Hk e. unfold bind. specialize (Hm e).
  destruct (m e) as [[a|x|] e1]; simpl in *; [|done..].
  by rewrite Hk.
Qed.

Lemma keeps_try_except {A B} (f : engine -> B) (m : M A) (handler : exn -> M A) :
  keeps f m -> (forall x, keeps f (handler x)) -> keeps f (try_except m handler).
Proof.
  intros Hm Hh e. unfold try_except. specialize (Hm e).
  destruct (m e) as [[a|x|] e1]; simpl in *; [done| |done].
  destruct (is_exception (exn_cls x)); [|done].
  by rewrite Hh.
Qed.

Lemma keeps_try_finally {A B} (f : engine -> B) (m : M A) (final : M unit) :
  keeps f m -> keeps f final -> keeps f (try_finally m final).
Proof.
  intros Hm Hf e. unfold try_finally. specialize (Hm e).
  destruct (m e) as [[a|x|] e1]; simpl in *; [| |done].
  all: specialize (Hf e1); destruct (final e1) as [[[]|y|] e2]; simpl in *; congruence.
Qed.

Lemma keeps_ask {A B} (f : engine -> B) (g : world -> A * world) :
  (forall w e, f (set_env w e) = f e) -> keeps f (ask g).
Proof. intros Hf e. unfold ask. destruct (g (env e)). apply Hf. Qed.

Lemma keeps_py_equal {B} (f : engine -> B) (a b : value) : keeps f (py_equal a b).
Proof. intros e. unfold py_equal. by destruct (py_eq (objects e) a b). Qed.

End Frames.

Create HintDb frame discriminated.

#[export] Hint Resolve keeps_ret keeps_raise keeps_no_result keeps_gets keeps_py_equal : frame.

(** One step of a frame proof: follow the shape of the method. *)
Ltac frame_step :=
  match goal with
  | |- keeps _ (bind _ _) => apply keeps_bind; [|intros ?]
  | |- keeps _ (try_except _ _) => apply keeps_try_except; [|intros ?]
  | |- keeps _ (try_finally _ _) => apply keeps_try_finally
  | |- keeps _ (modify _) => apply keeps_modify; intros ?; reflexivity
  | |- keeps _ (ask _) => apply keeps_ask; intros ? ?; reflexivity
  | |- keeps _ (if ?b then _ else _) => destruct b
  | |- keeps _ (match ?x with _ => _ end) => destruct x
  | |- keeps _ _ => solve [auto with frame]
  end.

Ltac head_of t :=
  lazymatch t with
  | ?f _ => head_of f
  | _ => t
  end.

Ltac frame_unfold :=
  match goal with
  | |- keeps _ ?m => let h := head_of m in unfold h
  end.

Ltac frame := repeat first [frame_step | frame_unfold].

Section ControlFrames.
Context `{Platform}.

Lemma keeps_control_log t m : keeps control (_log t m).
Proof. frame. Qed.

Lemma keeps_control_sleep d : keeps control (sleep d).
Proof. frame. Qed.

Lemma keeps_control_adb_call c f : keeps control (adb_call c f).
Proof. frame. Qed.

Lemma keeps_control_set_variable name v : keeps control (_set_variable name v).
Proof. frame. Qed.

Hint Resolve keeps_control_log keeps_control_sleep keeps_control_adb_call
  keeps_control_set_variable : frame.

Lemma keeps_control_try_targets t judge_only source_img current paths :
  keeps control (try_targets t judge_only source_img current paths).
Proof. induction paths; simpl; frame. Qed.

Hint Resolve keeps_control_try_targets : frame.

Lemma keeps_control_dispatch t task_type : keeps control (dispatch t task_type).
Proof. frame. Qed.

Lemma keeps_control_task_success t : keeps control (_handle_task_success t).
Proof. frame. Qed.

Hint Resolve keeps_control_dispatch keeps_control_task_success : frame.

End ControlFrames.

#[export] Hint Resolve keeps_control_log keeps_control_sleep keeps_control_adb_call
  keeps_control_set_variable keeps_control_try_targets keeps_control_dispatch
  keeps_control_task_success : frame.

(** ** What a method raises *)

Section Raising.
Context `{Platform}.

Lemma only_exceptions_ret {A} (a : A) : only_exceptions (ret a).
Proof. by intros e x. Qed.

Lemma only_exceptions_no_result {A} : only_exceptions (@no_result _ A).
Proof. by intros e x. Qed.

Lemma only_exceptions_gets {A} (g : engine -> A) : only_exceptions (gets g).
Proof. by intros e x. Qed.

Lemma only_exceptions_modify (g : engine -> engine) : only_exceptions (modify g).
Proof. by intros e x. Qed.

Lemma only_exceptions_ask {A} (g : world -> A * world) : only_exceptions (ask g).
Proof. intros e x. unfold ask. by destruct (g (env e)). Qed.

Lemma only_exceptions_raise {A} (x : exn) :
  is_exception (exn_cls x) = true -> only_exceptions (@raise _ A x).
Proof. intros Hx e y [= <-]. exact Hx. Qed.

Lemma only_exceptions_bind {A B} (m : M A) (k : A -> M B) :
  only_exceptions m -> (forall a, only_exceptions (k a)) -> only_exceptions (bind m k).
Proof.
  intros Hm Hk e x. unfold bind. specialize (Hm e).
  destruct (m e) as [[a|y|] e1]; cbn [fst] in *; [apply Hk| |done].
  intros [= <-]. by apply Hm.
Qed.

Lemma only_exceptions_try_except {A} (m : M A) (handler : exn -> M A) :
  only_exceptions m -> (forall x, only_exceptions (handler x)) ->
  only_exceptions (try_except m handler).
Proof.
  intros Hm Hh e x. unfold try_except. specialize (Hm e).
  destruct (m e) as [[a|y|] e1]; cbn [fst] in *; [done| |done].
  destruct (is_exception (exn_cls y)) eqn:Hy; [apply Hh|].
  cbn. intros [= <-]. by apply Hm.
Qed.

Lemma only_exceptions_try_finally {A} (m : M A) (final : M unit) :
  only_exceptions m -> only_exceptions final -> only_exceptions (try_finally m final).
Proof.
  intros Hm Hf e x. unfold try_finally. specialize (Hm e).
  destruct (m e) as [[a|y|] e1]; cbn [fst] in *; [| |done].
  all: specialize (Hf e1); destruct (final e1) as [[[]|z|] e2]; cbn [fst] in *;
    try done; intros [= <-]; auto.
Qed.

Lemma only_exceptions_py_equal (a b : value) : only_exceptions (py_equal a b).
Proof. intros e x. unfold py_equal. by destruct (py_eq (objects e) a b). Qed.

End Raising.

Create HintDb raising discriminated.

#[export] Hint Resolve only_exceptions_ret only_exceptions_no_result only_exceptions_gets
  only_exceptions_modify only_exceptions_ask only_exceptions_py_equal : raising.

(** One step of such a proof: follow the shape of the method. *)
Ltac raising_step :=
  match goal with
  | |- only_exceptions (bind _ _) => apply only_exceptions_bind; [|intros ?]
  | |- only_exceptions (try_except _ _) => apply only_exceptions_try_except; [|intros ?]
  | |- only_exceptions (try_finally _ _) => apply only_exceptions_try_finally
  | |- only_exceptions (raise _) => apply only_exceptions_raise; reflexivity
  | |- only_exceptions (if ?b then _ else _) => destruct b
  | |- only_exceptions (match ?x with _ => _ end) => destruct x
  | |- only_exceptions _ => solve [auto with raising]
  end.

Ltac raising_unfold :=
  match goal with
  | |- only_exceptions ?m => let h := head_of m in unfold h
  end.

Ltac raising := repeat first [raising_step | raising_unfold].

Section HandlersRaise.
Context `{Platform}.

Lemma only_exceptions_log t m : only_exceptions (_log t m).
Proof. raising. Qed.

Lemma only_exceptions_sleep d : only_exceptions (sleep d).
Proof. raising. Qed.

Lemma only_exceptions_adb_call c f : only_exceptions (adb_call c f).
Proof. raising. Qed.

Lemma only_exceptions_set_variable name v : only_exceptions (_set_variable name v).
Proof. raising. Qed.

Hint Resolve only_exceptions_log only_exceptions_sleep only_exceptions_adb_call
  only_exceptions_set_variable : raising.

Lemma only_exceptions_try_targets t judge_only source_img current paths :
  only_exceptions (try_targets t judge_only source_img current paths).
Proof. induction paths; simpl; raising. Qed.

Hint Resolve only_exceptions_try_targets : raising.

(** No handler raises anything but an [Exception]: none of them
    evaluates a text. *)
Lemma only_exceptions_dispatch t task_type : only_exceptions (dispatch t task_type).
Proof. raising. Qed.

Lemma only_exceptions_task_success t : only_exceptions (_handle_task_success t).
Proof. raising. Qed.

Lemma only_exceptions_check_deadline timeout start_time :
  only_exceptions (check_deadline timeout start_time).
Proof. raising. Qed.

End HandlersRaise.

#[export] Hint Resolve only_exceptions_log only_exceptions_sleep only_exceptions_adb_call
  only_exceptions_set_variable only_exceptions_try_targets only_exceptions_dispatch
  only_exceptions_task_success only_exceptions_check_deadline : raising.

(** ** The jump map *)

Lemma loop_not_end_loop (t : task) : is_end_loop t = true -> is_loop t = false.
Proof.
  unfold is_end_loop, is_loop, is_str.
  destruct (task_get t "type"); try discriminate.
  intros E%String.eqb_eq. subst. reflexivity.
Qed.

(** A well-nested stretch leaves the stack as it found it. *)
Lemma scan_loops_well_nested (ts : list task) :
  well_nested ts ->
  forall rest i stack jm,
    exists jm', scan_loops (ts ++ rest) i stack jm
                = scan_loops rest (i + length ts) stack jm'.
Proof.
  induction 1 as [|t ts Hl He _ IH|o body c rest' Ho Hc _ IHb _ IHr];
    intros rest i stack jm.
  - exists jm. simpl. by rewrite Nat.add_0_r.
  - simpl. rewrite Hl, He.
    destruct (IH rest (S i) stack jm) as [jm' ->].
    exists jm'. f_equal. lia.
  - simpl. rewrite Ho. rewrite <- app_assoc.
    destruct (IHb ((c :: rest') ++ rest) (S i) (i :: stack) jm) as [jm1 ->].
    simpl. rewrite (loop_not_end_loop c Hc), Hc.
    match goal with
    | |- context [scan_loops (rest' ++ rest) ?j ?s ?m] =>
        destruct (IHr rest j s m) as [jm2 ->]
    end.
    exists jm2. f_equal. rewrite length_app. simpl. lia.
Qed.

Lemma scan_inv_start : scan_inv [] [] ∅.
Proof.
  split; intros *; rewrite ?lookup_empty; try done.
  all: try (intros H; by apply elem_of_nil in H).
  all: try (by intros [? ?]).
Qed.

Lemma lookup_snoc_old {A} (pre : list A) (t : A) (k : nat) (x : A) :
  pre !! k = Some x -> (pre ++ [t]) !! k = Some x.
Proof. intros H. by apply lookup_app_l_Some. Qed.

Lemma scan_inv_plain pre stack jm t :
  is_control t = false ->
  scan_inv pre stack jm -> scan_inv (pre ++ [t]) stack jm.
Proof.
  intros Ht [Hb Hk Hd Hs Hc Hdom]. split.
  - exact Hb.
  - intros a b Hab Hlt. destruct (Hk a b Hab Hlt) as (ta & tb & ? & ? & ? & ?).
    exists ta, tb. repeat split; eauto using lookup_snoc_old.
  - exact Hd.
  - intros a Ha. destruct (Hs a Ha) as (? & ta & ? & ?).
    split; [done|]. exists ta. repeat split; eauto using lookup_snoc_old.
  - intros k t' Hk' Hctl.
    destruct (decide (k < length pre)%nat) as [Hlt|Hge].
    + rewrite lookup_app_l in Hk' by done. eauto.
    + rewrite lookup_app_r in Hk' by lia.
      destruct (k - length pre)%nat; simpl in Hk'; [|done].
      injection Hk' as <-. congruence.
  - intros a Ha. rewrite length_app. simpl. specialize (Hdom a Ha). lia.
Qed.

Lemma scan_inv_push pre stack jm t :
  is_loop t = true ->
  scan_inv pre stack jm -> scan_inv (pre ++ [t]) (length pre :: stack) jm.
Proof.
  intros Ht [Hb Hk Hd Hs Hc Hdom]. split.
  - exact Hb.
  - intros a b Hab Hlt. destruct (Hk a b Hab Hlt) as (ta & tb & ? & ? & ? & ?).
    exists ta, tb. repeat split; eauto using lookup_snoc_old.
  - exact Hd.
  - intros a [->|Ha]%elem_of_cons.
    + split.
      * destruct (jm !! length pre) eqn:E; [|done].
        assert (length pre < length pre)%nat by (apply Hdom; eauto). lia.
      * exists t. split; [|done]. rewrite lookup_app_r by lia.
        by rewrite Nat.sub_diag.
    + destruct (Hs a Ha) as (? & ta & ? & ?).
      split; [done|]. exists ta. repeat split; eauto using lookup_snoc_old.
  - intros k t' Hk' Hctl.
    destruct (decide (k < length pre)%nat) as [Hlt|Hge].
    + rewrite lookup_app_l in Hk' by done.
      destruct (Hc k t' Hk' Hctl); [by left|right]. by apply elem_of_cons; right.
    + right. apply elem_of_cons. left.
      apply lookup_lt_Some in Hk'. rewrite length_app in Hk'. simpl in Hk'. lia.
  - intros a Ha. rewrite length_app. simpl. specialize (Hdom a Ha). lia.
Qed.

Lemma lookup_pair (jm : gmap nat nat) (i l a : nat) :
  i <> l ->
  (<[i := l]> (<[l := i]> jm)) !! a =
    if decide (a = i) then Some l else if decide (a = l) then Some i else jm !! a.
Proof.
  intros Hne. repeat case_decide; subst.
  - apply lookup_insert_eq.
  - rewrite lookup_insert_ne by done. apply lookup_insert_eq.
  - by rewrite !lookup_insert_ne.
Qed.

Lemma scan_inv_pop pre stack jm t l :
  is_end_loop t = true ->
  NoDup (l :: stack) ->
  scan_inv pre (l :: stack) jm ->
  scan_inv (pre ++ [t]) stack (<[length pre := l]> (<[l := length pre]> jm)).
Proof.
  intros Ht Hnd [Hb Hk Hd Hs Hc Hdom].
  destruct (Hs l) as (Hl & tl & Hpl & Hll); [by apply elem_of_cons; left|].
  assert (l < length pre)%nat as Hlt by (by eapply lookup_lt_Some).
  assert (length pre <> l) as Hne by lia.
  assert (jm !! length pre = None) as Hi.
  { destruct (jm !! length pre) eqn:E; [|done].
    assert (length pre < length pre)%nat by (apply Hdom; eauto). lia. }
  assert (forall a b, jm !! a = Some b -> b <> l /\ b <> length pre) as Hfresh.
  { intros a b Hab. apply Hb in Hab. split; intros ->; congruence. }
  assert ((pre ++ [t]) !! length pre = Some t) as Hlast.
  { rewrite lookup_app_r by lia. by rewrite Nat.sub_diag. }
  split.
  - intros a b. rewrite !lookup_pair by done.
    destruct (decide (a = length pre)) as [->|Ha].
    { intros [= <-]. repeat case_decide; try done; lia. }
    destruct (decide (a = l)) as [->|Ha'].
    { intros [= <-]. repeat case_decide; try done; lia. }
    intros Hab. destruct (Hfresh _ _ Hab). repeat case_decide; try done. auto.
  - intros a b. rewrite !lookup_pair by done.
    destruct (decide (a = length pre)) as [->|Ha].
    { intros [= <-]. lia. }
    destruct (decide (a = l)) as [->|Ha'].
    { intros [= <-] _. exists tl, t. repeat split; eauto using lookup_snoc_old. }
    intros Hab Hlt'. destruct (Hk a b Hab Hlt') as (ta & tb & ? & ? & ? & ?).
    exists ta, tb. repeat split; eauto using lookup_snoc_old.
  - intros a. rewrite !lookup_pair by done.
    repeat case_decide; subst; try congruence; try apply Hd.
  - intros a Ha.
    destruct (Hs a) as (Hna & ta & Hta & ?); [by apply elem_of_cons; right|].
    assert (a <> l). { intros ->. by apply NoDup_cons in Hnd as [? _]. }
    assert (a <> length pre). { intros ->. apply lookup_lt_Some in Hta. lia. }
    split.
    + rewrite lookup_pair by done. by repeat case_decide.
    + exists ta. repeat split; eauto using lookup_snoc_old.
  - intros k t' Hk' Hctl. rewrite lookup_pair by done.
    destruct (decide (k = length pre)) as [->|Hk1]; [left; eauto|].
    destruct (decide (k = l)) as [->|Hk2]; [left; eauto|].
    assert (k < length pre)%nat as Hlt'.
    { apply lookup_lt_Some in Hk'. rewrite length_app in Hk'. simpl in Hk'. lia. }
    rewrite lookup_app_l in Hk' by done.
    destruct (Hc k t' Hk' Hctl) as [?|Hin]; [by left|].
    apply elem_of_cons in Hin as [->|Hin]; [done|by right].
  - intros a. rewrite length_app. simpl. rewrite lookup_pair by done.
    repeat case_decide; subst; try lia. intros Ha. specialize (Hdom a Ha). lia.
Qed.

(** The scan keeps the invariant, and ends with an empty stack. *)
Lemma scan_loops_inv (tasks : list task) :
  forall pre stack jm result,
    NoDup stack ->
    scan_inv pre stack jm ->
    scan_loops tasks (length pre) stack jm = inr result ->
    scan_inv (pre ++ tasks) [] result.
Proof.
  induction tasks as [|t tasks IH]; intros pre stack jm result Hnd Hinv; simpl.
  - destruct stack; [|done]. intros [= <-]. by rewrite app_nil_r.
  - replace (pre ++ t :: tasks) with ((pre ++ [t]) ++ tasks)
      by (by rewrite <- app_assoc).
    replace (S (length pre)) with (length (pre ++ [t]))
      by (rewrite length_app; simpl; lia).
    destruct (is_loop t) eqn:Hl.
    { apply IH; [|by apply scan_inv_push].
      apply NoDup_cons. split; [|done].
      intros Hin. destruct (inv_stack _ _ _ Hinv _ Hin) as (_ & ? & Hx & _).
      apply lookup_lt_Some in Hx. lia. }
    destruct (is_end_loop t) eqn:He.
    { destruct stack as [|l stack]; [done|].
      apply IH; [by apply NoDup_cons in Hnd as [_ ?]|by apply scan_inv_pop]. }
    apply IH; [done|]. apply scan_inv_plain; [|done].
    unfold is_control. by rewrite Hl, He.
Qed.

(** ** The variable store *)

(** Every value but NaN equals itself. *)
Lemma py_eq_at_refl (depth : nat) (h : heap) (v : value) :
  v <> VNaN -> py_eq_at depth h v v = Some true.
Proof.
  intros Hv.
  destruct depth, v; simpl; try reflexivity; try (by destruct Hv);
    rewrite ?Z.eqb_refl, ?String.eqb_refl, ?Nat.eqb_refl; try reflexivity.
  all: f_equal; apply Qeq_bool_iff; reflexivity.
Qed.

Lemma py_eq_refl (h : heap) (v : value) : v <> VNaN -> py_eq h v v = Some true.
Proof. apply py_eq_at_refl. Qed.

(** NaN equals nothing. *)
Lemma py_eq_nan (h : heap) (v : value) : py_eq h v VNaN = Some false.
Proof. by destruct v as [| | | | | |l]. Qed.

Section VariableStore.
Context `{Platform}.

Lemma set_variable_same name v e :
  py_eq (objects e) (current e name) v = Some true ->
  _set_variable name v e = (Ret tt, e).
Proof.
  intros Heq. unfold _set_variable, bind, gets, py_equal. cbn.
  fold (current e name). rewrite Heq. reflexivity.
Qed.

Lemma set_variable_changed name v e :
  py_eq (objects e) (current e name) v = Some false ->
  _set_variable name v e =
    (Ret tt,
     let e' := set_variables (<[name := v]> (variables e)) e in
     if bool_decide (name ∈ watched_variables e)
     then set_stdout (stdout e ++ [watch_line name v]) e' else e').
Proof.
  intros Heq. unfold _set_variable, bind, gets, py_equal, modify. simpl.
  fold (current e name). rewrite Heq. cbn.
  destruct (bool_decide (name ∈ watched_variables e)); reflexivity.
Qed.

Lemma set_variable_no_answer name v e :
  py_eq (objects e) (current e name) v = None ->
  _set_variable name v e = (NoResult, e).
Proof.
  intros Heq. unfold _set_variable, bind, gets, py_equal. cbn.
  fold (current e name). rewrite Heq. reflexivity.
Qed.

(** Change detection where it works.  [_set_variable] with a value equal
    to the current one returns and leaves the whole state as it was; a
    write that changes the value updates the mapping and prints exactly one
    line when the variable is watched, none otherwise; and for every value
    but NaN a second [_set_variable] with the same value does nothing, so
    the two calls print at most one line. *)
Lemma set_variable_change_detection (name : string) (v : value) (e : engine) :
  (py_eq (objects e) (current e name) v = Some true ->
     _set_variable name v e = (Ret tt, e))
  /\ (py_eq (objects e) (current e name) v = Some false ->
      exists e',
        _set_variable name v e = (Ret tt, e')
        /\ variables e' = <[name := v]> (variables e)
        /\ stdout e' = if bool_decide (name ∈ watched_variables e)
                       then stdout e ++ [watch_line name v] else stdout e)
  /\ (v <> VNaN ->
      forall e1,
        _set_variable name v e = (Ret tt, e1) ->
        _set_variable name v e1 = (Ret tt, e1)
        /\ (_set_variable name v ;; _set_variable name v) e = (Ret tt, e1)
        /\ (length (stdout e1) <= S (length (stdout e)))%nat).
Proof.
  split; [apply set_variable_same|]. split.
  - intros Heq. eexists. split; [exact (set_variable_changed _ _ _ Heq)|].
    cbn. by destruct (bool_decide (name ∈ watched_variables e)).
  - intros Hv e1 Hfirst.
    assert (_set_variable name v e1 = (Ret tt, e1)
            /\ (length (stdout e1) <= S (length (stdout e)))%nat) as [Hsecond Hlen].
    { destruct (py_eq (objects e) (current e name) v) as [[]|] eqn:Heq.
      - rewrite (set_variable_same _ _ _ Heq) in Hfirst.
        injection Hfirst as <-. split; [exact (set_variable_same _ _ _ Heq)|lia].
      - rewrite (set_variable_changed _ _ _ Heq) in Hfirst.
        injection Hfirst as <-. split.
        + apply set_variable_same.
          match goal with
          | |- py_eq ?h (current ?e' name) v = _ =>
              assert (current e' name = v) as ->
                by (unfold current;
                    destruct (bool_decide (name ∈ watched_variables e)); cbn;
                    rewrite lookup_insert_eq; reflexivity)
          end.
          by apply py_eq_refl.
        + destruct (bool_decide (name ∈ watched_variables e)); cbn;
            rewrite ?length_app; cbn; lia.
      - rewrite (set_variable_no_answer _ _ _ Heq) in Hfirst. discriminate. }
    split; [exact Hsecond|]. split; [|exact Hlen].
    unfold bind at 1. rewrite Hfirst. exact Hsecond.
Qed.

(** With NaN every write is a change: the value stored never equals the
    value given. *)
Lemma set_variable_nan name e :
  _set_variable name VNaN e =
    (Ret tt,
     let e' := set_variables (<[name := VNaN]> (variables e)) e in
     if bool_decide (name ∈ watched_variables e)
     then set_stdout (stdout e ++ [watch_line name VNaN]) e' else e').
Proof. apply set_variable_changed, py_eq_nan. Qed.

End VariableStore.

(** On the counting scenario, with [i] watched. *)
Lemma set_variable_change_detection_example :
  let e := set_watched_variables {["i"]} Scripted.counting_start in
  _set_variable "i" (VInt 0) e = (Ret tt, e)
  /\ (exists e', _set_variable "i" (VInt 7) e = (Ret tt, e')
                 /\ variables e' = <["i" := VInt 7]> (variables e)
                 /\ stdout e' = [watch_line "i" (VInt 7)]
                 /\ _set_variable "i" (VInt 7) e' = (Ret tt, e')).
Proof.
  intros e.
  destruct (set_variable_change_detection "i" (VInt 0) e) as (Hsame & _ & _).
  destruct (set_variable_change_detection "i" (VInt 7) e) as (_ & Hchanged & Htwice).
  split.
  - apply Hsame. reflexivity.
  - destruct Hchanged as (e' & He' & Hv & Hout); [reflexivity|].
    exists e'. repeat split; [exact He'|exact Hv|exact Hout|].
    by destruct (Htwice ltac:(discriminate) e' He') as [Hsecond _].
Qed.

(** Claim C8, against the code.  [_set_variable] twice with the same
    value, the float NaN, on a watched variable: the second call finds
    the value unchanged and yet stores it and prints the watch line again,
    for the test [old_value == value] is false of NaN and NaN.  The method
    is documented to log when the value changes, and only then.  The value
    reaches the store from a [set_variable] task whose value is the text
    [nan]: run twice, the task prints two watch lines. *)
Theorem set_variable_nan_logs_twice :
  let e := set_watched_variables {["x"]} (Scripted.fresh_engine true ∅) in
  let r := (_set_variable "x" VNaN ;; _set_variable "x" VNaN) e in
  let t := Scripted.task_of [("type", VStr "set_variable"); ("name", VStr "x");
                             ("value", VStr "nan"); ("print_log", VBool true)] in
  let r' := (_handle_set_variable t ;; _handle_set_variable t) (Scripted.fresh_engine true ∅) in
  fst r = Ret tt
  /\ stdout (snd r) = [watch_line "x" VNaN; watch_line "x" VNaN]
  /\ ~ (length (stdout (snd r)) <= S (length (stdout e)))%nat
  /\ fst r' = Ret tt
  /\ watch_lines (stdout (snd r')) = [watch_line "x" VNaN; watch_line "x" VNaN].
Proof.
  cbv zeta.
  assert (stdout (snd ((_set_variable "x" VNaN ;; _set_variable "x" VNaN)
                         (set_watched_variables {["x"]} (Scripted.fresh_engine true ∅))))
          = [watch_line "x" VNaN; watch_line "x" VNaN]) as ->.
  { unfold bind. rewrite set_variable_nan. cbv zeta.
    rewrite bool_decide_eq_true_2 by (cbn; set_solver).
    rewrite set_variable_nan. cbv zeta.
    rewrite bool_decide_eq_true_2 by (cbn; set_solver). reflexivity. }
  split; [vm_compute; reflexivity|]. split; [reflexivity|].
  split; [cbn; lia|]. split; vm_compute; reflexivity.
Qed.

(** ** Conditions *)

Section Evaluator.
Context `{Platform}.

(** One turn of the loop over the clauses. *)
Lemma eval_conditions_skip cond rest sc e :
  str_is_empty cond = true ->
  eval_conditions (cond :: rest) sc e = eval_conditions rest sc e.
Proof. intros Hc. simpl. by rewrite Hc. Qed.

Lemma eval_conditions_step cond rest sc e :
  str_is_empty cond = false ->
  eval_conditions (cond :: rest) sc e =
    match py_eval cond (objects e) sc with
    | None => (NoResult, e)
    | Some (h, sc', inl x) =>
        if is_exception (exn_cls x) then
          (Ret false,
           set_stdout
             (stdout e ++ [[Text "评估表达式 '"; Text cond; Text "' 时出错: "] ++ exn_msg x])
             (set_objects h e))
        else (Exc x, set_objects h e)
    | Some (h, sc', inr v) =>
        if truthy h v then eval_conditions rest sc' (set_objects h e)
        else (Ret false, set_objects h e)
    end.
Proof.
  intros Hc. simpl. rewrite Hc.
  unfold bind at 1. unfold eval_in.
  destruct (py_eval cond (objects e) sc) as [[[h sc'] [x|v]]|]; [| |reflexivity].
  - unfold bind, try_except, raise. cbn. by destruct (is_exception (exn_cls x)).
  - unfold bind, try_except, is_truthy, gets. cbn.
    destruct (truthy h v); reflexivity.
Qed.




End Evaluator.



(** The store after the action [x = [1, 2]]. *)
Lemma list_store_holds_a_list :
  stored Scripted.list_store "x" = Some (VRef 0, Some [VInt 1; VInt 2]).
Proof. vm_compute. reflexivity. Qed.

(** Claim C9, against the code.  The evaluator builds what it calls a
    safe local environment, a copy of the store (lines 427-428), and the
    copy is a shallow one: the condition [x.append(3)] is evaluated on it,
    and the list bound to [x] in the store, which the copy shares, has
    gained an item when the evaluation returns. *)
Lemma evaluation_alters_stored_list :
  let e := Scripted.list_store in
  let e' := snd (_evaluate_expression (VStr "x.append(3)") e) in
  stored e "x" = Some (VRef 0, Some [VInt 1; VInt 2])
  /\ stored e' "x" = Some (VRef 0, Some [VInt 1; VInt 2; VInt 3])
  /\ stored e' "x" <> stored e "x".
Proof.
  cbv zeta.
  assert (stored (snd (_evaluate_expression (VStr "x.append(3)") Scripted.list_store)) "x"
          = Some (VRef 0, Some [VInt 1; VInt 2; VInt 3])) as Hafter
    by (vm_compute; reflexivity).
  rewrite Hafter, list_store_holds_a_list.
  split; [reflexivity|]. split; [reflexivity|]. discriminate.
Qed.

(** ** Blank conditions *)

Lemma all_chars_app (p : ascii -> bool) (a b : string) :
  all_chars p (a ++ b)%string = all_chars p a && all_chars p b.
Proof. induction a as [|c a IH]; simpl; [done|]. by rewrite IH, andb_assoc. Qed.

Lemma replace_absent (a : ascii) (old' new s : string) :
  all_chars (fun c => negb (is_char a c)) s = true ->
  str_replace (String a old') new s = s.
Proof.
  unfold str_replace. induction s as [|c s IH]; simpl; [done|].
  intros [Hc Hs]%andb_prop. apply negb_true_iff in Hc. rewrite Hc. simpl.
  by rewrite IH.
Qed.

Lemma sub_bare_eq_absent (s : string) :
  all_chars (fun c => negb (is_char c "=")) s = true ->
  forall prev, sub_bare_eq prev s = s.
Proof.
  induction s as [|c s IH]; simpl; [done|].
  intros [Hc Hs]%andb_prop prev. apply negb_true_iff in Hc. rewrite Hc. simpl.
  by rewrite IH.
Qed.

Lemma all_chars_weaken (p q : ascii -> bool) (s : string) :
  (forall c, p c = true -> q c = true) ->
  all_chars p s = true -> all_chars q s = true.
Proof.
  intros Hpq. induction s as [|c s IH]; simpl; [done|].
  intros [Hc Hs]%andb_prop. by rewrite (Hpq _ Hc), IH.
Qed.

Lemma rewrite_operators_quiet (s : string) :
  all_chars quiet s = true -> rewrite_operators s = s.
Proof.
  intros Hq. unfold rewrite_operators.
  rewrite (replace_absent "&"), (replace_absent "|"), (replace_absent "!").
  - apply sub_bare_eq_absent. revert Hq. apply all_chars_weaken.
    unfold quiet. intros c. rewrite !andb_true_iff. tauto.
  - revert Hq. apply all_chars_weaken.
    unfold quiet. intros c. rewrite !andb_true_iff. tauto.
  - revert Hq. apply all_chars_weaken.
    unfold quiet. intros c. rewrite !andb_true_iff. tauto.
  - revert Hq. apply all_chars_weaken.
    unfold quiet. intros c. rewrite !andb_true_iff. tauto.
Qed.

Ltac space_like_tac :=
  unfold space_like;
  split; [reflexivity|]; split; [reflexivity|];
  split; [eexists; reflexivity|]; split; intros rest; reflexivity.

Lemma whitespace_space_like : Forall space_like whitespace.
Proof.
  unfold whitespace. simpl map.
  repeat (apply Forall_cons; split; [solve [space_like_tac]|]).
  apply Forall_nil_2.
Qed.

Lemma whitespace_elem (w : string) : w ∈ whitespace -> space_like w.
Proof. intros Hw. by apply (proj1 (Forall_forall _ _) whitespace_space_like). Qed.

Lemma blank_quiet (s : string) : blank s -> all_chars quiet s = true.
Proof.
  induction 1 as [|s _ IH|w s Hw _ IH]; [done|by simpl; rewrite IH|].
  rewrite all_chars_app, IH. by destruct (whitespace_elem w Hw) as (-> & _).
Qed.

Lemma str_split_prefix (w s p : string) (ps : list string) :
  all_chars (fun c => negb (is_char c ";")) w = true ->
  str_split ";" s = p :: ps ->
  str_split ";" (w ++ s)%string = (w ++ p)%string :: ps.
Proof.
  intros Hw Hs. induction w as [|c w IH]; simpl; [done|].
  simpl in Hw. apply andb_prop in Hw as [Hc Hw]. apply negb_true_iff in Hc.
  rewrite Hc. by rewrite (IH Hw).
Qed.

Lemma blank_split (s : string) :
  blank s ->
  exists ws wss,
    str_split ";" s = spaces ws :: map spaces wss
    /\ Forall (fun w => w ∈ whitespace) ws
    /\ Forall (Forall (fun w => w ∈ whitespace)) wss.
Proof.
  induction 1 as [|s _ IH|w s Hw _ IH].
  - exists [], []. by repeat split.
  - destruct IH as (ws & wss & Hs & Hws & Hwss).
    exists [], (ws :: wss). simpl. rewrite Hs. repeat split; [done|].
    by apply Forall_cons.
  - destruct IH as (ws & wss & Hs & Hws & Hwss).
    exists (w :: ws), wss. split; [|split; [by apply Forall_cons|done]].
    simpl spaces. apply str_split_prefix; [|done].
    by destruct (whitespace_elem w Hw) as (_ & ? & _).
Qed.

Lemma strip_with_spaces (ws : list string) :
  Forall (fun w => w ∈ whitespace) ws ->
  forall fuel, (length ws <= fuel)%nat ->
    strip_with ws_width fuel (spaces ws) = EmptyString.
Proof.
  induction 1 as [|w ws Hw _ IH]; intros fuel Hfuel.
  - by destruct fuel.
  - destruct fuel as [|fuel]; [simpl in Hfuel; lia|].
    destruct (whitespace_elem w Hw) as (_ & _ & [k Hk] & Hwidth & Hdrop).
    change (spaces (w :: ws)) with (w ++ spaces ws)%string.
    change (strip_with ws_width (S fuel) (w ++ spaces ws)%string)
      with (match ws_width (w ++ spaces ws)%string with
            | O => (w ++ spaces ws)%string
            | S k => strip_with ws_width fuel (string_drop (S k) (w ++ spaces ws)%string)
            end).
    rewrite Hwidth, Hk, <- Hk, Hdrop.
    apply IH. simpl in Hfuel. lia.
Qed.

Lemma string_length_app (a b : string) :
  String.length (a ++ b)%string = (String.length a + String.length b)%nat.
Proof. induction a as [|c a IH]; simpl; [done|]. by rewrite IH. Qed.

Lemma spaces_length (ws : list string) :
  Forall (fun w => w ∈ whitespace) ws ->
  (length ws <= String.length (spaces ws))%nat.
Proof.
  induction 1 as [|w ws Hw _ IH]; simpl; [done|].
  destruct (whitespace_elem w Hw) as (_ & _ & [k Hk] & _).
  rewrite string_length_app. lia.
Qed.

Lemma str_strip_spaces (ws : list string) :
  Forall (fun w => w ∈ whitespace) ws -> str_strip (spaces ws) = EmptyString.
Proof.
  intros Hws. unfold str_strip, str_lstrip.
  by rewrite strip_with_spaces by auto using spaces_length.
Qed.

Section BlankConditions.
Context `{Platform}.

Lemma eval_conditions_skip_empty rest sc e :
  eval_conditions (EmptyString :: rest) sc e = eval_conditions rest sc e.
Proof. reflexivity. Qed.

Lemma eval_conditions_all_empty (conditions : list string) :
  Forall (fun c => c = EmptyString) conditions ->
  forall sc e, eval_conditions conditions sc e = (Ret true, e).
Proof.
  induction 1 as [|c cs -> _ IH]; intros sc e; [done|].
  rewrite eval_conditions_skip_empty. apply IH.
Qed.

End BlankConditions.

Section BlankPreCondition.
Context `{Platform}.

Lemma blank_clauses_empty (s : string) :
  blank s ->
  Forall (fun c => c = EmptyString)
    (map str_strip (str_split ";" (rewrite_operators s))).
Proof.
  intros Hs. rewrite rewrite_operators_quiet by by apply blank_quiet.
  destruct (blank_split s Hs) as (ws & wss & -> & Hws & Hwss).
  simpl map. apply Forall_cons. split; [by apply str_strip_spaces|].
  induction Hwss as [|ws' wss Hws' _ IH]; simpl; [done|].
  apply Forall_cons. split; [by apply str_strip_spaces|done].
Qed.

Lemma check_pre_condition_true (t : task) (s : string) (e : engine) :
  t !! "pre_condition" = Some (VStr s) ->
  _evaluate_expression (VStr s) e = (Ret true, e) ->
  check_pre_condition t e = (Ret true, e).
Proof.
  intros Ht Heval. unfold check_pre_condition, task_has, task_get.
  rewrite Ht. rewrite bool_decide_eq_true_2 by eauto.
  change (default VNone (Some (VStr s))) with (VStr s).
  unfold try_except, bind. by rewrite Heval.
Qed.

End BlankPreCondition.

(** ** Outcomes and final states *)

Section PostConditions.
Context `{Platform}.

Lemma post_ret {A} (a : A) e Q : Q (Ret a) e -> post (ret a) e Q.
Proof. done. Qed.

Lemma post_raise {A} (x : exn) e (Q : outcome A -> engine -> Prop) :
  Q (Exc x) e -> post (raise x) e Q.
Proof. done. Qed.

Lemma post_no_result {A} e (Q : outcome A -> engine -> Prop) :
  Q NoResult e -> post no_result e Q.
Proof. done. Qed.

Lemma post_gets {A} (g : engine -> A) e Q : Q (Ret (g e)) e -> post (gets g) e Q.
Proof. done. Qed.

Lemma post_modify (g : engine -> engine) e Q : Q (Ret tt) (g e) -> post (modify g) e Q.
Proof. done. Qed.

Lemma post_bind {A B} (m : M A) (k : A -> M B) e Q :
  post m e (fun r e1 =>
    match r with
    | Ret a => post (k a) e1 Q
    | Exc x => Q (Exc x) e1
    | NoResult => Q NoResult e1
    end) ->
  post (bind m k) e Q.
Proof. unfold post, bind. by destruct (m e) as [[a|x|] e1]. Qed.

Lemma post_try_except {A} (m : M A) (handler : exn -> M A) e Q :
  post m e (fun r e1 =>
    match r with
    | Exc x => if is_exception (exn_cls x) then post (handler x) e1 Q else Q (Exc x) e1
    | other => Q other e1
    end) ->
  post (try_except m handler) e Q.
Proof.
  unfold post, try_except. destruct (m e) as [[a|x|] e1]; [done| |done].
  cbn [fst snd]. by destruct (is_exception (exn_cls x)).
Qed.

Lemma post_try_finally {A} (m : M A) (final : M unit) e Q :
  post m e (fun r e1 =>
    match r with
    | NoResult => Q NoResult e1
    | _ =>
        post final e1 (fun r' e2 =>
          match r' with
          | Ret _ => Q r e2
          | Exc x => Q (Exc x) e2
          | NoResult => Q NoResult e2
          end)
    end) ->
  post (try_finally m final) e Q.
Proof.
  unfold post, try_finally.
  destruct (m e) as [[a|x|] e1]; simpl; [| |done];
    by destruct (final e1) as [[[]|y|] e2].
Qed.

Lemma post_ask {A} (g : world -> A * world) e Q :
  Q (Ret (fst (g (env e)))) (set_env (snd (g (env e))) e) -> post (ask g) e Q.
Proof. unfold post, ask. by destruct (g (env e)). Qed.

Lemma post_print (m : message) e Q :
  Q (Ret tt) (set_stdout (stdout e ++ [m]) e) -> post (print m) e Q.
Proof. done. Qed.

Lemma post_record (c : call) e Q :
  Q (Ret tt) (set_trace (trace e ++ [c]) e) -> post (record c) e Q.
Proof. done. Qed.

Lemma set_stdout_same e : set_stdout (stdout e) e = e.
Proof. by destruct e. Qed.

(** A log line changes standard output at most. *)
Lemma post_log (t : option task) (m : message) e Q :
  (forall out, Q (Ret tt) (set_stdout out e)) ->
  post (_log t m) e Q.
Proof.
  intros Hprint. unfold post, _log.
  destruct t as [t|]; [|apply Hprint].
  unfold bind, is_truthy, gets. cbn.
  destruct (truthy (objects e) (task_get_or t "print_log" (VBool false)));
    [apply Hprint|].
  cbn. rewrite <- (set_stdout_same e). apply Hprint.
Qed.

Lemma post_adb_call (c : call) (f : world -> (bool * value) * world) e Q :
  (let e1 := set_trace (trace e ++ [c]) e in
   Q (Ret (fst (f (env e)))) (set_env (snd (f (env e))) e1)) ->
  post (adb_call c f) e Q.
Proof. unfold post, adb_call, bind, record, modify, ask. cbn. by destruct (f (env e)). Qed.

Lemma post_keeps {A B} (f : engine -> B) (m : M A) e (Q : outcome A -> engine -> Prop) :
  keeps f m -> (forall r e1, f e1 = f e -> Q r e1) -> post m e Q.
Proof. intros Hk HQ. apply HQ, Hk. Qed.

Lemma post_weaken {A} (m : M A) e (Q Q' : outcome A -> engine -> Prop) :
  post m e Q -> (forall r e1, Q r e1 -> Q' r e1) -> post m e Q'.
Proof. unfold post. auto. Qed.

End PostConditions.

(** One step of a post-condition proof. *)
Ltac post_step :=
  lazymatch goal with
  | |- post (bind _ _) _ _ => apply post_bind
  | |- post (ret _) _ _ => apply post_ret
  | |- post (raise _) _ _ => apply post_raise
  | |- post no_result _ _ => apply post_no_result
  | |- post (gets _) _ _ => apply post_gets
  | |- post (is_truthy _) _ _ => apply post_gets
  | |- post (modify _) _ _ => apply post_modify
  | |- post (print _) _ _ => apply post_print
  | |- post (record _) _ _ => apply post_record
  | |- post (try_except _ _) _ _ => apply post_try_except
  | |- post (try_finally _ _) _ _ => apply post_try_finally
  | |- post (ask _) _ _ => apply post_ask
  | |- post (adb_call _ _) _ _ => apply post_adb_call; cbv zeta
  | |- post (_log _ _) _ _ => apply post_log; intros ?out
  end.

Section FindAndClickOne.
Context `{Platform}.

Lemma try_targets_cons t judge_only source_img current target_path rest :
  try_targets t judge_only source_img current (target_path :: rest) =
    (_log (Some t) [Text "正在尝试匹配图片: "; Show target_path] ;;
     let* template := ask (img_load_image target_path) in
     match template with
     | None =>
         _log (Some t) [Text "警告: 加载目标图片失败，已跳过: "; Show target_path] ;;
         try_targets t judge_only source_img current rest
     | Some template_img =>
         let* in_force := gets threshold in
         let* click_pos := ask (img_find_template in_force source_img template_img) in
         match click_pos with
         | None => try_targets t judge_only source_img current rest
         | Some p =>
             let '(final_x, final_y) := position p in
             _log (Some t) [Text "成功找到图片 '"; Show target_path; Text "' 在坐标: (";
                            Show final_x; Text ", "; Show final_y; Text ")。"] ;;
             let* only_judge := is_truthy judge_only in
             if only_judge then _log (Some t) [Text "模式为“仅判断”，跳过点击操作。"]
             else
               _log (Some t) [Text "执行点击操作..."] ;;
               let* r := adb_call (CTap final_x final_y) (adb_tap final_x final_y) in
               let '(success, message) := r in
               if success then ret tt
               else raise (failed [Text "点击目标 '"; Show target_path; Text "' 失败: ";
                                   Show message])
         end
     end).
Proof. reflexivity. Qed.

(** The loop over the targets: it always comes to an outcome, it leaves
    the threshold and the objects alone, and in judge-only mode it taps
    nothing and succeeds exactly when some target matches. *)
Lemma try_targets_spec t judge_only source_img current paths :
  forall e,
    post (try_targets t judge_only source_img current paths) e (fun r e' =>
      r <> NoResult
      /\ threshold e' = threshold e
      /\ objects e' = objects e
      /\ (truthy (objects e) judge_only = true ->
          taps e' = taps e
          /\ env e' = snd (first_match (threshold e) source_img paths (env e))
          /\ r = match fst (first_match (threshold e) source_img paths (env e)) with
                 | Some _ => Ret tt
                 | None => Exc (not_found current)
                 end)).
Proof.
  induction paths as [|target_path rest IH]; intros e.
  - apply post_raise. by repeat split.
  - rewrite try_targets_cons. simpl first_match.
    apply post_bind, post_log. intros out1.
    apply post_bind, post_ask. cbn [env set_stdout set_env].
    destruct (img_load_image target_path (env e)) as [[template_img|] w1];
      cbn [fst snd].
    + apply post_bind, post_gets. apply post_bind, post_ask.
      cbn [env set_stdout set_env threshold].
      destruct (img_find_template (threshold e) source_img template_img w1)
        as [[p|] w2]; cbn [fst snd].
      * unfold position. cbn [fst snd].
        apply post_bind, post_log. intros out2.
        apply post_bind, post_gets. cbn [objects set_stdout set_env].
        destruct (truthy (objects e) judge_only) eqn:Hjo.
        -- apply post_log. intros out3. cbn. by repeat split.
        -- apply post_bind, post_log. intros out3.
           apply post_bind, post_adb_call. cbv zeta. cbn [env set_stdout set_env set_trace].
           destruct (adb_tap (VInt p.1) (VInt p.2) w2) as [[[] message] w3];
             [apply post_ret|apply post_raise]; cbn; by repeat split.
      * eapply post_weaken; [apply IH|].
        cbn. intros r e1 (? & ? & ? & Hj).
        split; [done|]. split; [done|]. split; [done|].
        intros Hjo. by destruct (Hj Hjo) as (? & ? & ?).
    + apply post_bind, post_log. intros out2.
      eapply post_weaken; [apply IH|].
      cbn. intros r e1 (? & ? & ? & Hj).
        split; [done|]. split; [done|]. split; [done|].
        intros Hjo. by destruct (Hj Hjo) as (? & ? & ?).
Qed.

Lemma taps_after_screenshot (tr : list call) (path : value) :
  filter (fun c => is_tap c = true) (tr ++ [CScreenshot path])
  = filter (fun c => is_tap c = true) tr.
Proof. rewrite filter_app. simpl. apply app_nil_r. Qed.

(** Claim C7.  [_handle_find_and_click_one] always comes to an outcome,
    and on every way out (the targets parameter refused, the screenshot
    failed or unreadable, a match clicked, a match judged only, no target
    found, the tap failed) the threshold of the image processor is what it
    was before the call, although the search ran under the task's own
    threshold.  With [judge_only] set no tap is made, and when the
    screenshot is taken and loaded the handler succeeds if some target
    matches under the task's threshold and reports that none was found
    otherwise. *)
Theorem find_and_click_one_restores_threshold (t : task) (e : engine) :
  let r := fst (_handle_find_and_click_one t e) in
  let e' := snd (_handle_find_and_click_one t e) in
  let judge_only := task_get_or t "judge_only" (VBool false) in
  let in_force := task_get_or t "threshold" (threshold e) in
  r <> NoResult
  /\ threshold e' = threshold e
  /\ (truthy (objects e) judge_only = true ->
      taps e' = taps e
      /\ forall l first others message w1 source_img w2,
           task_get t "targets" = VRef l ->
           objects e !! l = Some (first :: others) ->
           adb_screenshot (find_one_screenshot e) (env e) = ((true, message), w1) ->
           img_load_image (find_one_screenshot e) w1 = (Some source_img, w2) ->
           r = match fst (first_match in_force source_img (first :: others) w2) with
               | Some _ => Ret tt
               | None => Exc (not_found in_force)
               end).
Proof.
  cbv zeta.
  change (post (_handle_find_and_click_one t) e (fun r e' =>
    r <> NoResult
    /\ threshold e' = threshold e
    /\ (truthy (objects e) (task_get_or t "judge_only" (VBool false)) = true ->
        taps e' = taps e
        /\ forall l first others message w1 source_img w2,
             task_get t "targets" = VRef l ->
             objects e !! l = Some (first :: others) ->
             adb_screenshot (find_one_screenshot e) (env e) = ((true, message), w1) ->
             img_load_image (find_one_screenshot e) w1 = (Some source_img, w2) ->
             r = match fst (first_match (task_get_or t "threshold" (threshold e))
                              source_img (first :: others) w2) with
                 | Some _ => Ret tt
                 | None => Exc (not_found (task_get_or t "threshold" (threshold e)))
                 end))).
  unfold _handle_find_and_click_one, find_one_screenshot.
  apply post_bind, post_gets.
  assert (forall Q : outcome unit -> engine -> Prop,
            Q (Exc (failed [Text "find_and_click_one 任务需要一个 'targets' 列表参数。"])) e ->
            post (raise (failed [Text "find_and_click_one 任务需要一个 'targets' 列表参数。"])) e Q)
    as Hrefused by (intros Q HQ; exact HQ).
  destruct (task_get t "targets") as [| | | | | |l] eqn:Htargets;
    try (apply Hrefused; split; [done|]; split; [done|]; intros _; split; [done|];
         intros; discriminate).
  destruct (objects e !! l) as [[|first others]|] eqn:Hl;
    try (apply Hrefused; split; [done|]; split; [done|]; intros _; split; [done|];
         intros; congruence).
  apply post_bind, post_log. intros out1.
  apply post_bind, post_gets.
  apply post_bind, post_adb_call. cbv zeta. cbn [env set_stdout set_env set_trace cfg].
  destruct (adb_screenshot
              (VStr (os_path_join (base_dir (cfg e)) "temp_screen_find_one.png")) (env e))
    as [[[] message] w1] eqn:Hshot; cbn [fst snd negb].
  2: { apply post_raise. cbn. unfold taps. cbn. rewrite taps_after_screenshot.
       split; [done|]. split; [done|]. intros _. split; [done|]. intros. congruence. }
  apply post_bind, post_ask. cbn [env set_stdout set_env set_trace].
  destruct (img_load_image
              (VStr (os_path_join (base_dir (cfg e)) "temp_screen_find_one.png")) w1)
    as [[source_img|] w2] eqn:Hload; cbn [fst snd].
  2: { apply post_raise. cbn. unfold taps. cbn. rewrite taps_after_screenshot.
       split; [done|]. split; [done|]. intros _. split; [done|]. intros. congruence. }
  apply post_bind, post_gets. cbn [threshold set_stdout set_env set_trace].
  apply post_bind, post_modify.
  apply post_try_finally.
  eapply post_weaken; [apply try_targets_spec|].
  cbn [threshold objects env set_threshold set_stdout set_env set_trace].
  intros r e1 (Hr & Hth & Hobj & Hj).
  assert (post (modify (set_threshold (threshold e))) e1 (fun r' e2 =>
            threshold e2 = threshold e
            /\ (truthy (objects e) (task_get_or t "judge_only" (VBool false)) = true ->
                taps e2 = taps e
                /\ r = match fst (first_match (task_get_or t "threshold" (threshold e))
                                    source_img (first :: others) w2) with
                       | Some _ => Ret tt
                       | None => Exc (not_found (task_get_or t "threshold" (threshold e)))
                       end)
            /\ r' = Ret tt)) as Hfinal.
  { apply post_modify. split; [done|]. split; [|done].
    intros Hjo. destruct (Hj Hjo) as (Htaps & _ & Hres). split; [|exact Hres].
    unfold taps in *. cbn in *. rewrite Htaps. apply taps_after_screenshot. }
  destruct r as [[]|x|]; [| |done].
  all: eapply post_weaken; [exact Hfinal|].
  all: intros r' e2 (Hth2 & Hj2 & ->).
  all: split; [done|]; split; [done|]; intros Hjo; destruct (Hj2 Hjo) as [Htaps Hres].
  all: split; [done|].
  all: intros l' first' others' message' w1' source' w2' [= <-] Hl' Hshot' Hload'.
  all: rewrite Hl in Hl'; injection Hl' as <- <-.
  all: injection Hshot' as <- <-.
  all: rewrite Hload in Hload'; injection Hload' as <- <-.
  all: exact Hres.
Qed.

End FindAndClickOne.

Lemma find_and_click_one_restores_threshold_witness :
  let t := Scripted.find_one [("judge_only", VBool true); ("threshold", VFloat (7 # 10))] in
  let e := Scripted.running_engine true Scripted.three_targets in
  let e' := snd (_handle_find_and_click_one t e) in
  threshold e' = VFloat (8 # 10)
  /\ taps e' = []
  /\ fst (_handle_find_and_click_one t e) = Ret tt.
Proof.
  intros t e e'.
  destruct (find_and_click_one_restores_threshold t e) as (_ & Hthreshold & Hjudge).
  destruct Hjudge as [Htaps Hresult]; [reflexivity|].
  split; [exact Hthreshold|]. split; [exact Htaps|].
  rewrite (Hresult 0%nat (VStr "missing.png") [VStr "b.png"; VStr "c.png"]
             (VStr EmptyString) 0%nat "/app/temp_screen_find_one.png" 0%nat);
    reflexivity.
Defined.

(** ** Retries and deadlines *)

Section RetryLoop.
Context `{Platform}.

Lemma control_fields (e1 e2 : engine) :
  control e1 = control e2 ->
  cfg e1 = cfg e2 /\ is_running e1 = is_running e2 /\ task_queue e1 = task_queue e2.
Proof. unfold control. intros [= -> -> ->]. done. Qed.

Lemma attempts_unfold fuel t task_type wait_for_success retries timeout start_time attempt :
  attempts (S fuel) t task_type wait_for_success retries timeout start_time attempt =
    (let* running := gets is_running in
     if negb running then _log (Some t) [Text "任务被用户手动停止。"]
     else
       let* finished :=
         try_except
           (attempt_once t task_type timeout start_time ;; ret true)
           (fun x => on_attempt_failure t wait_for_success retries (attempt + 1) x ;;
                     ret false) in
       if finished then ret tt
       else
         let* delay := gets (fun e => retry_delay (cfg e)) in
         sleep delay ;;
         attempts fuel t task_type wait_for_success retries timeout start_time
           (attempt + 1)).
Proof. reflexivity. Qed.

Lemma post_case {A} (m : M A) e (Q : outcome A -> engine -> Prop) :
  (forall r e1, m e = (r, e1) -> Q r e1) -> post m e Q.
Proof. intros HQ. unfold post. apply HQ. by destruct (m e). Qed.

Lemma post_log_run (t : option task) (m : message) e :
  exists out, _log t m e = (Ret tt, set_stdout out e).
Proof.
  unfold _log. destruct t as [t|]; [|by eexists].
  unfold bind, is_truthy, gets. cbn.
  destruct (truthy (objects e) (task_get_or t "print_log" (VBool false)));
    [by eexists|].
  exists (stdout e). cbn. by rewrite set_stdout_same.
Qed.

Lemma post_sleep (d : Q) e (Q : outcome unit -> engine -> Prop) :
  Qle_bool 0 d = true ->
  Q (Ret tt) (set_env (time_sleep d (env e)) (set_trace (trace e ++ [CSleep d]) e)) ->
  post (sleep d) e Q.
Proof. intros Hd HQ. unfold post, sleep. rewrite Hd. exact HQ. Qed.

(** A blocking task never raises from its retry loop: whatever an attempt
    raises, the deadline's [TimeoutError] included, is logged and followed
    by another attempt. *)
Lemma blocking_attempts_never_raise t task_type wait_for_success retries timeout start_time
    (settings0 : settings) :
  (forall h, truthy h wait_for_success = true) ->
  Qle_bool 0 (retry_delay settings0) = true ->
  only_exceptions (attempt_once t task_type timeout start_time) ->
  keeps control (attempt_once t task_type timeout start_time) ->
  forall fuel attempt e,
    cfg e = settings0 ->
    post (attempts fuel t task_type wait_for_success retries timeout start_time attempt) e
      (fun r _ => forall x, r <> Exc x).
Proof.
  intros Hblocking Hdelay Hcaught Hkept.
  induction fuel as [|fuel IH]; intros attempt e Hcfg.
  - apply post_no_result. done.
  - rewrite attempts_unfold. apply post_bind, post_gets.
    destruct (is_running e); cbn [negb]; [|apply post_log; done].
    apply post_bind, post_try_except, post_bind.
    apply post_case. intros r e1 Heq.
    pose proof (Hkept e) as Hc.
    pose proof (Hcaught e) as Hx.
    rewrite Heq in Hc, Hx. cbn [fst snd] in Hc, Hx.
    apply control_fields in Hc as (Hcfg1 & _).
    destruct r as [[]|x|]; [| |done].
    + apply post_ret. apply post_ret. done.
    + rewrite (Hx x eq_refl). apply post_bind. unfold on_attempt_failure.
      apply post_bind, post_gets. rewrite Hblocking. cbn [negb].
      apply post_bind, post_gets. apply post_log. intros out.
      apply post_ret.
      apply post_bind, post_gets. apply post_bind.
      apply post_sleep; [cbn; by rewrite Hcfg1, Hcfg|].
      apply IH. cbn. by rewrite Hcfg1.
Qed.

(** What a blocking task does about a failed attempt: it logs it. *)
Lemma keeps_control_blocking_failure t wait_for_success retries attempt x :
  (forall h, truthy h wait_for_success = true) ->
  keeps control (on_attempt_failure t wait_for_success retries attempt x).
Proof.
  intros Hblocking e. unfold on_attempt_failure.
  unfold bind at 1. unfold is_truthy at 1. unfold gets at 1. cbv beta iota.
  rewrite Hblocking. cbn [negb].
  assert (keeps control
            (let* delay := gets (fun e => retry_delay (cfg e)) in
             _log (Some t) ([Text "阻塞任务执行失败，将在 "; Show (VFloat delay);
                             Text " 秒后重试... 错误: "] ++ exn_msg x))) as Hk by frame.
  apply Hk.
Qed.

(** When no attempt of a blocking task succeeds, the loop does not return
    while the engine runs. *)
Lemma failing_attempts_never_return t task_type wait_for_success retries timeout start_time :
  (forall h, truthy h wait_for_success = true) ->
  (forall e, fst (attempt_once t task_type timeout start_time e) <> Ret tt) ->
  keeps control (attempt_once t task_type timeout start_time) ->
  forall fuel attempt e,
    is_running e = true ->
    post (attempts fuel t task_type wait_for_success retries timeout start_time attempt) e
      (fun r _ => r <> Ret tt).
Proof.
  intros Hblocking Hfail Hkept. induction fuel as [|fuel IH]; intros attempt e Hrun.
  - apply post_no_result. done.
  - rewrite attempts_unfold. apply post_bind, post_gets. rewrite Hrun. cbn [negb].
    apply post_bind, post_try_except, post_bind.
    apply post_case. intros r e1 Heq.
    pose proof (Hfail e) as Hnot.
    pose proof (Hkept e) as Hc.
    rewrite Heq in Hnot, Hc. cbn [fst snd] in Hnot, Hc.
    apply control_fields in Hc as (_ & Hrun1 & _).
    destruct r as [[]|x|]; [done| |done].
    destruct (is_exception (exn_cls x)); [|done].
    apply post_bind.
    eapply post_keeps; [by apply keeps_control_blocking_failure|].
    intros r e2 (_ & Hrun2 & _)%control_fields. destruct r as [[]|y|]; [|done..].
    apply post_ret. apply post_bind, post_gets. apply post_bind.
    eapply post_keeps; [apply keeps_control_sleep|].
    intros r e3 (_ & Hrun3 & _)%control_fields. destruct r as [[]|y|]; [|done..].
    apply IH. congruence.
Qed.

End RetryLoop.

Section BlockingTasks.
Context `{Platform}.

Lemma attempt_once_fails t task_type :
  (forall e, fst (dispatch t task_type e) <> Ret tt) ->
  forall timeout start_time e,
    fst (attempt_once t task_type timeout start_time e) <> Ret tt.
Proof.
  intros Hd timeout start_time e. unfold attempt_once, bind.
  destruct (check_deadline timeout start_time e) as [[[]|x|] e1]; cbn; [|done..].
  specialize (Hd e1). by destruct (dispatch t task_type e1) as [[[]|x|] e2].
Qed.

(** Such an attempt raises from the deadline check or from the handler,
    and so raises an [Exception]. *)
Lemma attempt_once_fails_caught t task_type :
  (forall e, fst (dispatch t task_type e) <> Ret tt) ->
  forall timeout start_time,
    only_exceptions (attempt_once t task_type timeout start_time).
Proof.
  intros Hd timeout start_time e x. unfold attempt_once, bind.
  pose proof (only_exceptions_check_deadline timeout start_time e) as Hdeadline.
  destruct (check_deadline timeout start_time e) as [[[]|y|] e1]; cbn [fst] in *;
    [|by intros [= <-]; apply Hdeadline|done].
  specialize (Hd e1). pose proof (only_exceptions_dispatch t task_type e1) as Hhandler.
  destruct (dispatch t task_type e1) as [[[]|y|] e2]; cbn [fst] in *;
    [done|by intros [= <-]; apply Hhandler|done].
Qed.

(** It leaves before the post-action, and so leaves the queue, the
    settings and the running flag as the handler does. *)
Lemma attempt_once_fails_control t task_type :
  (forall e, fst (dispatch t task_type e) <> Ret tt) ->
  forall timeout start_time,
    keeps control (attempt_once t task_type timeout start_time).
Proof.
  intros Hd timeout start_time e. unfold attempt_once, bind.
  assert (keeps control (check_deadline timeout start_time)) as Hdeadline by frame.
  specialize (Hdeadline e).
  destruct (check_deadline timeout start_time e) as [[[]|y|] e1]; cbn [fst snd] in *;
    [|done..].
  specialize (Hd e1). pose proof (keeps_control_dispatch t task_type e1) as Hhandler.
  destruct (dispatch t task_type e1) as [[[]|y|] e2]; cbn [fst snd] in *;
    [done|congruence..].
Qed.

Lemma no_pre_condition t e :
  t !! "pre_condition" = None -> check_pre_condition t e = (Ret true, e).
Proof.
  intros Ht. unfold check_pre_condition, task_has. rewrite Ht.
  by rewrite bool_decide_eq_false_2 by (by intros [? ?]).
Qed.

(** A blocking task without pre-condition, on an engine that runs, comes
    to no outcome when its action never succeeds: it neither returns nor
    raises, and so never raises [TimeoutError]. *)
Lemma blocking_task_goes_on t :
  t !! "pre_condition" = None ->
  (forall h, truthy h (task_get_or t "wait_for_success" (VBool false)) = true) ->
  (forall e, fst (dispatch t (task_get t "type") e) <> Ret tt) ->
  forall fuel e,
    is_running e = true ->
    Qle_bool 0 (retry_delay (cfg e)) = true ->
    fst (_execute_task fuel t e) = NoResult.
Proof.
  intros Hpre Hblocking Hfail fuel e Hrun Hdelay.
  unfold _execute_task. unfold bind at 1. rewrite (no_pre_condition t e Hpre).
  assert (post (execute_attempts fuel t) e
            (fun r _ => (forall x, r <> Exc x) /\ r <> Ret tt)) as Hpost.
  { unfold execute_attempts.
    apply post_bind, post_gets. apply post_bind, post_gets. rewrite Hblocking.
    apply post_bind, post_gets. apply post_bind, post_ask.
    pose proof (blocking_attempts_never_raise t (task_get t "type")
                  (task_get_or t "wait_for_success" (VBool false))
                  (task_get_or t "retries" (max_retries (cfg e)))
                  (task_get t "timeout")
                  (fst (time_time (env e))) (cfg e) Hblocking Hdelay
                  (attempt_once_fails_caught t _ Hfail _ _)
                  (attempt_once_fails_control t _ Hfail _ _) fuel 0
                  (set_env (snd (time_time (env e))) e) eq_refl) as Hexc.
    pose proof (failing_attempts_never_return t (task_get t "type")
                  (task_get_or t "wait_for_success" (VBool false))
                  (task_get_or t "retries" (max_retries (cfg e)))
                  (task_get t "timeout")
                  (fst (time_time (env e))) Hblocking
                  (attempt_once_fails t _ Hfail _ _)
                  (attempt_once_fails_control t _ Hfail _ _) fuel 0
                  (set_env (snd (time_time (env e))) e) Hrun) as Hret.
    unfold post in *. split; [exact Hexc|exact Hret]. }
  unfold post in Hpost. destruct Hpost as [Hexc Hret].
  destruct (fst (execute_attempts fuel t e)) as [[]|x|]; [done| |done].
  by destruct (Hexc x).
Qed.

End BlockingTasks.

(** Claim C1, against the code.  A tap on a device that refuses every
    command, as a blocking task with [timeout = 2], on a clock that
    advances: the task never raises [TimeoutError].  Whatever the number of
    attempts granted, the executor is still retrying; the second attempt
    finds the deadline passed, raises [TimeoutError] inside the [try] whose
    own handler catches it, and logs it as one more failed attempt. *)
Theorem blocking_timeout_is_swallowed :
  let t := Scripted.stuck_tap [("wait_for_success", VBool true); ("timeout", VInt 2)] in
  let e := Scripted.running_engine false ∅ in
  (forall fuel, fst (_execute_task fuel t e) = NoResult)
  /\ last (stdout (snd (_execute_task 2 t e)))
     = Some [Text "阻塞任务执行失败，将在 "; Show (VFloat 1); Text " 秒后重试... 错误: ";
             Text "任务执行超时("; Show (VInt 2); Text "秒)"].
Proof.
  split; [|vm_compute; reflexivity].
  intros fuel. apply blocking_task_goes_on; try reflexivity.
  intros e0. destruct e0. vm_compute. discriminate.
Qed.

Section NoTimeoutError.
Context `{Platform}.

Lemma retries_exhausted_not_timeout t retries last_error e :
  post (retries_exhausted t retries last_error) e (fun r _ => not_timeout r /\ r <> Ret tt).
Proof.
  unfold retries_exhausted. apply post_bind.
  destruct (task_has t "on_fail_action").
  - apply post_try_except. apply post_case. intros r e1 _.
    destruct r as [[]|x|].
    + apply post_raise. split; [by intros ? [= <-]|done].
    + destruct (is_exception (exn_cls x)) eqn:Hx.
      * apply post_raise. split; [by intros ? [= <-]|done].
      * split; [|done]. intros ? [= <-] Hcls. by rewrite Hcls in Hx.
    + split; [by intros ? [=]|done].
  - apply post_ret. apply post_raise. split; [by intros ? [= <-]|done].
Qed.

Lemma on_attempt_failure_not_timeout t wait_for_success retries attempt last_error e :
  post (on_attempt_failure t wait_for_success retries attempt last_error) e
    (fun r _ => not_timeout r).
Proof.
  unfold on_attempt_failure. apply post_bind, post_gets.
  destruct (truthy (objects e) wait_for_success); cbn [negb].
  - apply post_bind, post_gets. apply post_log. by intros out ? [=].
  - apply post_bind. unfold num_ge.
    destruct (is_nan retries); [apply post_ret, post_log; by intros out ? [=]|].
    destruct (as_number retries).
    + apply post_ret. destruct (Qle_bool q (inject_Z attempt)).
      * eapply post_weaken; [apply retries_exhausted_not_timeout|]. by intros r e1 [? _].
      * apply post_log. by intros out ? [=].
    + apply post_raise. by intros ? [= <-].
Qed.

Lemma attempts_not_timeout t task_type wait_for_success retries timeout start_time :
  forall fuel attempt e,
    post (attempts fuel t task_type wait_for_success retries timeout start_time attempt) e
      (fun r _ => not_timeout r).
Proof.
  induction fuel as [|fuel IH]; intros attempt e.
  - apply post_no_result. by intros ? [=].
  - rewrite attempts_unfold. apply post_bind, post_gets.
    destruct (is_running e); cbn [negb]; [|apply post_log; by intros out ? [=]].
    apply post_bind, post_try_except, post_bind.
    apply post_case. intros r e1 _. destruct r as [[]|x|]; [| |by intros ? [=]].
    + apply post_ret. apply post_ret. by intros ? [=].
    + destruct (is_exception (exn_cls x)) eqn:Hx;
        [|intros ? [= <-] Hcls; by rewrite Hcls in Hx].
      apply post_bind.
      eapply post_weaken; [apply on_attempt_failure_not_timeout|].
      intros r e2 Hr. destruct r as [[]|y|]; [|by apply Hr|by intros ? [=]].
      apply post_ret. apply post_bind, post_gets. apply post_bind.
      unfold sleep. destruct (Qle_bool 0 (retry_delay (cfg e2))).
      * apply post_bind, post_record. apply post_modify. apply IH.
      * apply post_raise. by intros ? [= <-].
Qed.

(** No task, blocking or not, lets a [TimeoutError] out of [_execute_task]:
    the deadline's exception is raised where the handler of the attempt
    catches it. *)
Lemma execute_task_never_raises_timeout_error (fuel : nat) (t : task) (e : engine) :
  forall x, fst (_execute_task fuel t e) = Exc x -> exn_cls x <> TimeoutError.
Proof.
  change (post (_execute_task fuel t) e (fun r _ => not_timeout r)).
  unfold _execute_task. apply post_bind.
  unfold check_pre_condition. destruct (task_has t "pre_condition").
  - apply post_try_except. apply post_case. intros r e1 _. destruct r as [[]|x|].
    + unfold execute_attempts.
      apply post_bind, post_gets. apply post_bind, post_gets.
      apply post_bind, post_gets. apply post_bind, post_ask.
      apply attempts_not_timeout.
    + by intros ? [=].
    + destruct (is_exception (exn_cls x)) eqn:Hx.
      * apply post_raise. by intros ? [= <-].
      * intros ? [= <-] Hcls. by rewrite Hcls in Hx.
    + by intros ? [=].
  - apply post_ret. unfold execute_attempts.
    apply post_bind, post_gets. apply post_bind, post_gets.
    apply post_bind, post_gets. apply post_bind, post_ask.
    apply attempts_not_timeout.
Qed.

End NoTimeoutError.

Section NonBlockingTasks.
Context `{Platform}.

Lemma failing_attempt_control t task_type timeout start_time e x e2 :
  failing_attempt t task_type timeout start_time e = Some (x, e2) ->
  control e2 = control e
  /\ attempt_once t task_type timeout start_time e = (Exc x, e2)
  /\ is_exception (exn_cls x) = true.
Proof.
  unfold failing_attempt, attempt_once. intros Hf.
  pose proof (keeps_control_dispatch t task_type) as Hd.
  assert (keeps control (check_deadline timeout start_time)) as Hc by frame.
  specialize (Hc e). unfold bind at 1.
  destruct (check_deadline timeout start_time e) as [[[]|y|] e1]; [|done..].
  specialize (Hd e1). unfold bind at 1.
  pose proof (only_exceptions_dispatch t task_type e1) as Hcaught.
  destruct (dispatch t task_type e1) as [[[]|y|] e2']; [done| |done].
  injection Hf as <- <-. cbn [fst snd] in *.
  split; [congruence|]. split; [done|by apply Hcaught].
Qed.

(** An attempt that fails hands over to the [except] block. *)
Lemma attempts_after_failure fuel t task_type wait_for_success retries timeout start_time
    attempt e x e2 :
  is_running e = true ->
  failing_attempt t task_type timeout start_time e = Some (x, e2) ->
  attempts (S fuel) t task_type wait_for_success retries timeout start_time attempt e =
    (on_attempt_failure t wait_for_success retries (attempt + 1) x ;;
     let* delay := gets (fun e => retry_delay (cfg e)) in
     sleep delay ;;
     attempts fuel t task_type wait_for_success retries timeout start_time (attempt + 1)) e2.
Proof.
  intros Hrun Hf. apply failing_attempt_control in Hf as (_ & Hf & Hx).
  rewrite attempts_unfold. unfold bind at 1. unfold gets at 1. rewrite Hrun.
  cbn [negb]. unfold bind at 1. unfold try_except. unfold bind at 1. rewrite Hf, Hx.
  unfold bind.
  destruct (on_attempt_failure t wait_for_success retries (attempt + 1) x e2)
    as [[[]|y|] e3]; reflexivity.
Qed.

Lemma on_attempt_failure_retry t wait_for_success (retries attempt : Z) x e :
  truthy (objects e) wait_for_success = false ->
  (attempt < retries)%Z ->
  on_attempt_failure t wait_for_success (VInt retries) attempt x e =
    _log (Some t) ([Text "任务执行失败，剩余重试次数: "; Show (VInt (retries - attempt));
                    Text ", 错误: "] ++ exn_msg x) e.
Proof.
  intros Hnb Hlt. unfold on_attempt_failure, bind, is_truthy, gets, num_ge, ret.
  cbn [as_number is_nan]. rewrite Hnb. cbn [negb].
  replace (Qle_bool (inject_Z retries) (inject_Z attempt)) with false; [done|].
  symmetry. apply not_true_iff_false. rewrite Qle_bool_iff, <- Zle_Qle. lia.
Qed.

Lemma on_attempt_failure_exhausted t wait_for_success (retries attempt : Z) x e :
  truthy (objects e) wait_for_success = false ->
  (retries <= attempt)%Z ->
  on_attempt_failure t wait_for_success (VInt retries) attempt x e =
    retries_exhausted t (VInt retries) x e.
Proof.
  intros Hnb Hle. unfold on_attempt_failure, bind, is_truthy, gets, num_ge, ret.
  cbn [as_number is_nan]. rewrite Hnb. cbn [negb].
  replace (Qle_bool (inject_Z retries) (inject_Z attempt)) with true; [done|].
  symmetry. rewrite Qle_bool_iff, <- Zle_Qle. lia.
Qed.

Lemma retries_exhausted_then {A} t retries x (k : unit -> M A) e :
  fst (bind (retries_exhausted t retries x) k e) = match fst (retries_exhausted t retries x e) with
                                         | Ret _ => NoResult
                                         | Exc y => Exc y
                                         | NoResult => NoResult
                                         end
  /\ snd (bind (retries_exhausted t retries x) k e) = snd (retries_exhausted t retries x e).
Proof.
  pose proof (retries_exhausted_not_timeout t retries x e) as [_ Hnot]. unfold post in Hnot.
  unfold bind. by destruct (retries_exhausted t retries x e) as [[[]|y|] e1].
Qed.


Lemma retries_exhausted_bind t retries x (k : unit -> M unit) e :
  bind (retries_exhausted t retries x) k e = retries_exhausted t retries x e.
Proof.
  pose proof (retries_exhausted_not_timeout t retries x e) as [_ Hnot]. unfold post in Hnot.
  unfold bind. by destruct (retries_exhausted t retries x e) as [[[]|y|] e1].
Qed.

Lemma before_next_attempt_control t retries attempt x e :
  control (before_next_attempt t retries attempt x e) = control e.
Proof.
  unfold before_next_attempt.
  assert (keeps control
            (_log (Some t) ([Text "任务执行失败，剩余重试次数: ";
                             Show (num_minus retries attempt); Text ", 错误: "]
                            ++ exn_msg x) ;;
             sleep (retry_delay (cfg e)))) as Hk by frame.
  apply Hk.
Qed.

(** The log line and the pause between two attempts. *)
Lemma retry_pause t (retries attempt : Z) x (next : M unit) e :
  Qle_bool 0 (retry_delay (cfg e)) = true ->
  (_log (Some t) ([Text "任务执行失败，剩余重试次数: "; Show (VInt (retries - attempt));
                   Text ", 错误: "] ++ exn_msg x) ;;
   let* delay := gets (fun e => retry_delay (cfg e)) in
   sleep delay ;; next) e
  = next (before_next_attempt t (VInt retries) attempt x e).
Proof.
  intros Hdelay. unfold before_next_attempt. cbn [num_minus].
  destruct (post_log_run (Some t)
              ([Text "任务执行失败，剩余重试次数: "; Show (VInt (retries - attempt));
                Text ", 错误: "] ++ exn_msg x) e) as [out Hout].
  unfold bind at 1. unfold bind at 3. rewrite Hout.
  unfold bind, gets, sleep. cbn [cfg set_stdout]. rewrite Hdelay. reflexivity.
Qed.

(** A failed attempt with retries left leads to the next attempt. *)
Lemma attempts_retry fuel t task_type wait_for_success (retries : Z) timeout start_time
    attempt e x a :
  (forall h, truthy h wait_for_success = false) ->
  is_running e = true ->
  Qle_bool 0 (retry_delay (cfg e)) = true ->
  failing_attempt t task_type timeout start_time e = Some (x, a) ->
  (attempt + 1 < retries)%Z ->
  attempts (S fuel) t task_type wait_for_success (VInt retries) timeout start_time attempt e
  = attempts fuel t task_type wait_for_success (VInt retries) timeout start_time
      (attempt + 1) (before_next_attempt t (VInt retries) (attempt + 1) x a).
Proof.
  intros Hnb Hrun Hdelay Hf Hlt.
  destruct (failing_attempt_control _ _ _ _ _ _ _ Hf) as [(Hcfg & _ & _)%control_fields _].
  rewrite (attempts_after_failure _ _ _ _ _ _ _ _ _ _ _ Hrun Hf).
  unfold bind at 1. rewrite on_attempt_failure_retry by auto.
  apply (retry_pause t retries (attempt + 1) x
           (attempts fuel t task_type wait_for_success (VInt retries) timeout
              start_time (attempt + 1)) a).
  by rewrite Hcfg.
Qed.

(** A failed attempt that uses up the retries ends in [retries_exhausted]. *)
Lemma attempts_retries_exhausted fuel t task_type wait_for_success (retries : Z) timeout start_time
    attempt e x a :
  (forall h, truthy h wait_for_success = false) ->
  is_running e = true ->
  failing_attempt t task_type timeout start_time e = Some (x, a) ->
  (retries <= attempt + 1)%Z ->
  attempts (S fuel) t task_type wait_for_success (VInt retries) timeout start_time attempt e
  = retries_exhausted t (VInt retries) x a.
Proof.
  intros Hnb Hrun Hf Hle.
  rewrite (attempts_after_failure _ _ _ _ _ _ _ _ _ _ _ Hrun Hf).
  unfold bind at 1. rewrite on_attempt_failure_exhausted by auto.
  apply (retries_exhausted_bind t (VInt retries) x
           (fun _ => let* delay := gets (fun e => retry_delay (cfg e)) in
                     sleep delay ;;
                     attempts fuel t task_type wait_for_success (VInt retries) timeout
                       start_time (attempt + 1)) a).
Qed.

Lemma execute_attempts_non_blocking fuel t e start s0 :
  (forall h, truthy h (task_get_or t "wait_for_success" (VBool false)) = false) ->
  time_now e = (Ret start, s0) ->
  execute_attempts fuel t e
  = attempts fuel t (task_get t "type") (task_get_or t "wait_for_success" (VBool false))
      (task_get_or t "retries" (max_retries (cfg e)))
      (task_get_or t "timeout" (timeout (cfg e))) start 0 s0.
Proof.
  intros Hnb Htime. unfold execute_attempts, is_truthy, bind, gets. cbv beta.
  rewrite Hnb, Htime. reflexivity.
Qed.


End NonBlockingTasks.

Lemma computed_some {A B} (o : option (A * B)) (d : A * B) :
  (if o is Some _ then true else false) = true ->
  o = Some (fst (default d o), snd (default d o)).
Proof. destruct o as [[a b]|]; [reflexivity|discriminate]. Qed.


(** ** More fuel changes no outcome *)

Section Fuel.
Context `{Platform}.

Lemma extends_refl {A} (m : M A) : extends m m.
Proof. by intros e _. Qed.

Lemma extends_trans {A} (m1 m2 m3 : M A) :
  extends m1 m2 -> extends m2 m3 -> extends m1 m3.
Proof.
  intros H12 H23 e He. rewrite <- (H12 e He). apply H23. by rewrite (H12 e He).
Qed.

Lemma extends_bind {A B} (m1 m2 : M A) (k1 k2 : A -> M B) :
  extends m1 m2 -> (forall a, extends (k1 a) (k2 a)) ->
  extends (bind m1 k1) (bind m2 k2).
Proof.
  intros Hm Hk e. unfold bind. intros He.
  assert (fst (m1 e) <> NoResult) as Hm1 by (by destruct (m1 e) as [[a|x|] e1]).
  rewrite (Hm e Hm1). destruct (m1 e) as [[a|x|] e1]; [|done..].
  by apply Hk.
Qed.

Lemma extends_try_except {A} (m1 m2 : M A) (h1 h2 : exn -> M A) :
  extends m1 m2 -> (forall x, extends (h1 x) (h2 x)) ->
  extends (try_except m1 h1) (try_except m2 h2).
Proof.
  intros Hm Hh e. unfold try_except. intros He.
  assert (fst (m1 e) <> NoResult) as Hm1 by (by destruct (m1 e) as [[a|x|] e1]).
  rewrite (Hm e Hm1). destruct (m1 e) as [[a|x|] e1]; [done| |done].
  destruct (is_exception (exn_cls x)); [|done].
  by apply Hh.
Qed.

Lemma extends_no_result {A} (m : M A) : extends no_result m.
Proof. intros e He. by destruct He. Qed.

End Fuel.

Ltac extends_step :=
  match goal with
  | |- extends ?m ?m => apply extends_refl
  | |- extends no_result _ => apply extends_no_result
  | |- extends (bind _ _) (bind _ _) => apply extends_bind; [|intros ?]
  | |- extends (try_except _ _) (try_except _ _) => apply extends_try_except; [|intros ?]
  | |- extends (if ?b then _ else _) (if ?b then _ else _) => destruct b
  | |- extends (match ?x with _ => _ end) (match ?x with _ => _ end) => destruct x
  | |- extends _ _ => solve [auto]
  end.

Section FuelOfTheLoops.
Context `{Platform}.

Lemma attempts_one_more t task_type wait_for_success retries timeout start_time :
  forall fuel attempt,
    extends
      (attempts fuel t task_type wait_for_success retries timeout start_time attempt)
      (attempts (S fuel) t task_type wait_for_success retries timeout start_time attempt).
Proof.
  induction fuel as [|fuel IH]; intros attempt; [apply extends_no_result|].
  rewrite (attempts_unfold (S fuel)), (attempts_unfold fuel).
  repeat extends_step.
Qed.

Lemma execute_task_one_more fuel t :
  extends (_execute_task fuel t) (_execute_task (S fuel) t).
Proof.
  pose proof attempts_one_more.
  unfold _execute_task, execute_attempts. repeat extends_step.
Qed.

Lemma execute_and_report_one_more fuel progress_callback total_tasks i t :
  extends (execute_and_report fuel progress_callback total_tasks i t)
          (execute_and_report (S fuel) progress_callback total_tasks i t).
Proof.
  pose proof execute_task_one_more.
  unfold execute_and_report. repeat extends_step.
Qed.

Lemma run_loop_unfold fuel progress_callback jump_map total_tasks i :
  run_loop (S fuel) progress_callback jump_map total_tasks i =
    (if negb (i <? total_tasks)%nat then ret tt
     else
       let* running := gets is_running in
       if negb running then ret tt
       else
         let* wanted := ask is_running_callable in
         if negb wanted then ret tt
         else
           let* queue := gets task_queue in
           match queue !! i with
           | None => raise (error (OtherError "IndexError") [Text "list index out of range"])
           | Some t =>
               modify (set_current_task (Some t)) ;;
               if is_loop t then
                 let* skip :=
                   if task_has t "pre_condition" then
                     let* holds := _evaluate_expression (task_get t "pre_condition") in
                     ret (negb holds)
                   else ret false in
                 if skip then
                   let* j := jump_target jump_map i in
                   run_loop fuel progress_callback jump_map total_tasks j
                 else
                   execute_and_report fuel progress_callback total_tasks i t ;;
                   run_loop fuel progress_callback jump_map total_tasks (i + 1)
               else if is_end_loop t then
                 let* again :=
                   if negb (task_has t "pre_condition") then ret true
                   else
                     let* holds := _evaluate_expression (task_get t "pre_condition") in
                     ret (negb holds) in
                 if again then
                   let* j := jump_target jump_map i in
                   run_loop fuel progress_callback jump_map total_tasks j
                 else
                   _log (Some t) [Text "满足停止条件 '"; Show (task_get t "pre_condition");
                                  Text "'，正在退出循环。"] ;;
                   run_loop fuel progress_callback jump_map total_tasks (i + 1)
               else
                 execute_and_report fuel progress_callback total_tasks i t ;;
                 run_loop fuel progress_callback jump_map total_tasks (i + 1)
           end).
Proof. reflexivity. Qed.

Lemma run_loop_one_more progress_callback jump_map total_tasks :
  forall fuel i,
    extends (run_loop fuel progress_callback jump_map total_tasks i)
            (run_loop (S fuel) progress_callback jump_map total_tasks i).
Proof.
  pose proof execute_and_report_one_more.
  induction fuel as [|fuel IH]; intros i; [apply extends_no_result|].
  rewrite (run_loop_unfold (S fuel)), (run_loop_unfold fuel).
  repeat extends_step.
Qed.

Lemma run_one_more fuel progress_callback :
  extends (run fuel progress_callback) (run (S fuel) progress_callback).
Proof.
  pose proof run_loop_one_more. unfold run. repeat extends_step.
Qed.

(** Fuel that suffices once suffices ever after. *)
Lemma run_enough_fuel progress_callback e (enough fuel : nat) :
  fst (run enough progress_callback e) <> NoResult ->
  (enough <= fuel)%nat ->
  run fuel progress_callback e = run enough progress_callback e.
Proof.
  intros Hdone Hle. induction Hle as [|fuel Hle IH]; [done|].
  rewrite <- IH. apply run_one_more. by rewrite IH.
Qed.

End FuelOfTheLoops.

(** Claim C3.  The queue [LOOP(i<3), body with post_action i = i + 1,
    END_LOOP(i>=3)] started with [i = 0]: with fuel for nine turns of the
    loops or more, the run returns, [i] is 3, the body has succeeded three
    times and has been reported three times to the progress callback. *)
Theorem counting_loop_runs_three_times (fuel : nat) :
  (9 <= fuel)%nat ->
  let r := run fuel true Scripted.counting_start in
  fst r = Ret tt
  /\ variables (snd r) !! "i" = Some (VInt 3)
  /\ counts_get (VStr "body") (success_counts (snd r)) = Some 3%Z
  /\ count_calls (is_progress 2) (trace (snd r)) = 3%nat
  /\ count_calls (is_progress 1) (trace (snd r)) = 1%nat.
Proof.
  intros Hfuel.
  assert (fst (run 9 true Scripted.counting_start) = Ret tt) as Hnine
    by (vm_compute; reflexivity).
  cbv zeta. rewrite (run_enough_fuel true Scripted.counting_start 9 fuel);
    [|by rewrite Hnine|done].
  split; [exact Hnine|]. repeat split; vm_compute; reflexivity.
Qed.

Lemma counting_loop_runs_three_times_witness :
  fst (run 9 true Scripted.counting_start) = Ret tt
  /\ variables (snd (run 9 true Scripted.counting_start)) !! "i" = Some (VInt 3).
Proof.
  destruct (counting_loop_runs_three_times 9) as (Hret & Hi & _); [lia|].
  split; [exact Hret|exact Hi].
Defined.

(** ** Operator rewriting *)

Lemma str_contains_char_app (c : ascii) (a b : string) :
  str_contains_char c (a ++ b)%string = str_contains_char c a || str_contains_char c b.
Proof. induction a as [|d a IH]; simpl; [done|]. by rewrite IH, orb_assoc. Qed.

(** After [replace("!", " not ")] no [!] is left. *)
Lemma replace_bang_removes_it (s : string) :
  str_contains_char "!" (str_replace "!" " not " s) = false.
Proof.
  unfold str_replace. induction s as [|c s IH]; [done|].
  simpl. destruct (is_char "!" c) eqn:Hc; simpl; [exact IH|].
  rewrite Hc. exact IH.
Qed.

(** The pass over [=] adds [=] characters and nothing else. *)
Lemma sub_bare_eq_adds_no_bang (s : string) :
  str_contains_char "!" s = false ->
  forall prev, str_contains_char "!" (sub_bare_eq prev s) = false.
Proof.
  induction s as [|c s IH]; [done|].
  simpl. intros [Hc Hs]%orb_false_elim prev.
  destruct (is_char c "=" && negb (from_option guards_eq false prev)
            && negb (next_is_eq s)); simpl; rewrite ?Hc; simpl; by apply IH.
Qed.

(** The [=] pass on its own does what the comment in the source says: it
    leaves [!=], [>=], [<=] and [==] alone and doubles a bare [=]. *)
Lemma sub_bare_eq_examples :
  sub_bare_eq None "count != 5" = "count != 5"
  /\ sub_bare_eq None "a>=1;b<=2;c==3" = "a>=1;b<=2;c==3"
  /\ sub_bare_eq None "count = 5" = "count == 5".
Proof. repeat split. Qed.

(** [>=], [<=] and [==] come through the whole rewriting, and a bare [=]
    becomes [==]. *)
Lemma rewrite_operators_examples :
  rewrite_operators "a>=1;b<=2;c==3" = "a>=1;b<=2;c==3"
  /\ rewrite_operators "count = 5" = "count == 5"
  /\ rewrite_operators "count == 5" = "count == 5".
Proof. repeat split. Qed.

(** The conditions [count = 5] and [count == 5] are one condition to the
    evaluator, on every platform and in every state. *)
Lemma bare_equals_is_equality `{Platform} (e : engine) :
  _evaluate_expression (VStr "count = 5") e = _evaluate_expression (VStr "count == 5") e.
Proof. reflexivity. Qed.

(** Claim C2, against the code.  [!=] is not left untouched: the
    replacement of [!] by [ not ] runs before the pass that was written to
    spare [!=], so that pass meets a bare [=] and doubles it.  The condition
    [count != 5] goes to the evaluator as [count  not == 5]; on its own the
    [=] pass would have left it alone; and no [!], hence no [!=], is ever
    left in a rewritten condition. *)
Theorem not_equal_is_rewritten :
  rewrite_operators "count != 5" = "count  not == 5"
  /\ sub_bare_eq None "count != 5" = "count != 5"
  /\ (forall s, str_contains_char "!" (rewrite_operators s) = false).
Proof.
  split; [reflexivity|]. split; [reflexivity|].
  intros s. unfold rewrite_operators.
  apply sub_bare_eq_adds_no_bang, replace_bang_removes_it.
Qed.

(** ** A blank pre-condition *)

(** Claim C10.  A condition that is empty, or made of whitespace and
    semicolons only, evaluates to true and leaves the state as it was.  A
    task with such a pre-condition is not skipped: executing it is
    executing its attempts, and on an engine that runs, when the first
    attempt (the deadline check, the handler of the task's type, the
    post-action and the counting of the success) returns, the executor
    returns with the state that attempt left: the handler has run. *)
Theorem blank_condition_is_true `{Platform} (s : string) :
  blank s ->
  forall e,
    _evaluate_expression (VStr s) e = (Ret true, e)
    /\ (forall fuel t,
          t !! "pre_condition" = Some (VStr s) ->
          _execute_task fuel t e = execute_attempts fuel t e)
    /\ (forall fuel t start s0 s1,
          t !! "pre_condition" = Some (VStr s) ->
          is_running e = true ->
          time_now e = (Ret start, s0) ->
          let limit :=
            if truthy (objects e) (task_get_or t "wait_for_success" (VBool false))
            then task_get t "timeout"
            else task_get_or t "timeout" (timeout (cfg e)) in
          attempt_once t (task_get t "type") limit start s0 = (Ret tt, s1) ->
          _execute_task (S fuel) t e = (Ret tt, s1)).
Proof.
  intros Hs e.
  assert (_evaluate_expression (VStr s) e = (Ret true, e)) as Heval.
  { unfold _evaluate_expression, bind, gets. cbn.
    apply eval_conditions_all_empty. by apply blank_clauses_empty. }
  assert (forall fuel t, t !! "pre_condition" = Some (VStr s) ->
            _execute_task fuel t e = execute_attempts fuel t e) as Htask.
  { intros fuel t Ht. unfold _execute_task. unfold bind at 1.
    by rewrite (check_pre_condition_true t s e Ht Heval). }
  split; [exact Heval|]. split; [exact Htask|].
  intros fuel t start s0 s1 Ht Hrun Htime limit Hattempt.
  rewrite (Htask _ t Ht). unfold execute_attempts.
  unfold bind at 1. unfold gets at 1. cbv beta iota.
  unfold bind at 1. unfold is_truthy at 1. unfold gets at 1. cbv beta iota.
  unfold bind at 1. unfold gets at 1. cbv beta iota.
  unfold bind at 1. rewrite Htime. fold limit.
  assert (is_running s0 = true) as Hrun0.
  { assert (keeps control time_now) as Hk by frame.
    specialize (Hk e). rewrite Htime in Hk. cbn [snd] in Hk.
    apply control_fields in Hk as (_ & -> & _). exact Hrun. }
  rewrite attempts_unfold.
  unfold bind at 1. unfold gets at 1. rewrite Hrun0. cbn [negb].
  unfold bind at 1. unfold try_except. unfold bind at 1. rewrite Hattempt.
  reflexivity.
Qed.

Lemma blank_condition_is_true_witness :
  let t := Scripted.task_of [("type", VStr "wait"); ("duration", VInt 2);
                             ("pre_condition", VStr " ;　; ")] in
  let e := Scripted.running_engine true ∅ in
  _evaluate_expression (VStr " ;　; ") e = (Ret true, e)
  /\ fst (_execute_task 1 t e) = Ret tt
  /\ trace (snd (_execute_task 1 t e)) = [CSleep 2]
  /\ stdout (snd (_execute_task 1 t e)) = [].
Proof.
  assert (forall w, bool_decide (w ∈ whitespace) = true -> w ∈ whitespace) as Hin
    by (intros w; apply bool_decide_eq_true_1).
  assert (blank " ;　; ") as Hblank.
  { apply (blank_space " "); [by apply Hin|].
    apply blank_semicolon.
    apply (blank_space "　"); [by apply Hin|].
    apply blank_semicolon.
    apply (blank_space " "); [by apply Hin|].
    apply blank_empty. }
  intros t e.
  destruct (blank_condition_is_true _ Hblank e) as (Heval & _ & Hruns).
  split; [exact Heval|].
  set (s0 := snd (time_now e)).
  assert (time_now e = (Ret (inject_Z 0), s0)) as Htime by reflexivity.
  assert (fst (attempt_once t (VStr "wait") (VInt 30) (inject_Z 0) s0) = Ret tt)
    as Hreturns by (vm_compute; reflexivity).
  assert (trace (snd (attempt_once t (VStr "wait") (VInt 30) (inject_Z 0) s0)) = [CSleep 2]
          /\ stdout (snd (attempt_once t (VStr "wait") (VInt 30) (inject_Z 0) s0)) = [])
    as Hstate by (split; vm_compute; reflexivity).
  destruct (attempt_once t (VStr "wait") (VInt 30) (inject_Z 0) s0) as [r s1]
    eqn:Hattempt.
  cbn [fst snd] in Hreturns, Hstate. subst r.
  rewrite (Hruns 0%nat t (inject_Z 0) s0 s1 eq_refl eq_refl Htime Hattempt).
  split; [reflexivity|exact Hstate].
Defined.

(* ===================================================================== *)
(** * Further properties *)

(** ** The jump map: what the builder refuses *)

Lemma scan_loops_cons (t : task) (ts : list task) i stack jm :
  scan_loops (t :: ts) i stack jm =
    if is_loop t then scan_loops ts (S i) (i :: stack) jm
    else if is_end_loop t then
      match stack with
      | [] => inl (unmatched_end_loop i)
      | loop_index :: stack' =>
          scan_loops ts (S i) stack' (<[i := loop_index]> (<[loop_index := i]> jm))
      end
    else scan_loops ts (S i) stack jm.
Proof. reflexivity. Qed.

Lemma scan_loops_nil i j stack jm :
  scan_loops [] i stack jm = scan_loops [] j stack jm.
Proof. reflexivity. Qed.

(** The scan of [ts] goes through a well-nested [ts], or arrives at the
    first END_LOOP that closes nothing opened in [ts], or fails. *)
Lemma scan_loops_cases (n : nat) :
  forall ts, (length ts <= n)%nat ->
  forall i stack jm,
    (well_nested ts
     /\ exists jm', scan_loops ts i stack jm
                    = scan_loops [] (i + length ts) stack jm')
    \/ (exists pre c rest jm',
          ts = pre ++ c :: rest /\ well_nested pre
          /\ is_loop c = false /\ is_end_loop c = true
          /\ scan_loops ts i stack jm
             = scan_loops (c :: rest) (i + length pre) stack jm')
    \/ (exists x, scan_loops ts i stack jm = inl x).
Proof.
  induction n as [|n IH]; intros ts Hlen i stack jm.
  { destruct ts; [|simpl in Hlen; lia].
    left. split; [constructor|]. exists jm. apply scan_loops_nil. }
  destruct ts as [|t ts].
  { left. split; [constructor|]. exists jm. apply scan_loops_nil. }
  simpl in Hlen. rewrite scan_loops_cons.
  destruct (is_loop t) eqn:Hl.
  - (* a LOOP: its body, its END_LOOP, and what follows *)
    destruct (IH ts ltac:(lia) (S i) (i :: stack) jm)
      as [[Hwn [jm1 Hscan]]|[(pre & c & rest & jm1 & -> & Hpre & Hcl & Hce & Hscan)|[x Hx]]].
    + right. right. rewrite Hscan. simpl. eauto.
    + rewrite length_app in Hlen. simpl in Hlen.
      rewrite Hscan, scan_loops_cons, Hcl, Hce.
      destruct (IH rest ltac:(lia) (S (S i + length pre)) stack
                  (<[(S i + length pre)%nat := i]> (<[i := (S i + length pre)%nat]> jm1)))
        as [[Hwn [jm2 Hrest]]|[(pre2 & c2 & rest2 & jm2 & -> & Hpre2 & Hcl2 & Hce2 & Hrest)|[x Hx]]].
      * left. split; [by apply wn_loop|].
        exists jm2. rewrite Hrest. apply scan_loops_nil.
      * right. left. exists (t :: pre ++ c :: pre2), c2, rest2, jm2.
        split; [simpl; by rewrite <- app_assoc|].
        split; [by apply wn_loop|]. split; [done|]. split; [done|].
        rewrite Hrest. f_equal. simpl. rewrite !length_app. simpl. lia.
      * right. right. exists x. by rewrite Hx.
    + right. right. exists x. by rewrite Hx.
  - destruct (is_end_loop t) eqn:He.
    + right. left. exists [], t, ts, jm.
      split; [done|]. split; [constructor|]. split; [done|]. split; [done|].
      rewrite scan_loops_cons, Hl, He. by rewrite Nat.add_0_r.
    + destruct (IH ts ltac:(lia) (S i) stack jm)
        as [[Hwn [jm1 Hscan]]|[(pre & c & rest & jm1 & -> & Hpre & Hcl & Hce & Hscan)|[x Hx]]].
      * left. split; [by apply wn_plain|].
        exists jm1. rewrite Hscan. apply scan_loops_nil.
      * right. left. exists (t :: pre), c, rest, jm1.
        split; [done|]. split; [by apply wn_plain|]. split; [done|]. split; [done|].
        rewrite Hscan. f_equal. simpl. lia.
      * right. right. exists x. by rewrite Hx.
Qed.

Lemma build_jump_map_nested (tasks : list task) (jump_map : gmap nat nat) :
  build_jump_map tasks = inr jump_map -> well_nested tasks.
Proof.
  unfold build_jump_map. intros Hbuild.
  destruct (scan_loops_cases (length tasks) tasks (le_n _) 0%nat [] ∅)
    as [[Hwn _]|[(pre & c & rest & jm1 & _ & _ & Hcl & Hce & Hscan)|[x Hx]]].
  - exact Hwn.
  - rewrite Hscan in Hbuild. simpl in Hbuild. by rewrite Hcl, Hce in Hbuild.
  - by rewrite Hx in Hbuild.
Qed.

(** Whatever the builder raises is a [ValueError]. *)
Lemma scan_loops_value_error (ts : list task) :
  forall i stack jm x, scan_loops ts i stack jm = inl x -> exn_cls x = ValueError.
Proof.
  induction ts as [|t ts IH]; intros i stack jm x.
  - simpl. destruct stack; [done|]. by intros [= <-].
  - rewrite scan_loops_cons.
    destruct (is_loop t); [apply IH|].
    destruct (is_end_loop t); [|apply IH].
    destruct stack; [by intros [= <-]|apply IH].
Qed.

(** X1.  The builder returns a map for well-nested queues only: a queue
    for which [_build_jump_map] succeeds is well nested. *)
Theorem jump_map_only_when_nested (tasks : list task) (jump_map : gmap nat nat) :
  build_jump_map tasks = inr jump_map -> well_nested tasks.
Proof. apply build_jump_map_nested. Qed.

Lemma jump_map_only_when_nested_witness : well_nested Scripted.counting_loop.
Proof.
  apply (jump_map_only_when_nested _ (<[2%nat := 0%nat]> (<[0%nat := 2%nat]> ∅))).
  reflexivity.
Defined.

(** Tasks with no END_LOOP left over are scanned through, and leave as many
    LOOPs on the stack as [open_loops] counts. *)
Lemma scan_loops_open (pre rest : list task) :
  forall i (stack : list nat) jm d,
    open_loops pre (length stack) = Some d ->
    exists stack' jm',
      length stack' = d
      /\ scan_loops (pre ++ rest) i stack jm
         = scan_loops rest (i + length pre) stack' jm'.
Proof.
  induction pre as [|t pre IH]; intros i stack jm d Hd.
  - injection Hd as <-. exists stack, jm. split; [done|]. simpl. by rewrite Nat.add_0_r.
  - simpl in Hd. simpl.
    destruct (is_loop t).
    + destruct (IH (S i) (i :: stack) jm d Hd) as (stack' & jm' & ? & ->).
      exists stack', jm'. split; [done|]. f_equal; lia.
    + destruct (is_end_loop t).
      * destruct stack as [|l stack]; [done|]. simpl in Hd.
        destruct (IH (S i) stack
                    (<[i := l]> (<[l := i]> jm)) d Hd) as (stack' & jm' & ? & ->).
        exists stack', jm'. split; [done|]. f_equal; lia.
      * destruct (IH (S i) stack jm d Hd) as (stack' & jm' & ? & ->).
        exists stack', jm'. split; [done|]. f_equal; lia.
Qed.

(** X2.  What the builder complains of.  An END_LOOP that follows a
    well-nested stretch has no LOOP to close: the builder raises
    [ValueError] naming the index of this first offender, whatever comes
    after.  A LOOP whose well-nested body runs to the end of the queue is
    never closed: the builder raises [ValueError] naming its index, also
    when LOOPs opened before it are open too. *)
Theorem jump_map_errors (pre rest : list task) (t : task) :
  (well_nested pre -> is_end_loop t = true ->
     build_jump_map (pre ++ t :: rest) = inl (unmatched_end_loop (length pre)))
  /\ (forall d, open_loops pre 0 = Some d -> is_loop t = true -> well_nested rest ->
        build_jump_map (pre ++ t :: rest) = inl (unmatched_loop (length pre))).
Proof.
  unfold build_jump_map. split.
  - intros Hpre He.
    destruct (scan_loops_well_nested pre Hpre (t :: rest) 0%nat [] ∅) as [jm' ->].
    simpl. by rewrite (loop_not_end_loop t He), He.
  - intros d Hd Hl Hrest.
    destruct (scan_loops_open pre (t :: rest) 0%nat [] ∅ d Hd) as (stack' & jm' & _ & ->).
    simpl. rewrite Hl.
    destruct (scan_loops_well_nested rest Hrest [] (S (length pre)) (length pre :: stack') jm')
      as [jm'' Hscan].
    rewrite app_nil_r in Hscan. by rewrite Hscan.
Qed.

Lemma jump_map_errors_witness :
  let loop := Scripted.task_of [("type", VStr "LOOP")] in
  let end_loop := Scripted.task_of [("type", VStr "END_LOOP")] in
  build_jump_map ([loop; end_loop] ++ end_loop :: [loop]) = inl (unmatched_end_loop 2)
  /\ build_jump_map ([loop] ++ loop :: [loop; end_loop]) = inl (unmatched_loop 1).
Proof.
  intros loop end_loop.
  destruct (jump_map_errors [loop; end_loop] [loop] end_loop) as [Hend _].
  destruct (jump_map_errors [loop] [loop; end_loop] loop) as [_ Hloop].
  split.
  - apply Hend; [|reflexivity].
    apply (wn_loop loop [] end_loop []); try reflexivity; apply wn_nil.
  - apply (Hloop 1%nat); [reflexivity|reflexivity|].
    apply (wn_loop loop [] end_loop []); try reflexivity; apply wn_nil.
Defined.

(** ** The recognition threshold *)

Section Threshold.
Context `{Platform}.

Lemma keeps_threshold_log t m : keeps threshold (_log t m).
Proof. frame. Qed.

Lemma keeps_threshold_sleep d : keeps threshold (sleep d).
Proof. frame. Qed.

Lemma keeps_threshold_adb_call c f : keeps threshold (adb_call c f).
Proof. frame. Qed.

Lemma keeps_threshold_set_variable name v : keeps threshold (_set_variable name v).
Proof. frame. Qed.

Hint Resolve keeps_threshold_log keeps_threshold_sleep keeps_threshold_adb_call
  keeps_threshold_set_variable : frame.

Lemma keeps_threshold_try_targets t judge_only source_img current paths :
  keeps threshold (try_targets t judge_only source_img current paths).
Proof. induction paths; simpl; frame. Qed.

Hint Resolve keeps_threshold_try_targets : frame.

(** A block that sets the threshold, runs what keeps it, and puts the old
    one back. *)
Lemma threshold_bracket {A} (current : value -> value) (body : value -> M A) :
  (forall c, keeps threshold (body c)) ->
  (forall c e, fst (body c e) <> NoResult) ->
  keeps threshold
    (let* original_threshold := gets threshold in
     modify (set_threshold (current original_threshold)) ;;
     try_finally (body (current original_threshold))
       (modify (set_threshold original_threshold))).
Proof.
  intros Hbody Hres e. unfold bind, gets, modify, try_finally. cbn.
  specialize (Hres (current (threshold e)) (set_threshold (current (threshold e)) e)).
  destruct (body (current (threshold e)) (set_threshold (current (threshold e)) e))
    as [[a|x|] e1]; cbn; done.
Qed.

Lemma try_targets_answers t judge_only source_img current paths e :
  fst (try_targets t judge_only source_img current paths e) <> NoResult.
Proof.
  pose proof (try_targets_spec t judge_only source_img current paths e) as Hspec.
  unfold post in Hspec. tauto.
Qed.

Lemma keeps_threshold_find_and_click_one t :
  keeps threshold (_handle_find_and_click_one t).
Proof.
  unfold _handle_find_and_click_one.
  repeat first
    [ apply (threshold_bracket (fun o => task_get_or t "threshold" o)
               (fun c => try_targets t _ _ c _));
        [intros; apply keeps_threshold_try_targets|intros; apply try_targets_answers]
    | frame_step ].
Qed.

Lemma keeps_threshold_click t : keeps threshold (_handle_click t).
Proof.
  unfold _handle_click, tap_position.
  repeat first
    [ match goal with
      | |- keeps threshold (bind (gets threshold) _) =>
          let e := fresh "e" in
          intros e; unfold bind, gets, modify, ask; cbn;
          destruct (img_find_template _ _ _ (env e)) as [[?|] ?]; reflexivity
      end
    | frame_step
    | frame_unfold ].
Qed.

Hint Resolve keeps_threshold_find_and_click_one keeps_threshold_click : frame.

(** No handler changes the threshold for good. *)
Lemma keeps_threshold_dispatch t task_type : keeps threshold (dispatch t task_type).
Proof. frame. Qed.

End Threshold.

(** ** The stamp of the start of the run *)

Section Stamp.
Context `{Platform}.

Lemma keeps_start_log t m : keeps run_start_time (_log t m).
Proof. frame. Qed.

Lemma keeps_start_sleep d : keeps run_start_time (sleep d).
Proof. frame. Qed.

Lemma keeps_start_adb_call c f : keeps run_start_time (adb_call c f).
Proof. frame. Qed.

Lemma keeps_start_set_variable name v : keeps run_start_time (_set_variable name v).
Proof. frame. Qed.

Hint Resolve keeps_start_log keeps_start_sleep keeps_start_adb_call
  keeps_start_set_variable : frame.

Lemma keeps_start_try_targets t judge_only source_img current paths :
  keeps run_start_time (try_targets t judge_only source_img current paths).
Proof. induction paths; simpl; frame. Qed.

Hint Resolve keeps_start_try_targets : frame.

Lemma keeps_start_dispatch t task_type : keeps run_start_time (dispatch t task_type).
Proof. frame. Qed.

End Stamp.

(** ** Tasks none of whose texts is evaluated

    The lemmas of this section follow the executor and the execution loop
    where they evaluate nothing. *)

Section EvalFree.
Context `{Platform}.

Lemma has_none (t : task) (k : string) : t !! k = None -> task_has t k = false.
Proof. intros Hk. unfold task_has. rewrite Hk. by apply bool_decide_eq_false_2; intros [? ?]. Qed.

Lemma keeps_kept {A} (m : M A) :
  keeps control m -> keeps threshold m -> keeps run_start_time m ->
  keeps kept_by_tasks m.
Proof.
  intros Hc Ht Hs e. unfold kept_by_tasks. rewrite (Ht e), (Hs e).
  pose proof (Hc e) as Hce. apply control_fields in Hce as (_ & _ & ->). done.
Qed.

Lemma keeps_kept_dispatch t task_type : keeps kept_by_tasks (dispatch t task_type).
Proof.
  apply keeps_kept;
    [apply keeps_control_dispatch|apply keeps_threshold_dispatch|apply keeps_start_dispatch].
Qed.

Lemma keeps_kept_log t m : keeps kept_by_tasks (_log t m).
Proof. frame. Qed.

Lemma keeps_kept_sleep d : keeps kept_by_tasks (sleep d).
Proof. frame. Qed.

Lemma keeps_kept_task_success t : keeps kept_by_tasks (_handle_task_success t).
Proof. pose proof keeps_kept_log. frame. Qed.

Hint Resolve keeps_kept_dispatch keeps_kept_log keeps_kept_sleep keeps_kept_task_success
  : frame.

Lemma keeps_kept_attempt_once t task_type timeout start_time :
  t !! "post_action" = None ->
  keeps kept_by_tasks (attempt_once t task_type timeout start_time).
Proof.
  intros Hpost. unfold attempt_once, run_post_action.
  rewrite (has_none t _ Hpost). frame.
Qed.

Lemma keeps_kept_on_attempt_failure t wait_for_success retries attempt x :
  t !! "on_fail_action" = None ->
  keeps kept_by_tasks (on_attempt_failure t wait_for_success retries attempt x).
Proof.
  intros Hfail. unfold on_attempt_failure, retries_exhausted.
  rewrite (has_none t _ Hfail). frame.
Qed.

Lemma keeps_kept_attempts t task_type wait_for_success retries timeout start_time :
  t !! "post_action" = None -> t !! "on_fail_action" = None ->
  forall fuel attempt,
    keeps kept_by_tasks (attempts fuel t task_type wait_for_success retries timeout
                           start_time attempt).
Proof.
  intros Hpost Hfail.
  pose proof (keeps_kept_attempt_once t task_type timeout start_time Hpost).
  pose proof (fun a x => keeps_kept_on_attempt_failure t wait_for_success retries a x Hfail).
  induction fuel as [|fuel IH]; intros attempt; [frame|].
  rewrite attempts_unfold. frame.
Qed.

(** A task that evaluates nothing keeps what the handlers keep. *)
Lemma keeps_kept_execute_task fuel t :
  eval_free t -> keeps kept_by_tasks (_execute_task fuel t).
Proof.
  intros (Hpre & Hpost & Hfail).
  pose proof (keeps_kept_attempts t (task_get t "type")
                (task_get_or t "wait_for_success" (VBool false))) as Hattempts.
  unfold _execute_task, check_pre_condition, execute_attempts.
  rewrite (has_none t _ Hpre).
  repeat first [ apply Hattempts; assumption | frame_step | frame_unfold ].
Qed.

Lemma keeps_kept_execute_and_report fuel cb total i t :
  eval_free t -> keeps kept_by_tasks (execute_and_report fuel cb total i t).
Proof.
  intros Hfree. pose proof (keeps_kept_execute_task fuel t Hfree).
  unfold execute_and_report. frame.
Qed.

(** The execution loop on a queue of such tasks. *)
Lemma kept_by_run_loop cb jump_map total :
  forall fuel i e,
    Forall eval_free (task_queue e) ->
    kept_by_tasks (snd (run_loop fuel cb jump_map total i e)) = kept_by_tasks e.
Proof.
  induction fuel as [|fuel IH]; intros i e Hfree; [done|].
  rewrite run_loop_unfold.
  destruct (negb (i <? total)%nat); [done|].
  unfold bind at 1. unfold gets at 1. cbv beta iota.
  destruct (negb (is_running e)); [done|].
  unfold bind at 1. unfold ask at 1.
  destruct (is_running_callable (env e)) as [wanted w]. cbv beta iota.
  set (e1 := set_env w e).
  assert (kept_by_tasks e1 = kept_by_tasks e) as <- by done.
  assert (Forall eval_free (task_queue e1)) as Hfree1 by done.
  clearbody e1. clear e Hfree.
  destruct (negb wanted); [done|].
  unfold bind at 1. unfold gets at 1. cbv beta iota.
  destruct (task_queue e1 !! i) as [t|] eqn:Ht; [|done].
  assert (eval_free t) as Hfree_t
    by (eapply Forall_forall; [exact Hfree1|by eapply list_elem_of_lookup_2]).
  unfold bind at 1. unfold modify at 1. cbv beta iota.
  set (e2 := set_current_task (Some t) e1).
  assert (kept_by_tasks e2 = kept_by_tasks e1) as <- by done.
  assert (Forall eval_free (task_queue e2)) as Hfree2 by done.
  clearbody e2. clear e1 Hfree1 Ht.
  assert (forall j e3, kept_by_tasks e3 = kept_by_tasks e2 ->
            kept_by_tasks (snd (run_loop fuel cb jump_map total j e3)) = kept_by_tasks e2)
    as Hnext.
  { intros j e3 He3. rewrite IH; [done|].
    unfold kept_by_tasks in He3. injection He3 as -> _ _. done. }
  assert (kept_by_tasks
            (snd ((execute_and_report fuel cb total i t ;;
                   run_loop fuel cb jump_map total (i + 1)) e2)) = kept_by_tasks e2)
    as Hexecute.
  { unfold bind at 1.
    pose proof (keeps_kept_execute_and_report fuel cb total i t Hfree_t e2) as Hstep.
    destruct (execute_and_report fuel cb total i t e2) as [[[]|x|] e3];
      cbn [fst snd] in *; [by apply Hnext|done..]. }
  assert (kept_by_tasks
            (snd ((let* j := jump_target jump_map i in
                   run_loop fuel cb jump_map total j) e2)) = kept_by_tasks e2)
    as Hjump.
  { unfold bind at 1, jump_target.
    destruct (jump_map !! i) as [j|]; [by apply Hnext|done]. }
  destruct Hfree_t as (Hpre & _ & _).
  destruct (is_loop t).
  - rewrite (has_none t _ Hpre). unfold bind at 1. cbn [ret]. exact Hexecute.
  - destruct (is_end_loop t); [|exact Hexecute].
    rewrite (has_none t _ Hpre). cbn [negb]. unfold bind at 1. cbn [ret]. exact Hjump.
Qed.

(** What a run of such a queue leaves: the queue and the threshold as
    they were, and the stamp it set at its start. *)
Lemma kept_by_run fuel cb e :
  Forall eval_free (task_queue e) ->
  kept_by_tasks (snd (run fuel cb e))
  = (task_queue e, threshold e, Some (fst (time_time (env e)))).
Proof.
  intros Hfree. unfold run.
  unfold bind at 1. unfold modify at 1. cbv beta iota.
  unfold bind at 1. unfold modify at 1. cbv beta iota.
  unfold bind at 1. unfold time_now. unfold ask at 1.
  cbn [env set_last_success_time set_is_running].
  destruct (time_time (env e)) as [now w]. cbv beta iota.
  unfold bind at 1. unfold modify at 1. cbv beta iota.
  unfold bind at 1. unfold modify at 1. cbv beta iota.
  match goal with
  | |- kept_by_tasks (snd (_ ?e0)) = _ => set (e1 := e0)
  end.
  change (fst (now, w)) with now.
  assert (kept_by_tasks e1 = (task_queue e, threshold e, Some now)) as <- by done.
  assert (Forall eval_free (task_queue e1)) as Hfree1 by done.
  clearbody e1.
  assert (forall (m : M unit) (k : unit -> M unit),
            keeps kept_by_tasks m ->
            (forall a e2, kept_by_tasks e2 = kept_by_tasks e1 ->
                          kept_by_tasks (snd (k a e2)) = kept_by_tasks e1) ->
            kept_by_tasks (snd (bind m k e1)) = kept_by_tasks e1) as Hthen.
  { intros m k Hm Hk. unfold bind. specialize (Hm e1).
    destruct (m e1) as [[a|x|] e2]; cbn [fst snd] in *; [by apply Hk|done..]. }
  unfold bind at 1. unfold gets at 1. cbv beta iota.
  unfold bind at 1. unfold is_truthy at 1. unfold gets at 1. cbv beta iota.
  apply Hthen; [frame|].
  intros _ e2 He2. unfold bind at 1.
  assert (keeps kept_by_tasks
            (try_except _build_jump_map
               (fun x => match exn_cls x with
                         | ValueError => raise (failed ([Text "任务结构错误: "] ++ exn_msg x))
                         | _ => raise x
                         end))) as Hmap by frame.
  specialize (Hmap e2).
  destruct (try_except _build_jump_map _ e2) as [[jump_map|x|] e3]; cbn [fst snd] in *;
    [|congruence..].
  unfold bind at 1. unfold gets at 1. cbv beta iota.
  unfold bind at 1.
  pose proof (kept_by_run_loop cb jump_map (length (task_queue e3)) fuel 0 e3) as Hloop.
  assert (Forall eval_free (task_queue e3)) as Hfree3.
  { assert (task_queue e3 = task_queue e1) as ->; [|done].
    unfold kept_by_tasks in Hmap, He2. congruence. }
  specialize (Hloop Hfree3).
  destruct (run_loop fuel cb jump_map (length (task_queue e3)) 0 e3) as [[[]|x|] e4];
    cbn [fst snd] in *; [|congruence..].
  assert (keeps kept_by_tasks
            (let* running := gets is_running in
             if negb running then _log None [Text "任务被用户停止"] else ret tt)) as Hend
    by frame.
  rewrite (Hend e4). congruence.
Qed.

End EvalFree.

(** X4.  No handler changes the recognition threshold for good:
    whatever the task and its type, the handler leaves the threshold of
    the image processor as it found it, however it ends; the thresholds
    that [click] and [find_and_click_one] set for themselves are put back
    on every way out.  So a task none of whose texts is evaluated (it has
    no [pre_condition], [post_action] or [on_fail_action]) leaves the
    threshold as it was, through all its attempts, and so does a run of
    a queue of such tasks. *)
Theorem threshold_survives_tasks `{Platform} (fuel : nat) (e : engine) :
  (forall t task_type, threshold (snd (dispatch t task_type e)) = threshold e)
  /\ (forall t, eval_free t -> threshold (snd (_execute_task fuel t e)) = threshold e)
  /\ (forall progress_callback,
        Forall eval_free (task_queue e) ->
        threshold (snd (run fuel progress_callback e)) = threshold e).
Proof.
  split; [|split].
  - intros t task_type. apply keeps_threshold_dispatch.
  - intros t Hfree.
    pose proof (keeps_kept_execute_task fuel t Hfree e) as Hkept.
    unfold kept_by_tasks in Hkept. congruence.
  - intros cb Hfree.
    pose proof (kept_by_run fuel cb e Hfree) as Hkept.
    unfold kept_by_tasks in Hkept. congruence.
Qed.

Lemma threshold_survives_tasks_witness :
  let t := Scripted.task_of [("type", VStr "click"); ("target", VStr "b.png");
                             ("threshold", VFloat (7 # 10))] in
  let e := set_task_queue [t] (Scripted.running_engine true ∅) in
  eval_free t
  /\ threshold (snd (_execute_task 1 t e)) = VFloat (8 # 10)
  /\ threshold (snd (run 5 false e)) = VFloat (8 # 10)
  /\ count_calls is_tap (trace (snd (_execute_task 1 t e))) = 1%nat.
Proof.
  intros t e.
  assert (eval_free t) as Hfree by (repeat split; reflexivity).
  destruct (threshold_survives_tasks 1 e) as (_ & Htask & _).
  destruct (threshold_survives_tasks 5 e) as (_ & _ & Hrun).
  split; [exact Hfree|]. split; [|split].
  - by rewrite (Htask t Hfree).
  - rewrite (Hrun false); [reflexivity|].
    apply Forall_cons. split; [exact Hfree|apply Forall_nil_2].
  - vm_compute. reflexivity.
Defined.

(** ** Failing tasks in the execution loop *)

Section ContinueOnFail.
Context `{Platform}.



End ContinueOnFail.



(** ** A queue that is not well nested *)

Section BadStructure.
Context `{Platform}.

Lemma build_jump_map_refuses (tasks : list task) :
  ~ well_nested tasks ->
  exists x, build_jump_map tasks = inl x /\ exn_cls x = ValueError.
Proof.
  intros Hnot. destruct (build_jump_map tasks) as [x|jm] eqn:Hbuild.
  - exists x. split; [done|]. by apply scan_loops_value_error in Hbuild.
  - by apply build_jump_map_nested in Hbuild.
Qed.

(** [run] up to the jump map, on a queue the builder refuses. *)
Lemma run_structure_error fuel cb e x :
  build_jump_map (task_queue e) = inl x -> exn_cls x = ValueError ->
  post (run fuel cb) e (fun r e' =>
    variables e' = variables e
    /\ ((r = Exc (failed ([Text "任务结构错误: "] ++ exn_msg x))
         /\ stdout e' = stdout e
         /\ (trace e' = trace e \/ trace e' = trace e ++ [CConnect (device_id (cfg e))]))
        \/ (r = Exc (failed [Text "无法连接设备: "; Show (device_id (cfg e))])
            /\ trace e' = trace e ++ [CConnect (device_id (cfg e))]))).
Proof.
  intros Hbuild Hcls.
  unfold post, run, time_now, bind, modify, ask, gets, is_truthy, try_except,
    _build_jump_map, record, raise, ret.
  cbn -[build_jump_map].
  destruct (time_time (env e)) as [now w0]. cbn -[build_jump_map].
  destruct (truthy (objects e) (device_id (cfg e))); cbn -[build_jump_map].
  - destruct (adb_connect_device (device_id (cfg e)) w0) as [[] w]; cbn -[build_jump_map].
    + rewrite Hbuild. cbn. rewrite Hcls. cbn. auto 7.
    + auto 7.
  - rewrite Hbuild. cbn. rewrite Hcls. cbn. auto 7.
Qed.

End BadStructure.

(** X6.  A queue that is not well nested is never started.  [run] raises
    before the first task: the [ValueError] of the jump map builder comes
    out as an [Exception] whose message is the builder's behind the words
    for a structure error; the engine has printed nothing then, and the
    device has seen at most the connection.  Only when a device is set and
    cannot be connected does [run] raise for that instead, after the one
    call to connect.  Either way no variable has changed. *)
Theorem run_refuses_bad_structure `{Platform} (fuel : nat) (progress_callback : bool)
    (e : engine) :
  ~ well_nested (task_queue e) ->
  let r := fst (run fuel progress_callback e) in
  let e' := snd (run fuel progress_callback e) in
  exists x,
    build_jump_map (task_queue e) = inl x
    /\ variables e' = variables e
    /\ ((r = Exc (failed ([Text "任务结构错误: "] ++ exn_msg x))
         /\ stdout e' = stdout e
         /\ (trace e' = trace e \/ trace e' = trace e ++ [CConnect (device_id (cfg e))]))
        \/ (r = Exc (failed [Text "无法连接设备: "; Show (device_id (cfg e))])
            /\ trace e' = trace e ++ [CConnect (device_id (cfg e))])).
Proof.
  intros Hnot. destruct (build_jump_map_refuses _ Hnot) as (x & Hbuild & Hcls).
  exists x. split; [exact Hbuild|].
  exact (run_structure_error fuel progress_callback e x Hbuild Hcls).
Qed.

Lemma run_refuses_bad_structure_witness :
  let e := set_task_queue [Scripted.task_of [("type", VStr "END_LOOP")]]
             (Scripted.fresh_engine true ∅) in
  ~ well_nested (task_queue e)
  /\ fst (run 0 true e)
     = Exc (failed [Text "任务结构错误: "; Text "任务 "; Show (VInt 0);
                    Text ": 找到没有匹配的 'LOOP' 的 'END_LOOP'"])
  /\ stdout (snd (run 0 true e)) = [] /\ trace (snd (run 0 true e)) = [].
Proof.
  intros e.
  assert (~ well_nested (task_queue e)) as Hnot.
  { intros Hwn.
    destruct (scan_loops_well_nested _ Hwn [] 0%nat [] ∅) as [jm Hscan].
    discriminate Hscan. }
  split; [exact Hnot|].
  destruct (run_refuses_bad_structure 0 true e Hnot)
    as (x & Hbuild & _ & [(Hr & Hout & Htrace)|(Hr & _)]).
  - assert (build_jump_map (task_queue e) = inl (unmatched_end_loop 0)) as Hx
      by reflexivity.
    rewrite Hx in Hbuild. injection Hbuild as <-.
    split; [exact Hr|]. split; [exact Hout|].
    destruct Htrace as [Htrace|Htrace]; [exact Htrace|].
    assert (trace (snd (run 0 true e)) = []) as Hnone by reflexivity.
    exact Hnone.
  - assert (fst (run 0 true e)
            = Exc (failed [Text "任务结构错误: "; Text "任务 "; Show (VInt 0);
                           Text ": 找到没有匹配的 'LOOP' 的 'END_LOOP'"])) as Hvalue
      by reflexivity.
    rewrite Hvalue in Hr. discriminate Hr.
Defined.

(** ** Pre-conditions *)

(** X7.  A task whose pre-condition comes out false is skipped at once:
    whatever the fuel, [_execute_task] returns, and the engine is left as
    the evaluation of the condition left it, with the line about the
    skipping printed if the task prints its log.  After the evaluation
    the handler has not run, the device has not been called, the clock has
    not been read and no success has been counted. *)
Theorem false_pre_condition_skips `{Platform} (t : task) (pc : value) (fuel : nat)
    (e e1 : engine) :
  t !! "pre_condition" = Some pc ->
  _evaluate_expression pc e = (Ret false, e1) ->
  fst (_execute_task fuel t e) = Ret tt
  /\ snd (_execute_task fuel t e)
     = snd (_log (Some t) [Text "任务 '"; Show (task_get t "description");
                           Text "' 因前置条件不满足而被跳过。"] e1)
  /\ ((forall h, truthy h (task_get_or t "print_log" (VBool false)) = false) ->
      snd (_execute_task fuel t e) = e1).
Proof.
  intros Ht Heval.
  assert (_execute_task fuel t e
          = (Ret tt, snd (_log (Some t) [Text "任务 '"; Show (task_get t "description");
                                         Text "' 因前置条件不满足而被跳过。"] e1)))
    as Htask.
  { unfold _execute_task, check_pre_condition, task_has.
    rewrite Ht. rewrite bool_decide_eq_true_2 by eauto.
    unfold task_get at 1. rewrite Ht.
    change (default VNone (Some pc)) with pc.
    unfold bind at 1. unfold try_except. unfold bind at 1. rewrite Heval. cbn [negb].
    unfold bind at 1.
    destruct (post_log_run (Some t)
                [Text "任务 '"; Show (task_get t "description");
                 Text "' 因前置条件不满足而被跳过。"] e1) as [out ->].
    reflexivity. }
  rewrite Htask. split; [done|]. split; [done|].
  intros Hquiet. cbn [snd]. unfold _log, bind, is_truthy, gets.
  by rewrite Hquiet.
Qed.

Lemma false_pre_condition_skips_witness :
  let t := Scripted.stuck_tap [("pre_condition", VStr "i > 0")] in
  fst (_execute_task 0 t Scripted.counting_start) = Ret tt
  /\ trace (snd (_execute_task 0 t Scripted.counting_start)) = []
  /\ stdout (snd (_execute_task 0 t Scripted.counting_start))
     = [[Text "任务 '"; Show (VStr "tap"); Text "' 因前置条件不满足而被跳过。"]].
Proof.
  intros t.
  destruct (false_pre_condition_skips t (VStr "i > 0") 0 Scripted.counting_start
              (snd (_evaluate_expression (VStr "i > 0") Scripted.counting_start)))
    as (Hret & Hstate & _).
  - reflexivity.
  - assert (fst (_evaluate_expression (VStr "i > 0") Scripted.counting_start) = Ret false)
      as Hfalse by (vm_compute; reflexivity).
    destruct (_evaluate_expression (VStr "i > 0") Scripted.counting_start) as [r e1].
    cbn [fst snd] in *. by rewrite Hfalse.
  - split; [exact Hret|]. rewrite Hstate. split; vm_compute; reflexivity.
Defined.

(** ** The number of attempts *)

Section Attempts.
Context `{Platform}.

(** [k] failing attempts, the last of which uses up the retries. *)
Lemma attempts_fail_all t task_type wait_for_success (retries : Z) timeout start_time :
  (forall h, truthy h wait_for_success = false) ->
  forall k fuel attempt s x a,
    is_running s = true ->
    Qle_bool 0 (retry_delay (cfg s)) = true ->
    (k <= fuel)%nat ->
    (retries <= attempt + Z.of_nat k)%Z ->
    (attempt + Z.of_nat k - 1 < retries \/ k = 1%nat)%Z ->
    failing_attempts k t task_type (VInt retries) timeout start_time attempt s = Some (x, a) ->
    attempts fuel t task_type wait_for_success (VInt retries) timeout start_time attempt s
    = retries_exhausted t (VInt retries) x a.
Proof.
  intros Hnb. induction k as [|k IH]; intros fuel attempt s x a Hrun Hdelay Hfuel Hle Hlt Hfail.
  { discriminate Hfail. }
  destruct fuel as [|fuel]; [lia|].
  cbn [failing_attempts] in Hfail.
  destruct (failing_attempt t task_type timeout start_time s) as [[x1 a1]|] eqn:Hf1;
    [|discriminate].
  destruct k as [|k].
  - injection Hfail as <- <-.
    apply attempts_retries_exhausted; auto; lia.
  - rewrite (attempts_retry _ _ _ _ retries _ _ attempt s x1 a1) by (auto; lia).
    destruct (failing_attempt_control _ _ _ _ _ _ _ Hf1) as [Ha1 _].
    pose proof (before_next_attempt_control t (VInt retries) (attempt + 1) x1 a1) as Hb1.
    apply control_fields in Ha1 as (Hc1 & Hr1 & _).
    apply control_fields in Hb1 as (Hcb & Hrb & _).
    apply IH; [congruence|congruence|lia|lia|lia|exact Hfail].
Qed.

End Attempts.

(** X8.  A non-blocking task makes [max(1, retries)] attempts.  When that
    many attempts in a row fail in the action, there is no further
    attempt: the executor ends as it does when the retries are used up,
    from the state the last failure left.  In particular [retries = 0], or
    a negative number, still makes one attempt, and [retries = 1] makes no
    retry. *)
Theorem attempts_made_before_failing `{Platform}
    (t : task) (retries : Z) (fuel : nat) (e0 e s0 a : engine) (start : Q) (x : exn) :
  let n := Z.to_nat (Z.max 1 retries) in
  (forall h, truthy h (task_get_or t "wait_for_success" (VBool false)) = false) ->
  t !! "retries" = Some (VInt retries) ->
  check_pre_condition t e0 = (Ret true, e) ->
  is_running e = true ->
  Qle_bool 0 (retry_delay (cfg e)) = true ->
  time_now e = (Ret start, s0) ->
  failing_attempts n t (task_get t "type") (VInt retries)
    (task_get_or t "timeout" (timeout (cfg e))) start 0 s0 = Some (x, a) ->
  (n <= fuel)%nat ->
  _execute_task fuel t e0 = retries_exhausted t (VInt retries) x a.
Proof.
  intros n Hnb Hretries Hpre Hrun Hdelay Htime Hfail Hfuel.
  assert (control s0 = control e) as Hs0.
  { assert (keeps control time_now) as Hk by frame.
    specialize (Hk e). by rewrite Htime in Hk. }
  apply control_fields in Hs0 as (Hc0 & Hr0 & _).
  unfold _execute_task. unfold bind at 1. rewrite Hpre.
  rewrite (execute_attempts_non_blocking _ _ _ _ _ Hnb Htime).
  unfold task_get_or at 2. rewrite Hretries.
  change (default (max_retries (cfg e)) (Some (VInt retries))) with (VInt retries).
  apply (attempts_fail_all _ _ _ retries _ _ Hnb n); [congruence|congruence|lia| | |exact Hfail].
  - unfold n. lia.
  - unfold n. lia.
Qed.

Lemma attempts_made_before_failing_witness :
  let zero := Scripted.stuck_tap [("retries", VInt 0)] in
  let two := Scripted.stuck_tap [("retries", VInt 2)] in
  let e := Scripted.running_engine false ∅ in
  (exists x a, _execute_task 1 zero e = retries_exhausted zero (VInt 0) x a
               /\ count_calls is_tap (trace a) = 1%nat)
  /\ (exists x a, _execute_task 2 two e = retries_exhausted two (VInt 2) x a
                  /\ count_calls is_tap (trace a) = 2%nat).
Proof.
  intros zero two e.
  pose (d := (error Exception [], e)).
  pose (o1 := failing_attempts 1 zero (VStr "click") (VInt 0) (VInt 30) 0 0
                (snd (time_now e))).
  pose (o2 := failing_attempts 2 two (VStr "click") (VInt 2) (VInt 30) 0 0
                (snd (time_now e))).
  assert ((if o1 is Some _ then true else false) = true) as H1 by (vm_compute; reflexivity).
  assert ((if o2 is Some _ then true else false) = true) as H2 by (vm_compute; reflexivity).
  pose proof (computed_some o1 d H1) as Hlast1.
  pose proof (computed_some o2 d H2) as Hlast2.
  split.
  - exists (fst (default d o1)), (snd (default d o1)). split.
    + apply (attempts_made_before_failing zero 0 1 e e (snd (time_now e)) _ 0).
      * intros h. reflexivity.
      * reflexivity.
      * reflexivity.
      * reflexivity.
      * reflexivity.
      * reflexivity.
      * exact Hlast1.
      * apply le_n.
    + vm_compute. reflexivity.
  - exists (fst (default d o2)), (snd (default d o2)). split.
    + apply (attempts_made_before_failing two 2 2 e e (snd (time_now e)) _ 0).
      * intros h. reflexivity.
      * reflexivity.
      * reflexivity.
      * reflexivity.
      * reflexivity.
      * reflexivity.
      * exact Hlast2.
      * apply le_n.
    + vm_compute. reflexivity.
Defined.

(** ** Writing and reading a variable *)

(** X9.  What a write leaves in the store.  After [_set_variable name v]
    has returned, every other variable is bound as before and no object
    has changed; the value read under [name] equals [v] (for every [v] but
    NaN); and when the value held before already equalled [v], the store
    is untouched, so that the old value stays where an equal one of another
    type was written ([1] stays when [True] is written over it). *)
Theorem set_then_lookup `{Platform} (name : string) (v : value) (e e' : engine) :
  _set_variable name v e = (Ret tt, e') ->
  (forall other, other <> name -> variables e' !! other = variables e !! other)
  /\ objects e' = objects e
  /\ (v <> VNaN -> py_eq (objects e') (current e' name) v = Some true)
  /\ (py_eq (objects e) (current e name) v = Some true -> e' = e).
Proof.
  intros Hset.
  destruct (py_eq (objects e) (current e name) v) as [[]|] eqn:Heq.
  - rewrite (set_variable_same _ _ _ Heq) in Hset. injection Hset as <-.
    repeat split; done.
  - rewrite (set_variable_changed _ _ _ Heq) in Hset. injection Hset as <-.
    assert (forall e0 : engine,
              (if bool_decide (name ∈ watched_variables e)
               then set_stdout (stdout e ++ [watch_line name v]) e0 else e0)
              = e0 \/
              (if bool_decide (name ∈ watched_variables e)
               then set_stdout (stdout e ++ [watch_line name v]) e0 else e0)
              = set_stdout (stdout e ++ [watch_line name v]) e0) as Hcase
      by (intros e0; destruct (bool_decide (name ∈ watched_variables e)); auto).
    cbv zeta.
    destruct (Hcase (set_variables (<[name := v]> (variables e)) e)) as [-> | ->].
    + split; [intros other Hother; cbn; by rewrite lookup_insert_ne|].
      split; [done|]. split; [|done].
      intros Hv. unfold current. cbn. rewrite lookup_insert_eq. by apply py_eq_refl.
    + split; [intros other Hother; cbn; by rewrite lookup_insert_ne|].
      split; [done|]. split; [|done].
      intros Hv. unfold current. cbn. rewrite lookup_insert_eq. by apply py_eq_refl.
  - rewrite (set_variable_no_answer _ _ _ Heq) in Hset. discriminate.
Qed.

Lemma set_then_lookup_witness :
  let e := Scripted.counting_start in
  let one := snd (_set_variable "i" (VInt 1) e) in
  let again := snd (_set_variable "i" (VBool true) one) in
  variables one !! "i" = Some (VInt 1)
  /\ again = one.
Proof.
  intros e one again. split; [reflexivity|].
  destruct (set_then_lookup "i" (VBool true) one again) as (_ & _ & _ & Hsame).
  - unfold again.
    assert (fst (_set_variable "i" (VBool true) one) = Ret tt) as Hret
      by (vm_compute; reflexivity).
    destruct (_set_variable "i" (VBool true) one) as [r e1]. cbn [fst snd] in *.
    by rewrite Hret.
  - apply Hsame. reflexivity.
Defined.

(** ** Actions *)

Section Actions.
Context `{Platform}.

Lemma run_statements_all_empty (statements : list string) :
  Forall (fun c => c = EmptyString) statements ->
  forall sc e, run_statements statements sc e = (Ret tt, e).
Proof.
  induction 1 as [|c cs -> _ IH]; intros sc e; [done|]. simpl. apply IH.
Qed.

(** Empty statements are passed over. *)
Lemma run_statements_skip (before rest : list string) :
  Forall (fun c => c = EmptyString) before ->
  forall sc e, run_statements (before ++ rest) sc e = run_statements rest sc e.
Proof.
  induction 1 as [|c cs -> _ IH]; intros sc e; [done|]. simpl. apply IH.
Qed.

End Actions.

(** X10.  What an action refuses before it evaluates anything.  An
    action that is empty, or made of whitespace and semicolons only, does
    nothing at all.  When the first statement that is not empty holds no
    [=], the action raises [ValueError] naming the statement; when what
    stands before its first [=] is not an identifier, it raises [NameError]
    naming that.  In both cases nothing has been evaluated and the engine
    is as it was: no variable is written, nothing is printed. *)
Theorem action_refusals `{Platform} (s : string) (e : engine) :
  (blank s -> _execute_action (VStr s) e = (Ret tt, e))
  /\ (forall before stmt after,
        map str_strip (str_split ";" s) = before ++ stmt :: after ->
        Forall (fun c => c = EmptyString) before ->
        str_is_empty stmt = false ->
        let var_name := str_strip (fst (str_split_first "=" stmt)) in
        (str_contains_char "=" stmt = false ->
           _execute_action (VStr s) e
           = (Exc (error ValueError [Text "无效的赋值表达式: "; Text stmt]), e))
        /\ (str_contains_char "=" stmt = true ->
            str_isidentifier var_name = Some false ->
            _execute_action (VStr s) e
            = (Exc (error NameError [Text "无效的变量名: "; Text var_name]), e))).
Proof.
  split.
  - intros Hs. unfold _execute_action, bind, gets. cbn.
    apply run_statements_all_empty.
    pose proof (blank_clauses_empty s Hs) as Hempty.
    by rewrite rewrite_operators_quiet in Hempty by by apply blank_quiet.
  - intros before stmt after Hsplit Hbefore Hstmt var_name.
    assert (_execute_action (VStr s) e
            = run_statements (stmt :: after) (variables e) e) as ->.
    { unfold _execute_action. unfold bind at 1. unfold gets at 1. cbv beta iota.
      rewrite Hsplit. by apply run_statements_skip. }
    cbn [run_statements]. rewrite Hstmt. split.
    + intros Hnone. by rewrite Hnone.
    + intros Hsome Hname. rewrite Hsome. cbn [negb].
      subst var_name. destruct (str_split_first "=" stmt) as [lhs rhs]. cbn [fst] in *.
      by rewrite Hname.
Qed.

Lemma action_refusals_witness :
  let e := Scripted.counting_start in
  _execute_action (VStr " ; ") e = (Ret tt, e)
  /\ _execute_action (VStr " ; i + 1; i = 2") e
     = (Exc (error ValueError [Text "无效的赋值表达式: "; Text "i + 1"]), e)
  /\ _execute_action (VStr "2i = 1") e
     = (Exc (error NameError [Text "无效的变量名: "; Text "2i"]), e).
Proof.
  intros e.
  destruct (action_refusals " ; " e) as [Hblank _].
  destruct (action_refusals " ; i + 1; i = 2" e) as [_ Hfirst].
  destruct (action_refusals "2i = 1" e) as [_ Hname].
  split; [|split].
  - apply Hblank.
    assert (forall w, bool_decide (w ∈ whitespace) = true -> w ∈ whitespace) as Hin
      by (intros w; apply bool_decide_eq_true_1).
    apply (blank_space " "); [by apply Hin|].
    apply blank_semicolon.
    apply (blank_space " "); [by apply Hin|].
    apply blank_empty.
  - apply (Hfirst [""] "i + 1" ["i = 2"]); try reflexivity.
    apply Forall_cons. split; [reflexivity|apply Forall_nil_2].
  - apply (Hname [] "2i = 1" []); try reflexivity. apply Forall_nil_2.
Defined.

(** ** Conditions as conjunctions *)

Section Conjunctions.
Context `{Platform}.

Lemma set_objects_same (e : engine) : set_objects (objects e) e = e.
Proof. by destruct e. Qed.

Lemma set_objects_twice (h h' : heap) (e : engine) :
  set_objects h' (set_objects h e) = set_objects h' e.
Proof. reflexivity. Qed.

(** Clauses that hold are passed over, and leave their mark on the objects
    only. *)
Lemma eval_conditions_hold_state before h sc h' sc' :
  clauses_hold before h sc h' sc' ->
  forall rest e, objects e = h ->
    eval_conditions (before ++ rest) sc e = eval_conditions rest sc' (set_objects h' e).
Proof.
  induction 1 as [h sc|c cs h sc h' sc' Hc _ IH|c cs h sc h1 sc1 v h' sc' Hc Hev Hv _ IH];
    intros rest e He.
  - subst h. by rewrite set_objects_same.
  - simpl app. rewrite eval_conditions_skip by done. by apply IH.
  - simpl app. rewrite eval_conditions_step by done.
    rewrite He, Hev, Hv. rewrite (IH rest (set_objects h1 e) eq_refl).
    by rewrite set_objects_twice.
Qed.

End Conjunctions.

(** X11.  A condition is the conjunction of its clauses, taken from left
    to right.  When every clause holds the condition is true; when the
    clauses before some clause hold and that clause comes out false, the
    condition is false and the clauses after it are not evaluated.  In both
    cases nothing is printed, and the objects are as the last clause
    evaluated left them. *)
Theorem condition_is_conjunction `{Platform} (s : string) (e : engine) :
  let clauses := map str_strip (str_split ";" (rewrite_operators s)) in
  (forall h sc,
     clauses_hold clauses (objects e) (variables e) h sc ->
     _evaluate_expression (VStr s) e = (Ret true, set_objects h e))
  /\ (forall before cond after h sc h' sc' v,
        clauses = before ++ cond :: after ->
        clauses_hold before (objects e) (variables e) h sc ->
        str_is_empty cond = false ->
        py_eval cond h sc = Some (h', sc', inr v) ->
        truthy h' v = false ->
        _evaluate_expression (VStr s) e = (Ret false, set_objects h' e)).
Proof.
  cbv zeta. split.
  - intros h sc Hhold. unfold _evaluate_expression, bind, gets. cbn.
    rewrite <- (app_nil_r (map str_strip _)).
    by rewrite (eval_conditions_hold_state _ _ _ _ _ Hhold [] e eq_refl).
  - intros before cond after h sc h' sc' v Hsplit Hhold Hc Hev Hv.
    unfold _evaluate_expression, bind, gets. cbn. rewrite Hsplit.
    rewrite (eval_conditions_hold_state _ _ _ _ _ Hhold (cond :: after) e eq_refl).
    rewrite eval_conditions_step by done. cbn. by rewrite Hev, Hv.
Qed.

Lemma condition_is_conjunction_witness :
  let e := Scripted.counting_start in
  _evaluate_expression (VStr "i >= 0; i < 3") e = (Ret true, e)
  /\ _evaluate_expression (VStr "i > 0; zz") e = (Ret false, e).
Proof.
  intros e.
  destruct (condition_is_conjunction "i >= 0; i < 3" e) as [Htrue _].
  destruct (condition_is_conjunction "i > 0; zz" e) as [_ Hfalse].
  split.
  - rewrite <- (set_objects_same e) at 2. apply (Htrue (objects e) (variables e)).
    eapply hold_true; [reflexivity|vm_compute; reflexivity|reflexivity|].
    eapply hold_true; [reflexivity|vm_compute; reflexivity|reflexivity|].
    apply hold_done.
  - rewrite <- (set_objects_same e) at 2.
    apply (Hfalse [] "i > 0" ["zz"] (objects e) (variables e) (objects e) (variables e)
             (VBool false)).
    + reflexivity.
    + apply hold_done.
    + reflexivity.
    + vm_compute. reflexivity.
    + reflexivity.
Defined.

(** ** References to variables *)

Lemma string_append_assoc (a b c : string) :
  ((a ++ b) ++ c)%string = (a ++ (b ++ c))%string.
Proof.
  induction a as [|x a IH]; [reflexivity|].
  change (String x ((a ++ b) ++ c) = String x (a ++ (b ++ c)))%string. by rewrite IH.
Qed.

Lemma string_append_nil_r (a : string) : (a ++ EmptyString)%string = a.
Proof.
  induction a as [|x a IH]; [reflexivity|].
  change (String x (a ++ EmptyString) = String x a)%string. by rewrite IH.
Qed.

Lemma string_rev_onto_acc (s : string) :
  forall acc, string_rev_onto s acc = (string_rev s ++ acc)%string.
Proof.
  unfold string_rev.
  induction s as [|c s IH]; intros acc; simpl; [done|].
  rewrite (IH (String c acc)), (IH (String c EmptyString)).
  by rewrite string_append_assoc.
Qed.

Lemma string_rev_app (a b : string) :
  string_rev (a ++ b)%string = (string_rev b ++ string_rev a)%string.
Proof.
  induction a as [|c a IH]; simpl.
  - by rewrite string_append_nil_r.
  - unfold string_rev. simpl. rewrite !(string_rev_onto_acc _ (String c EmptyString)).
    by rewrite IH, string_append_assoc.
Qed.

Lemma string_rev_involutive (s : string) : string_rev (string_rev s) = s.
Proof.
  induction s as [|c s IH]; [done|].
  change (String c s) with (String c EmptyString ++ s)%string at 1.
  by rewrite string_rev_app, string_rev_app, IH.
Qed.

(** X12.  A value written [{{name}}] is a reference: [_parse_value]
    returns what the variable [name] holds, blanks around the name
    ignored, and [None] when there is no such variable.  It is never read
    as a number or kept as text, whatever the name, and the runtime's
    [int] and [float] are not consulted. *)
Theorem parse_value_reference `{Platform} (name : string) (e : engine) :
  _parse_value (VStr ("{{" ++ name ++ "}}")) e = (Ret (current e (str_strip name)), e).
Proof.
  unfold _parse_value.
  assert (ends_with "}}" ("{{" ++ name ++ "}}") = true) as ->.
  { unfold ends_with.
    change ("{{" ++ name ++ "}}")%string with ("{{" ++ (name ++ "}}"))%string.
    by rewrite !string_rev_app. }
  assert (starts_with "{{" ("{{" ++ name ++ "}}") = true) as -> by reflexivity.
  cbn [andb].
  assert (string_rev (string_drop 2 (string_rev (string_drop 2 ("{{" ++ name ++ "}}"))))
          = name) as ->; [|reflexivity].
  change (string_drop 2 ("{{" ++ name ++ "}}")) with (name ++ "}}")%string.
  rewrite string_rev_app.
  change (string_drop 2 (string_rev "}}" ++ string_rev name)) with (string_rev name).
  apply string_rev_involutive.
Qed.

(** ** Clicks *)

Section Clicks.
Context `{Platform}.

Lemma taps_after_tap (tr : list call) (x y : value) :
  filter (fun c => is_tap c = true) (tr ++ [CTap x y])
  = filter (fun c => is_tap c = true) tr ++ [CTap x y].
Proof. by rewrite filter_app. Qed.

Lemma tapped_none e0 (r : outcome unit) e :
  taps e = taps e0 -> r <> Ret tt -> tapped_once e0 r e.
Proof. intros Htaps Hr. split; [done|by left]. Qed.

Lemma tap_position_once t final_x final_y e0 e :
  taps e = taps e0 ->
  post (tap_position t final_x final_y) e (tapped_once e0).
Proof.
  intros Htaps. unfold tap_position.
  apply post_bind, post_log. intros out.
  apply post_bind, post_adb_call. cbv zeta.
  destruct (adb_tap final_x final_y (env (set_stdout out e))) as [[[] message] w];
    cbn [fst snd]; [apply post_ret|apply post_raise];
    unfold tapped_once, taps; cbn; rewrite taps_after_tap; fold (taps e);
    rewrite Htaps; split; eauto.
Qed.

Lemma click_taps_once_post t e : post (_handle_click t) e (tapped_once e).
Proof.
  unfold _handle_click.
  apply post_bind, post_gets. apply post_bind, post_gets.
  match goal with |- post (if ?b then _ else _) _ _ => destruct b end.
  - (* coordinates alone *)
    apply post_bind, post_log. intros out.
    apply post_bind, post_adb_call. cbv zeta.
    destruct (adb_tap (task_get t "x") (task_get t "y") (env (set_stdout out e)))
      as [[[] message] w];
      cbn [fst snd]; [apply post_ret|apply post_raise];
      unfold tapped_once, taps; cbn; rewrite taps_after_tap; split; eauto.
  - (* recognition first *)
    apply post_bind, post_log. intros out.
    apply post_bind, post_gets.
    apply post_bind, post_adb_call. cbv zeta.
    match goal with
    | |- context [adb_screenshot ?p ?w] =>
        destruct (adb_screenshot p w) as [[[] message] w1]
    end; cbn [fst snd negb].
    2: { apply post_raise. apply tapped_none; [|done].
         unfold taps. cbn. apply taps_after_screenshot. }
    apply post_bind, post_ask.
    match goal with
    | |- context [img_load_image ?p ?w] =>
        destruct (img_load_image p w) as [[source_img|] w2]
    end; cbn [fst snd].
    2: { apply post_raise. apply tapped_none; [|done].
         unfold taps. cbn. apply taps_after_screenshot. }
    apply post_bind.
    match goal with
    | |- post ?m _ _ => assert (keeps taps m) as Hblock by frame
    end.
    eapply post_keeps; [exact Hblock|].
    intros r e2 Htaps.
    assert (taps e2 = taps e) as Hsame.
    { rewrite Htaps. unfold taps. cbn. apply taps_after_screenshot. }
    destruct r as [[[final_x final_y]|]|x|].
    + by apply tap_position_once.
    + apply post_raise. by apply tapped_none.
    + by apply tapped_none.
    + by apply tapped_none.
Qed.

End Clicks.

(** X13.  A click taps once.  Whatever the task says (coordinates, a
    text to find, an image to match, or nothing usable), [_handle_click]
    has made exactly one tap when it returns, and when it raises it has
    made one tap at most: a recognition that fails is never followed by a
    tap, and no click taps twice. *)
Theorem click_taps_once `{Platform} (t : task) (e : engine) :
  let r := fst (_handle_click t e) in
  let e' := snd (_handle_click t e) in
  (r = Ret tt -> exists x y, taps e' = taps e ++ [CTap x y])
  /\ (taps e' = taps e \/ exists x y, taps e' = taps e ++ [CTap x y]).
Proof. exact (click_taps_once_post t e). Qed.

Lemma click_taps_once_witness :
  let t := Scripted.task_of [("type", VStr "click"); ("target", VStr "c.png");
                             ("x", VInt 1); ("y", VInt 2)] in
  let e := Scripted.running_engine true ∅ in
  fst (_handle_click t e) = Ret tt
  /\ taps (snd (_handle_click t e)) = [CTap (VInt 300) (VInt 10)].
Proof.
  intros t e.
  destruct (click_taps_once t e) as [Hreturns _].
  assert (fst (_handle_click t e) = Ret tt) as Hret by (vm_compute; reflexivity).
  split; [exact Hret|].
  destruct (Hreturns Hret) as (x & y & Htaps).
  rewrite Htaps.
  assert (last (taps (snd (_handle_click t e))) = Some (CTap (VInt 300) (VInt 10))) as Hlast
    by (vm_compute; reflexivity).
  rewrite Htaps, last_snoc in Hlast. by injection Hlast as ->.
Defined.

(** ** Counting successes *)

Lemma py_eq_at_same_object (depth : nat) (h : heap) (x : nat) :
  py_eq_at depth h (VRef x) (VRef x) = Some true.
Proof. destruct depth; simpl; by rewrite Nat.eqb_refl. Qed.

Lemma py_eq_at_dangling (depth : nat) (x y : nat) :
  Nat.eqb x y = false -> py_eq_at depth ∅ (VRef x) (VRef y) = None.
Proof.
  intros Hxy. destruct depth; simpl; rewrite Hxy; [done|]. by rewrite lookup_empty.
Qed.

(** Keys of the counter dict: what makes two descriptions the same key. *)
Lemma same_key_spec (a b : value) :
  same_key a b =
    match a, b with
    | VRef x, VRef y => Nat.eqb x y
    | VNone, VNone => true
    | VStr s, VStr t => String.eqb s t
    | _, _ =>
        match as_number a, as_number b with
        | Some x, Some y => Qeq_bool x y
        | _, _ => false
        end
    end.
Proof.
  unfold same_key, py_eq.
  destruct a as [| | | | | |x];
    [destruct b; reflexivity..|destruct b as [| | | | | |y]; [reflexivity..|]].
  destruct (Nat.eqb x y) eqn:Hxy.
  - apply Nat.eqb_eq in Hxy. subst. by rewrite py_eq_at_same_object.
  - by rewrite py_eq_at_dangling.
Qed.

Lemma same_key_euclid (a b c : value) :
  same_key a b = true -> same_key a c = true -> same_key b c = true.
Proof.
  rewrite !same_key_spec.
  destruct a as [|ba|na|qa| |sa|xa], b as [|bb|nb|qb| |sb|xb], c as [|bc|nc|qc| |sc|xc];
    cbn [as_number]; try discriminate; try done.
  all: try (intros Hab%Qeq_bool_iff Hac%Qeq_bool_iff; apply Qeq_bool_iff;
            by rewrite <- Hab, <- Hac).
  - intros Hab%String.eqb_eq Hac%String.eqb_eq. subst. apply String.eqb_refl.
  - intros Hab%Nat.eqb_eq Hac%Nat.eqb_eq. subst. apply Nat.eqb_refl.
Qed.

Lemma counts_get_set_same (k : value) (n : Z) (counts : list (value * Z)) :
  same_key k k = true -> counts_get k (counts_set k n counts) = Some n.
Proof.
  intros Hk. induction counts as [|[k' n'] rest IH]; simpl.
  - by rewrite Hk.
  - destruct (same_key k' k) eqn:Hk'; simpl; by rewrite Hk'.
Qed.

Lemma counts_get_set_other (k k0 : value) (n : Z) (counts : list (value * Z)) :
  same_key k k0 = false ->
  counts_get k0 (counts_set k n counts) = counts_get k0 counts.
Proof.
  intros Hother. induction counts as [|[k' n'] rest IH]; simpl.
  - by rewrite Hother.
  - destruct (same_key k' k) eqn:Hk'; simpl.
    + destruct (same_key k' k0) eqn:Hk0; [|done].
      by rewrite (same_key_euclid _ _ _ Hk' Hk0) in Hother.
    + by rewrite IH.
Qed.

Lemma counted_set (k : value) (counts : list (value * Z)) :
  counted (counts_set k (default 0%Z (counts_get k counts) + 1) counts)
  = (counted counts + 1)%Z.
Proof.
  induction counts as [|[k' n'] rest IH]; simpl; [done|].
  destruct (same_key k' k); simpl; [lia|]. rewrite IH. lia.
Qed.

Section Counters.
Context `{Platform}.

Lemma task_success_post (t : task) (e : engine) :
  truthy (objects e) (task_get_or t "enable_timer" (VBool false)) = true ->
  post (_handle_task_success t) e (fun r e' =>
    r = Ret tt ->
    let description := task_get_or t "description" (VStr "未命名任务") in
    counts_get description (success_counts e')
    = Some (default 0 (counts_get description (success_counts e)) + 1)%Z
    /\ (forall other, same_key description other = false ->
          counts_get other (success_counts e') = counts_get other (success_counts e))
    /\ counted (success_counts e') = (counted (success_counts e) + 1)%Z
    /\ last_success_time e' = Some (fst (time_time (env e)))).
Proof.
  intros Htimed. unfold _handle_task_success.
  apply post_bind, post_gets. rewrite Htimed. cbn [negb].
  set (description := task_get_or t "description" (VStr "未命名任务")).
  assert (same_key description description = true ->
          post (let* counts := gets success_counts in
                modify (set_success_counts
                          (counts_set description
                             (default 0%Z (counts_get description counts) + 1) counts)) ;;
                let* now := time_now in
                let* last := gets last_success_time in
                match last with
                | Some before =>
                    print [Text "计时器: 任务 '"; Show description;
                           Text "' 与上一个成功任务间隔 ";
                           Fixed2 (now - before); Text " 秒"]
                | None =>
                    print [Text "计时器: 任务 '"; Show description;
                           Text "' 的计时器已启动。"]
                end ;;
                modify (set_last_success_time (Some now))) e
            (fun r e' =>
               r = Ret tt ->
               counts_get description (success_counts e')
               = Some (default 0 (counts_get description (success_counts e)) + 1)%Z
               /\ (forall other, same_key description other = false ->
                     counts_get other (success_counts e')
                     = counts_get other (success_counts e))
               /\ counted (success_counts e') = (counted (success_counts e) + 1)%Z
               /\ last_success_time e' = Some (fst (time_time (env e))))) as Hmain.
  { intros Hself.
    apply post_bind, post_gets. apply post_bind, post_modify.
    apply post_bind, post_ask. apply post_bind, post_gets.
    cbn [last_success_time set_env set_success_counts].
    assert (forall m : message,
              post (print m ;;
                    modify (set_last_success_time (Some (fst (time_time (env e))))))
                (set_env (snd (time_time (env e)))
                   (set_success_counts
                      (counts_set description
                         (default 0%Z (counts_get description (success_counts e)) + 1)
                         (success_counts e)) e))
                (fun r e' =>
                   r = Ret tt ->
                   counts_get description (success_counts e')
                   = Some (default 0 (counts_get description (success_counts e)) + 1)%Z
                   /\ (forall other, same_key description other = false ->
                         counts_get other (success_counts e')
                         = counts_get other (success_counts e))
                   /\ counted (success_counts e') = (counted (success_counts e) + 1)%Z
                   /\ last_success_time e' = Some (fst (time_time (env e))))) as Hprint.
    { intros m. apply post_bind, post_print. apply post_modify. intros _. cbn.
      split; [by apply counts_get_set_same|].
      split; [intros other Hother; by apply counts_get_set_other|].
      split; [apply counted_set|done]. }
    destruct (last_success_time e); apply Hprint. }
  destruct description as [| | | | | |l] eqn:Hd.
  7: { apply post_raise. done. }
  5: { apply post_no_result. done. }
  all: apply Hmain; by rewrite same_key_spec; cbn;
    rewrite ?String.eqb_refl; try (apply Qeq_bool_iff; reflexivity).
Qed.

End Counters.

(** X14.  Counting a success.  For a task with [enable_timer],
    [_handle_task_success], when it returns, has added exactly one to the
    counter of the task's description (starting it at one), has left every
    other counter as it was, so that the counters sum to one more than
    before, and has noted the time it read off the clock as the time of the
    last success.  Descriptions that compare equal share a counter. *)
Theorem success_is_counted_once `{Platform} (t : task) (e e' : engine) :
  let description := task_get_or t "description" (VStr "未命名任务") in
  truthy (objects e) (task_get_or t "enable_timer" (VBool false)) = true ->
  _handle_task_success t e = (Ret tt, e') ->
  counts_get description (success_counts e')
  = Some (default 0 (counts_get description (success_counts e)) + 1)%Z
  /\ (forall other, same_key description other = false ->
        counts_get other (success_counts e') = counts_get other (success_counts e))
  /\ counted (success_counts e') = (counted (success_counts e) + 1)%Z
  /\ last_success_time e' = Some (fst (time_time (env e))).
Proof.
  intros description Htimed Hrun.
  pose proof (task_success_post t e Htimed) as Hpost. unfold post in Hpost.
  rewrite Hrun in Hpost. by apply Hpost.
Qed.

Lemma success_is_counted_once_witness :
  let t := Scripted.task_of [("description", VInt 1); ("enable_timer", VBool true)] in
  let e := set_success_counts [(VBool true, 4%Z); (VStr "other", 2%Z)]
             (Scripted.running_engine true ∅) in
  let e' := snd (_handle_task_success t e) in
  counts_get (VInt 1) (success_counts e') = Some 5%Z
  /\ counts_get (VStr "other") (success_counts e') = Some 2%Z
  /\ counted (success_counts e') = 7%Z.
Proof.
  intros t e e'.
  destruct (success_is_counted_once t e e') as (Hone & Hother & Hsum & _).
  - reflexivity.
  - unfold e'.
    assert (fst (_handle_task_success t e) = Ret tt) as Hret by (vm_compute; reflexivity).
    destruct (_handle_task_success t e) as [r e1]. cbn [fst snd] in *. by rewrite Hret.
  - split; [exact Hone|]. split; [|exact Hsum].
    rewrite (Hother (VStr "other")); reflexivity.
Defined.

(** ** The summary of a run *)

(** X15.  After a run there is a summary.  [run] stamps its start with
    the first reading of the clock, and on a queue of tasks none of whose
    texts is evaluated (no [pre_condition], [post_action] or
    [on_fail_action]) nothing moves the stamp.  However such a run ended,
    [get_run_summary] then returns the summary proper, never the sentence
    for an engine that has not run: the time elapsed since the stamp, and
    one line for each description counted.  It changes nothing but the
    clock it reads. *)
Theorem summary_after_run `{Platform} (fuel : nat) (progress_callback : bool) (e : engine) :
  Forall eval_free (task_queue e) ->
  let e' := snd (run fuel progress_callback e) in
  let start := fst (time_time (env e)) in
  let now := fst (time_time (env e')) in
  run_start_time e' = Some start
  /\ get_run_summary e'
     = (Ret (join_with newline (summary_of (now - start) (success_counts e'))),
        set_env (snd (time_time (env e'))) e').
Proof.
  intros Hfree. cbv zeta.
  assert (run_start_time (snd (run fuel progress_callback e))
          = Some (fst (time_time (env e)))) as Hstamp.
  { pose proof (kept_by_run fuel progress_callback e Hfree) as Hkept.
    unfold kept_by_tasks in Hkept. congruence. }
  split; [exact Hstamp|].
  unfold get_run_summary. unfold bind at 1. unfold gets at 1.
  rewrite Hstamp.
  unfold bind, time_now, ask, gets, ret.
  by destruct (time_time (env (snd (run fuel progress_callback e)))).
Qed.

Lemma summary_after_run_witness :
  let t := Scripted.task_of [("type", VStr "wait"); ("duration", VInt 2);
                             ("description", VStr "pause"); ("enable_timer", VBool true)] in
  let e := set_task_queue [t; t] (Scripted.fresh_engine true ∅) in
  Forall eval_free (task_queue e)
  /\ run_start_time (snd (run 5 false e)) = Some (inject_Z 0)
  /\ fst (get_run_summary (snd (run 5 false e)))
     = Ret [Text "--- 任务执行摘要 ---"; Text newline;
            Text "总耗时: "; Fixed2 (fst (time_time (env (snd (run 5 false e)))) - inject_Z 0);
            Text " 秒"; Text newline;
            Text "各计时任务成功次数:"; Text newline;
            Text "  - "; Show (VStr "pause"); Text ": "; Show (VInt 2); Text " 次";
            Text newline; Text "--------------------"].
Proof.
  intros t e.
  assert (Forall eval_free (task_queue e)) as Hfree.
  { assert (eval_free t) by (repeat split; reflexivity).
    repeat (apply Forall_cons; split; [done|]). apply Forall_nil_2. }
  destruct (summary_after_run 5 false e Hfree) as [Hstamp Hsummary].
  split; [exact Hfree|]. split; [exact Hstamp|].
  rewrite Hsummary. cbn [fst].
  assert (success_counts (snd (run 5 false e)) = [(VStr "pause", 2%Z)]) as ->
    by (vm_compute; reflexivity).
  reflexivity.
Defined.

(** ** Template matching and text search *)

(** X16.  The threshold of template matching.  A template found at some
    threshold is found, at the same point, at every lower threshold: its
    score is at least the threshold (a score equal to it counts), and the
    point returned does not depend on the threshold.  For a template of
    positive size the point lies inside the rectangle matched. *)
Theorem find_template_threshold (threshold lower : Q) (matching : option (Q * (Z * Z)))
    (shape : Z * Z) (p : Z * Z) :
  ImageProcessor.find_template threshold matching shape = Some p ->
  (lower <= threshold)%Q ->
  ImageProcessor.find_template lower matching shape = Some p
  /\ exists max_val max_loc,
       matching = Some (max_val, max_loc)
       /\ (threshold <= max_val)%Q
       /\ ((0 < fst shape)%Z -> (0 < snd shape)%Z ->
           (fst max_loc <= fst p < fst max_loc + snd shape)%Z
           /\ (snd max_loc <= snd p < snd max_loc + fst shape)%Z).
Proof.
  unfold ImageProcessor.find_template.
  destruct matching as [[max_val [x y]]|]; [|discriminate].
  destruct (Qle_bool threshold max_val) eqn:Hscore; [|discriminate].
  destruct shape as [h w]. cbn [fst snd]. intros [= <-] Hlower.
  apply Qle_bool_iff in Hscore.
  assert (Qle_bool lower max_val = true) as ->
    by (apply Qle_bool_iff; by apply (Qle_trans _ threshold)).
  split; [done|]. exists max_val, (x, y). split; [done|]. split; [done|].
  cbn [fst snd]. intros Hh Hw.
  pose proof (Z.div_pos w 2 ltac:(lia) ltac:(lia)).
  pose proof (Z.div_lt_upper_bound w 2 w ltac:(lia) ltac:(lia)).
  pose proof (Z.div_pos h 2 ltac:(lia) ltac:(lia)).
  pose proof (Z.div_lt_upper_bound h 2 h ltac:(lia) ltac:(lia)).
  lia.
Qed.

Lemma find_template_threshold_witness :
  ImageProcessor.find_template (7 # 10) (Some (8 # 10, (100, 40)%Z)) (20, 30)%Z
  = Some (115, 50)%Z.
Proof.
  destruct (find_template_threshold (8 # 10) (7 # 10) (Some (8 # 10, (100, 40)%Z))
              (20, 30)%Z (115, 50)%Z) as [Hlower _].
  - reflexivity.
  - by apply Qle_bool_iff.
  - exact Hlower.
Defined.

Section TextSearch.
Import ImageProcessor.

(** The loop, from where it stands. *)
Lemma scan_rows_readable (target_text : string) (rows : list ocr_row) :
  Forall readable rows ->
  forall texts found printed,
    scan_rows target_text rows texts found printed
    = inr (texts ++ texts_of rows,
           match found with
           | Some p => Some p
           | None => center <$> List.find (answers target_text) rows
           end,
           printed ++ match found, List.find (answers target_text) rows with
                      | None, Some row => [found_line target_text (center row)]
                      | _, _ => []
                      end).
Proof.
  induction 1 as [|row rows [confidence Hconf] _ IH]; intros texts found printed.
  - destruct found; cbn; by rewrite !app_nil_r.
  - cbn [scan_rows]. rewrite Hconf.
    assert (texts_of (row :: rows)
            = (if str_is_empty (str_strip (text row)) then []
               else [str_strip (text row)]) ++ texts_of rows) as ->.
    { unfold texts_of. simpl. by destruct (str_is_empty (str_strip (text row))). }
    assert ((if str_is_empty (str_strip (text row)) then texts
             else texts ++ [str_strip (text row)])
            = texts ++ (if str_is_empty (str_strip (text row)) then []
                        else [str_strip (text row)])) as ->
      by (destruct (str_is_empty (str_strip (text row))); by rewrite ?app_nil_r).
    cbn [List.find]. unfold answers at 1 3. rewrite Hconf.
    destruct found as [p|]; cbn [is_Some negb].
    + rewrite bool_decide_eq_true_2 by eauto. rewrite andb_false_r.
      rewrite IH. by rewrite <- app_assoc.
    + rewrite bool_decide_eq_false_2 by (by intros [? ?]). rewrite andb_true_r.
      destruct ((60 <? confidence)%Z && str_in target_text (str_strip (text row))).
      * rewrite IH. by rewrite <- !app_assoc.
      * rewrite IH. by rewrite <- app_assoc.
Qed.

Lemma scan_rows_unreadable (target_text : string) (before : list ocr_row) (row : ocr_row)
    (after : list ocr_row) (reason : string) :
  Forall readable before -> conf row = inl reason ->
  forall texts found printed,
    scan_rows target_text (before ++ row :: after) texts found printed
    = inl (reason,
           printed ++ match found, List.find (answers target_text) before with
                      | None, Some r => [found_line target_text (center r)]
                      | _, _ => []
                      end).
Proof.
  intros Hbefore Hrow.
  induction Hbefore as [|r rs [confidence Hconf] _ IH]; intros texts found printed.
  - simpl. rewrite Hrow. destruct found; by rewrite app_nil_r.
  - simpl. rewrite Hconf. unfold answers at 1. rewrite Hconf.
    destruct found as [p|]; cbn [is_Some negb].
    + rewrite bool_decide_eq_true_2 by eauto. rewrite andb_false_r. by rewrite IH.
    + rewrite bool_decide_eq_false_2 by (by intros [? ?]). rewrite andb_true_r.
      destruct ((60 <? confidence)%Z && str_in target_text (str_strip (text r))).
      * rewrite IH. by rewrite <- app_assoc.
      * by rewrite IH.
Qed.

End TextSearch.

(** X17.  What the text search returns.  When every confidence can be
    read, the location is the centre of the first row, in the order of the
    data, whose confidence exceeds 60 and whose text contains the target
    (no row at 60 or below answers, whatever it reads); the text returned
    joins the texts of all the rows that have one, confident or not; and
    one line is printed when something is found.  When a confidence cannot
    be read the search fails as a whole, also when a row before it had
    answered: no location, and the error as text; the line printed for
    the row that had answered stays printed, and the error is printed
    after it. *)
Theorem text_search_finds_first (target_text : string) (rows : list ImageProcessor.ocr_row) :
  (Forall readable rows ->
     ImageProcessor.find_text_location (ImageProcessor.OcrData rows) target_text
     = (ImageProcessor.center <$> List.find (answers target_text) rows,
        ImageProcessor.str_join " " (texts_of rows),
        match List.find (answers target_text) rows with
        | Some row => [ImageProcessor.found_line target_text (ImageProcessor.center row)]
        | None => []
        end))
  /\ (forall before row after reason,
        rows = before ++ row :: after ->
        Forall readable before -> ImageProcessor.conf row = inl reason ->
        ImageProcessor.find_text_location (ImageProcessor.OcrData rows) target_text
        = (None, ("OCR文本定位失败: " ++ reason)%string,
           match List.find (answers target_text) before with
           | Some r => [ImageProcessor.found_line target_text (ImageProcessor.center r)]
           | None => []
           end ++ [[Text ("OCR文本定位失败: " ++ reason)%string]])).
Proof.
  split.
  - intros Hrows. unfold ImageProcessor.find_text_location.
    by rewrite (scan_rows_readable target_text rows Hrows [] None []).
  - intros before row after reason -> Hbefore Hrow.
    unfold ImageProcessor.find_text_location.
    by rewrite (scan_rows_unreadable target_text before row after reason Hbefore Hrow).
Qed.

Lemma text_search_finds_first_witness :
  let row (s : string) (c : string + Z) (x : Z) := ImageProcessor.OcrRow s c x 10 40 20 in
  let rows := [row " Start " (inr 60%Z) 0%Z; row "" (inr 95%Z) 50%Z;
               row "QuickStart" (inr 91%Z) 100%Z; row "Start" (inr 99%Z) 200%Z] in
  ImageProcessor.find_text_location (ImageProcessor.OcrData rows) "Start"
  = (Some (120, 20)%Z, "Start QuickStart Start",
     [ImageProcessor.found_line "Start" (120, 20)%Z])
  /\ ImageProcessor.find_text_location
       (ImageProcessor.OcrData (rows ++ [row "x" (inl "invalid literal") 0%Z])) "Start"
     = (None, "OCR文本定位失败: invalid literal",
        [ImageProcessor.found_line "Start" (120, 20)%Z;
         [Text "OCR文本定位失败: invalid literal"]]).
Proof.
  intros row rows.
  assert (Forall readable rows) as Hrows
    by (repeat (apply Forall_cons; split; [by eexists|]); apply Forall_nil_2).
  destruct (text_search_finds_first "Start" rows) as [Hfound _].
  destruct (text_search_finds_first "Start"
              (rows ++ [row "x" (inl "invalid literal") 0%Z])) as [_ Hlost].
  split.
  - rewrite (Hfound Hrows). reflexivity.
  - rewrite (Hlost rows (row "x" (inl "invalid literal") 0%Z) [] "invalid literal"
               eq_refl Hrows eq_refl).
    reflexivity.
Defined.

(** ** The jump map pairs a LOOP with the END_LOOP of its body *)

Lemma loop_is_not_end_loop (t : task) : is_loop t = true -> is_end_loop t = false.
Proof.
  intros Hl. destruct (is_end_loop t) eqn:He; [|done].
  by rewrite (loop_not_end_loop t He) in Hl.
Qed.

(** A well-nested stretch writes no entry below its first index. *)
Lemma scan_nested_keeps (ts : list task) :
  well_nested ts ->
  forall rest i stack jm,
    exists jm',
      scan_loops (ts ++ rest) i stack jm = scan_loops rest (i + length ts) stack jm'
      /\ forall k, (k < i)%nat -> jm' !! k = jm !! k.
Proof.
  induction 1 as [|t ts Hl He _ IH|o body c rest' Ho Hc _ IHb _ IHr];
    intros rest i stack jm.
  - exists jm. split; [|done]. simpl. by rewrite Nat.add_0_r.
  - destruct (IH rest (S i) stack jm) as (jm' & Hscan & Hkeys).
    exists jm'. split.
    + simpl app. rewrite scan_loops_cons, Hl, He, Hscan. f_equal. simpl. lia.
    + intros k Hk. apply Hkeys. lia.
  - destruct (IHb ((c :: rest') ++ rest) (S i) (i :: stack) jm) as (jm1 & Hbody & Hkeys1).
    destruct (IHr rest (S (S i + length body)) stack
                (<[(S i + length body)%nat := i]> (<[i := (S i + length body)%nat]> jm1)))
      as (jm2 & Hrest & Hkeys2).
    exists jm2. split.
    + replace ((o :: body ++ c :: rest') ++ rest)
        with (o :: body ++ (c :: rest') ++ rest)
        by (simpl; by rewrite <- app_assoc).
      rewrite scan_loops_cons, Ho, Hbody. simpl app.
      rewrite scan_loops_cons, (loop_not_end_loop c Hc), Hc, Hrest.
      f_equal. simpl. rewrite length_app. simpl. lia.
    + intros k Hk. rewrite Hkeys2 by lia.
      rewrite lookup_insert_ne by lia. rewrite lookup_insert_ne by lia.
      apply Hkeys1. lia.
Qed.

(** One loop: its two entries are in the map when the scan leaves it. *)
Lemma scan_one_loop (o c : task) (body rest : list task) :
  is_loop o = true -> is_end_loop c = true -> well_nested body ->
  forall i stack jm,
    exists jm',
      scan_loops (o :: body ++ c :: rest) i stack jm
      = scan_loops rest (S (S i + length body)) stack jm'
      /\ jm' !! i = Some (S i + length body)%nat
      /\ jm' !! (S i + length body)%nat = Some i.
Proof.
  intros Ho Hc Hbody i stack jm.
  destruct (scan_nested_keeps body Hbody (c :: rest) (S i) (i :: stack) jm)
    as (jm1 & Hscan & _).
  eexists. split; [|split].
  - rewrite scan_loops_cons, Ho, Hscan.
    rewrite scan_loops_cons, (loop_not_end_loop c Hc), Hc. reflexivity.
  - rewrite lookup_insert_ne by lia. by rewrite lookup_insert_eq.
  - by rewrite lookup_insert_eq.
Qed.

(** Entries below the index of the scan whose key is not an open LOOP are
    final. *)
Lemma scan_keeps_entries (ts : list task) :
  forall i stack jm jmf,
    scan_loops ts i stack jm = inr jmf ->
    forall k v, jm !! k = Some v -> (k < i)%nat -> k ∉ stack -> jmf !! k = Some v.
Proof.
  induction ts as [|t ts IH]; intros i stack jm jmf Hscan k v Hk Hlt Hnot.
  - simpl in Hscan. destruct stack; [|discriminate]. by injection Hscan as <-.
  - rewrite scan_loops_cons in Hscan.
    destruct (is_loop t).
    + apply (IH _ _ _ _ Hscan); [done|lia|].
      intros [->|Hin]%elem_of_cons; [lia|done].
    + destruct (is_end_loop t).
      * destruct stack as [|l stack]; [discriminate|].
        apply (IH _ _ _ _ Hscan); [|lia|].
        -- rewrite lookup_insert_ne by lia. rewrite lookup_insert_ne; [done|].
           intros ->. apply Hnot. by left.
        -- intros Hin. apply Hnot. by right.
      * apply (IH _ _ _ _ Hscan); [done|lia|done].
Qed.

(** A scan that succeeds has gone through every prefix, and the LOOPs left
    open lie before the index reached. *)
Lemma scan_prefix (pre rest : list task) :
  forall i stack jm jmf,
    scan_loops (pre ++ rest) i stack jm = inr jmf ->
    Forall (fun l => (l < i)%nat) stack ->
    exists stack' jm',
      scan_loops rest (i + length pre) stack' jm' = inr jmf
      /\ Forall (fun l => (l < i + length pre)%nat) stack'.
Proof.
  induction pre as [|t pre IH]; intros i stack jm jmf Hscan Hstack.
  - exists stack, jm. simpl. rewrite Nat.add_0_r. done.
  - simpl app in Hscan. rewrite scan_loops_cons in Hscan.
    assert (forall stack' jm',
              scan_loops (pre ++ rest) (S i) stack' jm' = inr jmf ->
              Forall (fun l => (l < S i)%nat) stack' ->
              exists stack'' jm'',
                scan_loops rest (i + length (t :: pre)) stack'' jm'' = inr jmf
                /\ Forall (fun l => (l < i + length (t :: pre))%nat) stack'') as Hnext.
    { intros stack' jm' Hs Hst.
      destruct (IH _ _ _ _ Hs Hst) as (stack'' & jm'' & Hres & Hlt).
      exists stack'', jm''. simpl length.
      replace (i + S (length pre))%nat with (S i + length pre)%nat by lia. done. }
    assert (Forall (fun l => (l < S i)%nat) stack) as Hweak
      by (eapply Forall_impl; [exact Hstack|]; simpl; lia).
    destruct (is_loop t).
    + apply (Hnext _ _ Hscan). apply Forall_cons. split; [lia|done].
    + destruct (is_end_loop t).
      * destruct stack as [|l stack]; [discriminate|].
        apply (Hnext _ _ Hscan). by apply Forall_cons in Hweak as [_ ?].
      * by apply (Hnext _ _ Hscan).
Qed.

Lemma jump_map_pairs_body (pre body rest : list task) (o c : task) (jump_map : gmap nat nat) :
  is_loop o = true -> is_end_loop c = true -> well_nested body ->
  build_jump_map (pre ++ o :: body ++ c :: rest) = inr jump_map ->
  jump_map !! length pre = Some (length pre + length body + 1)%nat
  /\ jump_map !! (length pre + length body + 1)%nat = Some (length pre).
Proof.
  intros Ho Hc Hbody Hbuild. unfold build_jump_map in Hbuild.
  destruct (scan_prefix pre _ 0%nat [] ∅ jump_map Hbuild (Forall_nil_2 _))
    as (stack & jm & Hscan & Hstack).
  rewrite Nat.add_0_l in Hscan.
  destruct (scan_one_loop o c body rest Ho Hc Hbody (length pre) stack jm)
    as (jm' & Hloop & Hopen & Hclose).
  rewrite Hloop in Hscan.
  assert (forall k, (length pre <= k)%nat -> k ∉ stack) as Hfresh.
  { intros k Hk Hin.
    pose proof (proj1 (Forall_forall _ _) Hstack k Hin). simpl in *. lia. }
  replace (length pre + length body + 1)%nat with (S (length pre) + length body)%nat by lia.
  split.
  - apply (scan_keeps_entries _ _ _ _ _ Hscan); [done|lia|apply Hfresh; lia].
  - apply (scan_keeps_entries _ _ _ _ _ Hscan); [done|lia|apply Hfresh; lia].
Qed.

(** X18.  The jump map pairs a LOOP with the END_LOOP that closes its
    body.  In a queue the builder accepts, a LOOP followed by a
    well-nested body and an END_LOOP is mapped to the index of that
    END_LOOP, and the END_LOOP back to the LOOP, wherever in the queue (and
    however deep in other loops) the three stand. *)
Theorem jump_map_pairs_loop_with_its_end (pre body rest : list task) (o c : task)
    (jump_map : gmap nat nat) :
  is_loop o = true -> is_end_loop c = true -> well_nested body ->
  build_jump_map (pre ++ o :: body ++ c :: rest) = inr jump_map ->
  jump_map !! length pre = Some (length pre + length body + 1)%nat
  /\ jump_map !! (length pre + length body + 1)%nat = Some (length pre).
Proof. apply jump_map_pairs_body. Qed.

Lemma jump_map_pairs_loop_with_its_end_witness :
  let loop := Scripted.task_of [("type", VStr "LOOP")] in
  let end_loop := Scripted.task_of [("type", VStr "END_LOOP")] in
  let tap := Scripted.stuck_tap [] in
  exists jump_map,
    build_jump_map ([loop; tap] ++ loop :: [tap; tap] ++ end_loop :: [end_loop])
    = inr jump_map
    /\ jump_map !! 2%nat = Some 5%nat /\ jump_map !! 5%nat = Some 2%nat.
Proof.
  intros loop end_loop tap.
  destruct (build_jump_map ([loop; tap] ++ loop :: [tap; tap] ++ end_loop :: [end_loop]))
    as [x|jump_map] eqn:Hbuild; [discriminate Hbuild|].
  exists jump_map. split; [done|].
  apply (jump_map_pairs_loop_with_its_end [loop; tap] [tap; tap] [end_loop] loop end_loop);
    [reflexivity|reflexivity| |exact Hbuild].
  apply wn_plain; [reflexivity|reflexivity|].
  apply wn_plain; [reflexivity|reflexivity|apply wn_nil].
Defined.

(** ** The involution of the jump map *)

(** In a well-nested sequence every LOOP opens a well-nested body that an
    END_LOOP closes. *)
Lemma well_nested_loop_at (tasks : list task) :
  well_nested tasks ->
  forall i o, tasks !! i = Some o -> is_loop o = true ->
    exists pre body c rest,
      tasks = pre ++ o :: body ++ c :: rest /\ length pre = i
      /\ is_end_loop c = true /\ well_nested body.
Proof.
  induction 1 as [|t ts Hl He _ IH|opening body closing rest Ho Hc Hbody IHb Hrest IHr];
    intros i o Hi Hloop.
  - done.
  - destruct i as [|i]; simpl in Hi.
    + injection Hi as ->. by rewrite Hloop in Hl.
    + destruct (IH i o Hi Hloop) as (pre & body & c & rest & -> & <- & Hc & Hbody).
      by exists (t :: pre), body, c, rest.
  - destruct i as [|i]; simpl in Hi.
    + injection Hi as ->. by exists [], body, closing, rest.
    + destruct (decide (i < length body)%nat) as [Hlt|Hge].
      * rewrite lookup_app_l in Hi by done.
        destruct (IHb i o Hi Hloop) as (pre & body' & c & rest' & -> & <- & Hc' & Hbody').
        exists (opening :: pre), body', c, (rest' ++ closing :: rest).
        split; [|done]. simpl. f_equal. rewrite <- app_assoc. simpl. do 2 f_equal.
        by rewrite <- app_assoc.
      * rewrite lookup_app_r in Hi by lia.
        destruct (i - length body)%nat as [|k] eqn:Hk; simpl in Hi.
        -- injection Hi as ->. by rewrite (loop_not_end_loop o Hc) in Hloop.
        -- destruct (IHr k o Hi Hloop) as (pre & body' & c & rest' & -> & <- & Hc' & Hbody').
           exists (opening :: body ++ closing :: pre), body', c, rest'.
           split; [by simpl; rewrite <- app_assoc|].
           split; [|done]. simpl. rewrite length_app. simpl. lia.
Qed.

(** Claim C5.  For every well-nested task sequence the Jump Map Builder
    succeeds, and the map it returns is an involution that pairs matching
    indices: [jump_map[jump_map[i]] = i] at every LOOP and END_LOOP index,
    nothing but these indices is in the map, and the partner of a LOOP is
    the END_LOOP that matches it, the one that closes the well-nested body
    the LOOP opens (so that the pairs never cross). *)
Theorem jump_map_involution (tasks : list task) :
  well_nested tasks ->
  exists jump_map,
    build_jump_map tasks = inr jump_map
    /\ (forall i t, tasks !! i = Some t -> is_control t = true ->
          exists j, jump_map !! i = Some j /\ jump_map !! j = Some i /\ j <> i)
    /\ (forall i j, jump_map !! i = Some j -> (i < j)%nat ->
          exists opening closing,
            tasks !! i = Some opening /\ tasks !! j = Some closing
            /\ is_loop opening = true /\ is_end_loop closing = true)
    /\ (forall i j, jump_map !! i = Some j -> (i < j)%nat ->
          exists pre opening body closing rest,
            tasks = pre ++ opening :: body ++ closing :: rest
            /\ length pre = i /\ j = (i + length body + 1)%nat
            /\ is_loop opening = true /\ is_end_loop closing = true
            /\ well_nested body).
Proof.
  intros Hwn. unfold build_jump_map.
  destruct (scan_loops_well_nested tasks Hwn [] 0%nat [] ∅) as [jm Hscan].
  rewrite app_nil_r in Hscan. simpl in Hscan.
  exists jm. split; [done|].
  pose proof (scan_loops_inv tasks [] [] ∅ jm (NoDup_nil_2) scan_inv_start Hscan)
    as [Hb Hk Hd Hs Hc Hdom].
  simpl in *. split; [|split].
  - intros i t Hi Hctl. destruct (Hc i t Hi Hctl) as [[j Hj]|Hin].
    + exists j. repeat split; [done|by apply Hb|]. intros ->. by apply Hd in Hj.
    + by apply elem_of_nil in Hin.
  - intros i j Hij Hlt. destruct (Hk i j Hij Hlt) as (ta & tb & ?). eauto.
  - intros i j Hij Hlt.
    destruct (Hk i j Hij Hlt) as (opening & closing & Hi & _ & Hloop & _).
    destruct (well_nested_loop_at tasks Hwn i opening Hi Hloop)
      as (pre & body & c & rest & Htasks & Hlen & Hend & Hbody).
    exists pre, opening, body, c, rest.
    assert (build_jump_map (pre ++ opening :: body ++ c :: rest) = inr jm) as Hbuild
      by (rewrite <- Htasks; exact Hscan).
    destruct (jump_map_pairs_body pre body rest opening c jm Hloop Hend Hbody Hbuild)
      as [Hpair _].
    rewrite Hlen, Hij in Hpair. injection Hpair as ->. done.
Qed.

Lemma jump_map_involution_witness :
  let loop := Scripted.task_of [("type", VStr "LOOP")] in
  let end_loop := Scripted.task_of [("type", VStr "END_LOOP")] in
  let nested := [loop; loop; end_loop; end_loop] in
  well_nested nested
  /\ exists jump_map, build_jump_map nested = inr jump_map
       /\ jump_map !! 0%nat = Some 3%nat /\ jump_map !! 3%nat = Some 0%nat
       /\ jump_map !! 1%nat = Some 2%nat /\ jump_map !! 2%nat = Some 1%nat.
Proof.
  intros loop end_loop nested.
  assert (well_nested nested) as Hwn.
  { apply (wn_loop loop [loop; end_loop] end_loop []); try reflexivity.
    - apply (wn_loop loop [] end_loop []); try reflexivity; apply wn_nil.
    - apply wn_nil. }
  split; [exact Hwn|].
  destruct (jump_map_involution _ Hwn) as (jm & Hjm & Hpair & _).
  exists jm. split; [exact Hjm|].
  vm_compute in Hjm. injection Hjm as <-. repeat split; reflexivity.
Defined.

(** ** The main window and the queue *)

Section Highlight.
Import MainWindow.

Lemma search_forward_nested (body : list task) :
  well_nested body ->
  forall rest i level,
    search_forward (body ++ rest) i level
    = search_forward rest (i + Z.of_nat (length body)) level.
Proof.
  induction 1 as [|t ts Hl He _ IH|o b c r Ho Hc _ IHb _ IHr]; intros rest i level.
  - simpl. f_equal. lia.
  - simpl. rewrite Hl, He, IH. f_equal. lia.
  - replace ((o :: b ++ c :: r) ++ rest) with (o :: b ++ c :: r ++ rest)
      by (simpl; by rewrite <- app_assoc).
    cbn [search_forward]. rewrite Ho, IHb.
    cbn [search_forward]. rewrite (loop_not_end_loop c Hc), Hc, IHr.
    f_equal. simpl. rewrite length_app. simpl. lia.
Qed.

Lemma search_backward_nested (body : list task) :
  well_nested body ->
  forall rest i level,
    search_backward (rev body ++ rest) i level
    = search_backward rest (i - Z.of_nat (length body)) level.
Proof.
  induction 1 as [|t ts Hl He _ IH|o b c r Ho Hc _ IHb _ IHr]; intros rest i level.
  - simpl. f_equal. lia.
  - simpl rev. rewrite <- app_assoc. rewrite IH.
    simpl. rewrite He, Hl. f_equal. lia.
  - replace (rev (o :: b ++ c :: r) ++ rest)
      with (rev r ++ c :: rev b ++ o :: rest)
      by (simpl; rewrite rev_app_distr; simpl; by rewrite <- !app_assoc).
    rewrite IHr. cbn [search_backward]. rewrite Hc, IHb.
    cbn [search_backward]. rewrite (loop_is_not_end_loop o Ho), Ho.
    f_equal. simpl. rewrite length_app. simpl. lia.
Qed.

Lemma clicked_loop_rows (pre body rest : list task) (o c : task) :
  is_loop o = true -> is_end_loop c = true -> well_nested body ->
  let queue := pre ++ o :: body ++ c :: rest in
  let rows := map (fun k => (Z.of_nat (length pre) + Z.of_nat k)%Z)
                (seq 0 (length body + 2)) in
  on_task_item_clicked (Z.of_nat (length pre)) queue = rows
  /\ on_task_item_clicked (Z.of_nat (length pre + length body + 1)) queue = rows.
Proof.
  intros Ho Hc Hbody queue rows.
  assert (length queue = (length pre + length body + 2 + length rest)%nat) as Hlen
    by (unfold queue; rewrite length_app; simpl; rewrite length_app; simpl; lia).
  assert (queue !! length pre = Some o) as Hfirst.
  { unfold queue. by apply list_lookup_middle. }
  assert (queue !! (length pre + length body + 1)%nat = Some c) as Hlast.
  { unfold queue. rewrite lookup_app_r by lia.
    replace (length pre + length body + 1 - length pre)%nat with (S (length body)) by lia.
    rewrite lookup_cons. by apply list_lookup_middle. }
  assert (drop (S (length pre)) queue = body ++ c :: rest) as Hafter.
  { unfold queue. rewrite drop_app_ge by lia.
    by replace (S (length pre) - length pre)%nat with 1%nat by lia. }
  assert (take (length pre + length body + 1) queue = pre ++ o :: body) as Hbefore.
  { unfold queue. rewrite take_app_ge by lia.
    replace (length pre + length body + 1 - length pre)%nat with (S (length body)) by lia.
    cbn [take]. rewrite take_app_ge by lia. rewrite Nat.sub_diag. simpl.
    by rewrite app_nil_r. }
  assert (search_forward (body ++ c :: rest) (Z.of_nat (length pre) + 1) 0
          = Z.of_nat (length pre + length body + 1)) as Hforward.
  { rewrite (search_forward_nested body Hbody). cbn [search_forward].
    rewrite (loop_not_end_loop c Hc), Hc. lia. }
  assert (search_backward (rev (pre ++ o :: body))
            (Z.of_nat (length pre + length body + 1) - 1) 0
          = Z.of_nat (length pre)) as Hbackward.
  { replace (rev (pre ++ o :: body)) with (rev body ++ o :: rev pre)
      by (rewrite rev_app_distr; simpl; by rewrite <- app_assoc).
    rewrite (search_backward_nested body Hbody). cbn [search_backward].
    rewrite (loop_is_not_end_loop o Ho), Ho. lia. }
  split.
  - unfold on_task_item_clicked.
    replace (Z.of_nat (length pre) <? 0)%Z with false by (symmetry; apply Z.ltb_ge; lia).
    replace (Z.of_nat (length queue) <=? Z.of_nat (length pre))%Z with false
      by (symmetry; apply Z.leb_gt; lia).
    cbn [orb]. rewrite Nat2Z.id, Hfirst, Ho, Hafter, Hforward.
    replace (Z.of_nat (length pre) =? -1)%Z with false by (symmetry; apply Z.eqb_neq; lia).
    replace (Z.of_nat (length pre + length body + 1) =? -1)%Z with false
      by (symmetry; apply Z.eqb_neq; lia).
    cbn [negb andb]. unfold rows. do 2 f_equal. lia.
  - unfold on_task_item_clicked.
    replace (Z.of_nat (length pre + length body + 1) <? 0)%Z with false
      by (symmetry; apply Z.ltb_ge; lia).
    replace (Z.of_nat (length queue) <=? Z.of_nat (length pre + length body + 1))%Z
      with false by (symmetry; apply Z.leb_gt; lia).
    cbn [orb]. rewrite Nat2Z.id, Hlast, (loop_not_end_loop c Hc), Hc, Hbefore, Hbackward.
    replace (Z.of_nat (length pre) =? -1)%Z with false by (symmetry; apply Z.eqb_neq; lia).
    replace (Z.of_nat (length pre + length body + 1) =? -1)%Z with false
      by (symmetry; apply Z.eqb_neq; lia).
    cbn [negb andb]. unfold rows. do 2 f_equal. lia.
Qed.

End Highlight.

(** X19.  The window highlights the loop the engine runs.  In a queue
    where a LOOP, a well-nested body and an END_LOOP follow one another,
    clicking the LOOP and clicking the END_LOOP highlight the same rows:
    those from the LOOP to the END_LOOP, both included.  These are the
    two rows the jump map of the engine pairs: the search by levels of the
    window and the stack of the engine agree on where a loop ends. *)
Theorem highlight_is_the_loop (pre body rest : list task) (o c : task) :
  is_loop o = true -> is_end_loop c = true -> well_nested body ->
  let queue := pre ++ o :: body ++ c :: rest in
  let first := length pre in
  let last := (length pre + length body + 1)%nat in
  let rows := map (fun k => Z.of_nat (first + k)) (seq 0 (length body + 2)) in
  MainWindow.on_task_item_clicked (Z.of_nat first) queue = rows
  /\ MainWindow.on_task_item_clicked (Z.of_nat last) queue = rows
  /\ (forall jump_map,
        build_jump_map queue = inr jump_map ->
        jump_map !! first = Some last /\ jump_map !! last = Some first).
Proof.
  intros Ho Hc Hbody queue first last rows.
  destruct (clicked_loop_rows pre body rest o c Ho Hc Hbody) as [Hfirst Hlast].
  assert (rows = map (fun k => (Z.of_nat (length pre) + Z.of_nat k)%Z)
                   (seq 0 (length body + 2))) as ->.
  { unfold rows. apply map_ext. intros k. unfold first. lia. }
  unfold first, last.
  split; [exact Hfirst|]. split; [exact Hlast|].
  intros jump_map Hbuild. by apply (jump_map_pairs_body pre body rest o c).
Qed.

Lemma highlight_is_the_loop_witness :
  let loop := Scripted.task_of [("type", VStr "LOOP")] in
  let end_loop := Scripted.task_of [("type", VStr "END_LOOP")] in
  let tap := Scripted.stuck_tap [] in
  let queue := [loop; tap] ++ loop :: [tap; tap] ++ end_loop :: [end_loop] in
  MainWindow.on_task_item_clicked 2 queue = [2; 3; 4; 5]%Z
  /\ MainWindow.on_task_item_clicked 5 queue = [2; 3; 4; 5]%Z.
Proof.
  intros loop end_loop tap queue.
  destruct (highlight_is_the_loop [loop; tap] [tap; tap] [end_loop] loop end_loop)
    as (Hfirst & Hlast & _).
  - reflexivity.
  - reflexivity.
  - apply wn_plain; [reflexivity|reflexivity|].
    apply wn_plain; [reflexivity|reflexivity|apply wn_nil].
  - split; [exact Hfirst|exact Hlast].
Defined.

Section QueueEditing.
Import MainWindow.

Lemma list_pop_middle {A} (l1 l2 : list A) (x : A) :
  list_pop (Z.of_nat (length l1)) (l1 ++ x :: l2) = Some (x, l1 ++ l2).
Proof.
  unfold list_pop.
  replace (Z.of_nat (length l1) <? 0)%Z with false by (symmetry; apply Z.ltb_ge; lia).
  rewrite length_app. cbn [length].
  replace ((0 <=? Z.of_nat (length l1))%Z
           && (Z.of_nat (length l1) <? Z.of_nat (length l1 + S (length l2)))%Z)
    with true
    by (symmetry; apply andb_true_iff; split; [apply Z.leb_le|apply Z.ltb_lt]; lia).
  rewrite Nat2Z.id, (list_lookup_middle l1 l2 x _ eq_refl). cbn.
  by rewrite delete_middle.
Qed.

Lemma list_insert_middle {A} (l1 l2 : list A) (x : A) :
  list_insert (Z.of_nat (length l1)) x (l1 ++ l2) = l1 ++ x :: l2.
Proof.
  unfold list_insert.
  replace (Z.of_nat (length l1) <? 0)%Z with false by (symmetry; apply Z.ltb_ge; lia).
  rewrite length_app.
  replace (Z.min (Z.of_nat (length l1)) (Z.of_nat (length l1 + length l2)))
    with (Z.of_nat (length l1)) by lia.
  by rewrite Nat2Z.id, take_app_length, drop_app_length.
Qed.

(** A task and the one before it: [move_task_up] on the second swaps
    them, [move_task_down] on the first swaps them back. *)
Lemma move_task_up_swaps (l1 l2 : list task) (a b : task) :
  move_task_up (View (l1 ++ a :: b :: l2) (Z.of_nat (length l1) + 1))
  = Some (View (l1 ++ b :: a :: l2) (Z.of_nat (length l1))).
Proof.
  unfold move_task_up. cbn [current_row task_queue].
  replace (0 <? Z.of_nat (length l1) + 1)%Z with true by (symmetry; apply Z.ltb_lt; lia).
  replace (l1 ++ a :: b :: l2) with ((l1 ++ [a]) ++ b :: l2) by (by rewrite <- app_assoc).
  replace (Z.of_nat (length l1) + 1)%Z with (Z.of_nat (length (l1 ++ [a])))
    by (rewrite length_app; simpl; lia).
  rewrite list_pop_middle.
  replace (Z.of_nat (length (l1 ++ [a])) - 1)%Z with (Z.of_nat (length l1))
    by (rewrite length_app; simpl; lia).
  rewrite <- app_assoc. simpl. by rewrite list_insert_middle.
Qed.

Lemma move_task_down_swaps (l1 l2 : list task) (a b : task) :
  move_task_down (View (l1 ++ b :: a :: l2) (Z.of_nat (length l1)))
  = Some (View (l1 ++ a :: b :: l2) (Z.of_nat (length l1) + 1)).
Proof.
  unfold move_task_down. cbn [current_row task_queue].
  rewrite length_app. cbn [length].
  replace ((0 <=? Z.of_nat (length l1))%Z
           && (Z.of_nat (length l1) <? Z.of_nat (length l1 + S (S (length l2))) - 1)%Z)
    with true
    by (symmetry; apply andb_true_iff; split; [apply Z.leb_le|apply Z.ltb_lt]; lia).
  rewrite list_pop_middle.
  replace (l1 ++ a :: l2) with ((l1 ++ [a]) ++ l2) by (by rewrite <- app_assoc).
  replace (Z.of_nat (length l1) + 1)%Z with (Z.of_nat (length (l1 ++ [a])))
    by (rewrite length_app; simpl; lia).
  rewrite list_insert_middle. by rewrite <- app_assoc.
Qed.

(** The task at row [i] and the one before it. *)
Lemma split_at_row {A} (l : list A) (i : nat) :
  (0 < i < length l)%nat ->
  exists l1 a b l2, l = l1 ++ a :: b :: l2 /\ length l1 = (i - 1)%nat.
Proof.
  intros Hi.
  destruct (lookup_lt_is_Some_2 l (i - 1)%nat ltac:(lia)) as [a Ha].
  destruct (lookup_lt_is_Some_2 l i ltac:(lia)) as [b Hb].
  exists (take (i - 1) l), a, b, (drop (S i) l). split.
  - rewrite <- (take_drop_middle l (i - 1) a Ha) at 1. do 2 f_equal.
    replace (S (i - 1)) with i by lia.
    rewrite <- (take_drop_middle (drop i l) 0 b).
    + simpl. by rewrite drop_drop, Nat.add_1_r.
    + rewrite lookup_drop. by rewrite Nat.add_0_r.
  - rewrite length_take. lia.
Qed.

End QueueEditing.

(** X20.  Moving a task up and back down.  With a row selected that has
    a row above it, [move_task_up] swaps the task with the one above and
    selects it in its new place: the queue is a permutation of what it
    was, of the same length, and [move_task_down] from there restores the
    queue and the selection exactly.  On the first row, or with no row
    selected, [move_task_up] changes nothing; on the last row, or with no
    row selected, [move_task_down] changes nothing. *)
Theorem move_up_then_down (v : MainWindow.view) :
  let row := MainWindow.current_row v in
  let queue := MainWindow.task_queue v in
  ((0 < row < Z.of_nat (length queue))%Z ->
     exists v',
       MainWindow.move_task_up v = Some v'
       /\ MainWindow.move_task_down v' = Some v
       /\ MainWindow.current_row v' = (row - 1)%Z
       /\ MainWindow.task_queue v' ≡ₚ queue
       /\ MainWindow.task_queue v' !! Z.to_nat (row - 1) = queue !! Z.to_nat row
       /\ MainWindow.task_queue v' !! Z.to_nat row = queue !! Z.to_nat (row - 1))
  /\ ((row <= 0)%Z -> MainWindow.move_task_up v = Some v)
  /\ ((row < 0 \/ Z.of_nat (length queue) - 1 <= row)%Z ->
      MainWindow.move_task_down v = Some v).
Proof.
  destruct v as [queue row]. cbn [MainWindow.current_row MainWindow.task_queue].
  split; [|split].
  - intros Hrow.
    destruct (split_at_row queue (Z.to_nat row) ltac:(lia)) as (l1 & a & b & l2 & -> & Hl1).
    replace row with (Z.of_nat (length l1) + 1)%Z by lia.
    exists (MainWindow.View (l1 ++ b :: a :: l2) (Z.of_nat (length l1))).
    split; [apply move_task_up_swaps|]. split; [apply move_task_down_swaps|].
    cbn [MainWindow.current_row MainWindow.task_queue].
    split; [lia|]. split; [apply Permutation_app_head, perm_swap|].
    replace (Z.to_nat (Z.of_nat (length l1) + 1 - 1)) with (length l1) by lia.
    replace (Z.to_nat (Z.of_nat (length l1) + 1)) with (S (length l1)) by lia.
    split.
    + rewrite (list_lookup_middle l1 (a :: l2) b _ eq_refl).
      rewrite lookup_app_r by lia.
      by replace (S (length l1) - length l1)%nat with 1%nat by lia.
    + rewrite (list_lookup_middle l1 (b :: l2) a _ eq_refl).
      rewrite lookup_app_r by lia.
      by replace (S (length l1) - length l1)%nat with 1%nat by lia.
  - intros Hrow. unfold MainWindow.move_task_up. cbn.
    by replace (0 <? row)%Z with false by (symmetry; apply Z.ltb_ge; lia).
  - intros Hrow. unfold MainWindow.move_task_down. cbn.
    replace ((0 <=? row)%Z && (row <? Z.of_nat (length queue) - 1)%Z) with false; [done|].
    symmetry. apply andb_false_iff.
    destruct Hrow; [left; apply Z.leb_gt|right; apply Z.ltb_ge]; lia.
Qed.

Lemma move_up_then_down_witness :
  let a := Scripted.task_of [("type", VStr "wait")] in
  let b := Scripted.task_of [("type", VStr "click")] in
  MainWindow.move_task_up (MainWindow.View [a; b] 1) = Some (MainWindow.View [b; a] 0)
  /\ MainWindow.move_task_up (MainWindow.View [a; b] 0) = Some (MainWindow.View [a; b] 0)
  /\ MainWindow.move_task_down (MainWindow.View [a; b] 1) = Some (MainWindow.View [a; b] 1).
Proof.
  intros a b.
  destruct (move_up_then_down (MainWindow.View [a; b] 1)) as (Hmoves & _ & Hlast).
  destruct (move_up_then_down (MainWindow.View [a; b] 0)) as (_ & Hfirst & _).
  split; [|split].
  - destruct Hmoves as (v' & Hup & _); [cbn; lia|].
    rewrite Hup. f_equal.
    assert (MainWindow.move_task_up (MainWindow.View [a; b] 1)
            = Some (MainWindow.View [b; a] 0)) as Hvalue by reflexivity.
    rewrite Hup in Hvalue. by injection Hvalue.
  - apply Hfirst. cbn. lia.
  - apply Hlast. cbn. lia.
Defined.

(** ** The commands of the ADB controller *)

Lemma ws_width_plain (c : ascii) (r : string) :
  plain c = true -> ws_width (String c r) = 0%nat.
Proof.
  unfold plain. intros [Hspace Hascii]%andb_true_iff.
  apply negb_true_iff in Hspace. apply Nat.ltb_lt in Hascii.
  assert (forall lo hi, (128 <= lo)%nat -> byte_in lo hi c = false) as Hlead.
  { intros lo hi Hlo. unfold byte_in. apply andb_false_iff. left.
    apply Nat.leb_gt. lia. }
  unfold ws_width. rewrite Hspace.
  destruct r as [|b [|d r]]; [done| |]; rewrite ?Hlead by lia; done.
Qed.

Lemma split_words_word (w : string) :
  forall word rest,
    all_chars plain w = true ->
    split_words 0 word (w ++ rest)%string = split_words 0 (string_rev_onto w word) rest.
Proof.
  induction w as [|c w IH]; intros word rest Hw; [done|].
  cbn [all_chars] in Hw. apply andb_true_iff in Hw as [Hc Hw].
  change (String c w ++ rest)%string with (String c (w ++ rest)%string).
  cbn [split_words string_rev_onto].
  rewrite (ws_width_plain c _ Hc). by apply IH.
Qed.

Lemma word_read_word (w : string) :
  is_word w = true -> word_read (string_rev_onto w EmptyString) = [w].
Proof.
  unfold is_word. intros [Hnonempty _]%andb_true_iff.
  unfold word_read. fold (string_rev w).
  destruct (string_rev w) as [|c r] eqn:Hrev.
  - apply (f_equal string_rev) in Hrev. rewrite string_rev_involutive in Hrev.
    by subst w.
  - cbn [str_is_empty]. by rewrite <- Hrev, string_rev_involutive.
Qed.

(** A word and a space, then the rest. *)
Lemma split_word_space (w rest : string) :
  is_word w = true ->
  str_split_ws (w ++ " " ++ rest)%string = w :: str_split_ws rest.
Proof.
  intros Hw. unfold str_split_ws.
  rewrite split_words_word by (by apply andb_true_iff in Hw as [_ ?]).
  change (" " ++ rest)%string with (String " "%char rest).
  cbn [split_words].
  change (ws_width (String " "%char rest)) with 1%nat. cbv iota.
  by rewrite word_read_word.
Qed.

Lemma split_word_end (w : string) : is_word w = true -> str_split_ws w = [w].
Proof.
  intros Hw. unfold str_split_ws.
  rewrite <- (string_append_nil_r w) at 1.
  rewrite split_words_word by (by apply andb_true_iff in Hw as [_ ?]).
  cbn [split_words]. by apply word_read_word.
Qed.

Lemma string_of_uint_plain (d : Decimal.uint) :
  all_chars plain (NilEmpty.string_of_uint d) = true.
Proof. induction d; cbn [NilEmpty.string_of_uint all_chars]; by rewrite ?IHd. Qed.

(** The decimal rendering of an integer is one word. *)
Lemma str_of_int_word (n : Z) : is_word (str_of_int n) = true.
Proof.
  unfold str_of_int, is_word.
  destruct (Z.to_int n) as [d|d]; cbn [NilZero.string_of_int];
    destruct d; cbn [NilZero.string_of_uint NilEmpty.string_of_uint all_chars str_is_empty];
    try reflexivity;
    rewrite ?string_of_uint_plain; reflexivity.
Qed.

Ltac split_command :=
  repeat (rewrite split_word_space by first [apply str_of_int_word | reflexivity]);
  rewrite ?split_word_end by first [apply str_of_int_word | reflexivity].

Section Commands.
Import ADBController.
Context `{Shell}.

(** What [_run_command] does to the controller: it runs one command, the
    ADB program first, then the device if one is chosen, then the
    arguments; it changes nothing else but what is printed. *)
Lemma run_command_spec (command : string + list string) (device : option string)
    (c : controller) :
  let cmd_list :=
    adb_path c :: device_arguments device c
    ++ match command with
       | inl line => str_split_ws line
       | inr arguments => arguments
       end in
  let r := _run_command command device c in
  commands (snd r) = commands c ++ [cmd_list]
  /\ fst (fst r) = succeeds cmd_list (sys c)
  /\ sys (snd r) = snd (subprocess_run cmd_list (sys c))
  /\ devices (snd r) = devices c
  /\ current_device (snd r) = current_device c
  /\ device_id (snd r) = device_id c
  /\ adb_path (snd r) = adb_path c
  /\ device_addrs (snd r) = device_addrs c.
Proof.
  cbv zeta. unfold _run_command, succeeds.
  change ([adb_path c] ++ ?l) with (adb_path c :: l).
  destruct (subprocess_run _ (sys c)) as [[stdout| |stderr|text] w]; cbn; done.
Qed.

Lemma device_arguments_frame (device : option string) (c c' : controller) :
  current_device c' = current_device c ->
  device_arguments device c' = device_arguments device c.
Proof. intros Hsame. unfold device_arguments. by rewrite Hsame. Qed.

End Commands.

Section Taps.
Import ADBController.
Context `{Shell}.

(** X21.  The command line of a tap and of a swipe.  Whatever the
    integers, negative ones too, [tap] runs one command whose arguments
    are the ADB program, [-s] and the current device when one is chosen,
    then [shell input tap] and the two coordinates in decimal, each one
    argument of its own; [swipe] does the same with [shell input swipe]
    and its five numbers; each answers with the success of that command;
    and a long press is the swipe from a point to itself. *)
Theorem tap_and_swipe_arguments (c : controller) (x y x2 y2 duration : Z) :
  let device := device_arguments None c in
  let tapped := adb_path c :: device
                ++ ["shell"; "input"; "tap"; str_of_int x; str_of_int y] in
  let swiped := adb_path c :: device
                ++ ["shell"; "input"; "swipe"; str_of_int x; str_of_int y;
                    str_of_int x2; str_of_int y2; str_of_int duration] in
  (commands (snd (tap x y c)) = commands c ++ [tapped]
   /\ fst (fst (tap x y c)) = succeeds tapped (sys c))
  /\ (commands (snd (swipe x y x2 y2 duration c)) = commands c ++ [swiped]
      /\ fst (fst (swipe x y x2 y2 duration c)) = succeeds swiped (sys c))
  /\ long_press x y duration c = swipe x y x y duration c.
Proof.
  cbv zeta. split; [|split]; [| |reflexivity].
  - unfold tap.
    destruct (run_command_spec
                (inl ("shell input tap " ++ str_of_int x ++ " " ++ str_of_int y)%string)
                None c) as (Hcommands & Hsuccess & _).
    revert Hcommands Hsuccess.
    change ("shell input tap " ++ ?rest)%string
      with ("shell" ++ " " ++ "input" ++ " " ++ "tap" ++ " " ++ rest)%string.
    split_command. by intros -> ->.
  - unfold swipe.
    destruct (run_command_spec
                (inl ("shell input swipe " ++ str_of_int x ++ " " ++ str_of_int y ++ " "
                      ++ str_of_int x2 ++ " " ++ str_of_int y2 ++ " "
                      ++ str_of_int duration)%string)
                None c) as (Hcommands & Hsuccess & _).
    revert Hcommands Hsuccess.
    change ("shell input swipe " ++ ?rest)%string
      with ("shell" ++ " " ++ "input" ++ " " ++ "swipe" ++ " " ++ rest)%string.
    split_command. by intros -> ->.
Qed.

(** X22.  A screenshot.  With no device chosen [screenshot] runs nothing
    and answers with a failure.  With one, it runs [screencap] on the
    device and, only when that succeeds, [pull] with the path to save to
    as one argument, whatever characters it holds; it succeeds when both
    commands do. *)
Theorem screenshot_commands (c : controller) (save_path : string) :
  let program := adb_path c :: device_arguments None c in
  let screencap := program ++ ["shell"; "screencap"; "-p"; "/sdcard/screen.png"] in
  let pull := program ++ ["pull"; "/sdcard/screen.png"; save_path] in
  let r := screenshot save_path c in
  (chosen (current_device c) = false ->
     r = ((false, Some "没有选择任何设备"), c))
  /\ (chosen (current_device c) = true ->
      if succeeds screencap (sys c)
      then commands (snd r) = commands c ++ [screencap; pull]
           /\ fst (fst r) = succeeds pull (snd (subprocess_run screencap (sys c)))
           /\ (fst (fst r) = true -> snd (fst r) = None)
      else commands (snd r) = commands c ++ [screencap]
           /\ fst (fst r) = false).
Proof.
  cbv zeta. unfold screenshot. split; intros Hchosen; rewrite Hchosen; [done|].
  cbn [negb]. rewrite <- !app_comm_cons.
  destruct (run_command_spec (inl "shell screencap -p /sdcard/screen.png"%string) None c)
    as (Hcommands & Hsuccess & Hsys & _ & Hdevice & _ & Hpath & _).
  revert Hcommands Hsuccess Hsys.
  change "shell screencap -p /sdcard/screen.png"%string
    with ("shell" ++ " " ++ "screencap" ++ " " ++ "-p" ++ " " ++ "/sdcard/screen.png")%string.
  split_command.
  destruct (_run_command _ None c) as [[success output] c1]. cbn [fst snd] in *.
  intros Hcommands Hsuccess Hsys. rewrite <- Hsuccess.
  destruct success; cbn [negb]; [|done].
  destruct (run_command_spec (inr ["pull"; "/sdcard/screen.png"; save_path]) None c1)
    as (Hcommands2 & Hsuccess2 & _).
  rewrite Hpath, (device_arguments_frame None c c1 Hdevice), Hsys in Hsuccess2.
  rewrite Hpath, (device_arguments_frame None c c1 Hdevice), Hcommands in Hcommands2.
  destruct (_run_command _ None c1) as [[success2 output2] c2]. cbn [fst snd] in *.
  rewrite <- Hsuccess2.
  destruct success2; cbn [negb fst snd]; by rewrite Hcommands2, <- app_assoc.
Qed.

(** X23.  Restarting an application whose package name is one word:
    two commands are run, [am force-stop] and then [monkey] with the
    launcher category, and the answer is the success of the second one
    alone: a failing [force-stop] is printed and passed over. *)
Theorem restart_app_passes_over_stop (c : controller) (package_name : string) :
  is_word package_name = true ->
  let program := adb_path c :: device_arguments None c in
  let stop := program ++ ["shell"; "am"; "force-stop"; package_name] in
  let start := program ++ ["shell"; "monkey"; "-p"; package_name; "-c";
                           "android.intent.category.LAUNCHER"; "1"] in
  let r := restart_app package_name c in
  commands (snd r) = commands c ++ [stop; start]
  /\ fst (fst r) = succeeds start (snd (subprocess_run stop (sys c)))
  /\ (fst (fst r) = true -> snd (fst r) = None).
Proof.
  intros Hword. cbv zeta. unfold restart_app. rewrite <- !app_comm_cons.
  destruct (run_command_spec (inl ("shell am force-stop " ++ package_name)%string) None c)
    as (Hcommands & _ & Hsys & _ & Hdevice & _ & Hpath & _).
  revert Hcommands Hsys.
  change ("shell am force-stop " ++ package_name)%string
    with ("shell" ++ " " ++ "am" ++ " " ++ "force-stop" ++ " " ++ package_name)%string.
  repeat (rewrite split_word_space by reflexivity).
  rewrite (split_word_end package_name Hword).
  destruct (_run_command _ None c) as [[success output] c1]. cbn [fst snd] in *.
  intros Hcommands Hsys.
  set (c2 := if negb success then print _ c1 else c1).
  assert (commands c2 = commands c1 /\ sys c2 = sys c1
          /\ current_device c2 = current_device c1 /\ adb_path c2 = adb_path c1)
    as (Hcommands2 & Hsys2 & Hdevice2 & Hpath2)
    by (subst c2; by destruct success).
  destruct (run_command_spec
              (inl ("shell monkey -p " ++ package_name
                    ++ " -c android.intent.category.LAUNCHER 1")%string) None c2)
    as (Hcommands3 & Hsuccess3 & _).
  revert Hcommands3 Hsuccess3.
  change ("shell monkey -p " ++ package_name
          ++ " -c android.intent.category.LAUNCHER 1")%string
    with ("shell" ++ " " ++ "monkey" ++ " " ++ "-p" ++ " " ++ package_name ++ " "
          ++ "-c" ++ " " ++ "android.intent.category.LAUNCHER" ++ " " ++ "1")%string.
  repeat (rewrite split_word_space by first [exact Hword | reflexivity]).
  rewrite split_word_end by reflexivity.
  rewrite Hpath2, Hpath, Hsys2, Hsys, Hcommands2, Hcommands.
  rewrite (device_arguments_frame None c1 c2 Hdevice2),
    (device_arguments_frame None c c1 Hdevice).
  destruct (_run_command _ None c2) as [[success3 output3] c3]. cbn [fst snd].
  intros Hcommands3 Hsuccess3. rewrite <- Hsuccess3.
  destruct success3; cbn [negb fst snd]; by rewrite Hcommands3, <- app_assoc.
Qed.

(** X24.  Connecting and asking for the status.  [connect_device] never
    fails on a missing entry; afterwards the device is the current one
    and its status reads [online] when the call answered true and
    [offline] when it answered false, never [unknown]; the status of every
    other device reads as before.  A controller just made knows no
    device. *)
Theorem status_after_connect (c : controller) (device : string) :
  let r := connect_device device c in
  (exists connected,
      fst r = Some connected
      /\ get_device_status device (snd r) = (if connected then "online" else "offline")
      /\ current_device (snd r) = Some device
      /\ forall other, other <> device ->
           get_device_status other (snd r) = get_device_status other c)
  /\ (forall path addrs w, get_device_status device (init path addrs w) = "unknown").
Proof.
  cbv zeta. split; [|done].
  unfold connect_device, _check_device.
  set (c1 := if bool_decide _ then select device c else set_devices _ (select device c)).
  assert (is_Some (devices c1 !! device)
          /\ current_device c1 = Some device
          /\ forall other, other <> device -> devices c1 !! other = devices c !! other)
    as (Hentry & Hcurrent & Hothers).
  { subst c1. case_bool_decide as Hknown; cbn.
    - done.
    - split; [by rewrite lookup_insert_eq|].
      split; [done|]. intros other Hother. by rewrite lookup_insert_ne. }
  destruct (run_command_spec (inl "devices"%string) None c1)
    as (_ & _ & _ & Hdevices & Hdevice & _).
  destruct (_run_command _ None c1) as [[success result] c2]. cbn [fst snd] in *.
  rewrite Hdevices. destruct Hentry as [entry ->]. cbn [fst snd].
  exists (success && ImageProcessor.str_in device result).
  split; [done|]. split; [|split].
  - unfold get_device_status. cbn. rewrite lookup_insert_eq. cbn.
    by rewrite lookup_insert_eq.
  - cbn. congruence.
  - intros other Hother. unfold get_device_status. cbn.
    rewrite lookup_insert_ne by done. by rewrite ?Hdevices, Hothers.
Qed.

End Taps.

Lemma screenshot_commands_witness :
  let fresh := ADBController.init (H := ADBController.scripted) "adb" None
                 [ADBController.Completed ""; ADBController.Completed "1 file pulled"] in
  let c := ADBController.select "emulator-5554" fresh in
  ADBController.screenshot "my shots/a b.png" fresh
  = ((false, Some "没有选择任何设备"), fresh)
  /\ fst (fst (ADBController.screenshot "my shots/a b.png" c)) = true
  /\ ADBController.commands (snd (ADBController.screenshot "my shots/a b.png" c))
     = [["adb"; "-s"; "emulator-5554"; "shell"; "screencap"; "-p"; "/sdcard/screen.png"];
        ["adb"; "-s"; "emulator-5554"; "pull"; "/sdcard/screen.png"; "my shots/a b.png"]].
Proof.
  intros fresh c. split.
  - by apply (screenshot_commands fresh "my shots/a b.png").
  - destruct (screenshot_commands c "my shots/a b.png") as [_ Hchosen].
    specialize (Hchosen eq_refl).
    change (ADBController.succeeds _ (ADBController.sys c)) with true in Hchosen.
    cbv iota in Hchosen. destruct Hchosen as (Hcommands & Hsuccess & _).
    split; [by rewrite Hsuccess|by rewrite Hcommands].
Defined.

Lemma restart_app_passes_over_stop_witness :
  let c := ADBController.select "emulator-5554"
             (ADBController.init (H := ADBController.scripted) "adb" None
                [ADBController.CalledProcessError "not running";
                 ADBController.Completed "Events injected: 1"]) in
  is_word "com.example.game" = true
  /\ fst (fst (ADBController.restart_app "com.example.game" c)) = true
  /\ ADBController.commands (snd (ADBController.restart_app "com.example.game" c))
     = [["adb"; "-s"; "emulator-5554"; "shell"; "am"; "force-stop"; "com.example.game"];
        ["adb"; "-s"; "emulator-5554"; "shell"; "monkey"; "-p"; "com.example.game";
         "-c"; "android.intent.category.LAUNCHER"; "1"]].
Proof.
  intros c. split; [reflexivity|].
  destruct (restart_app_passes_over_stop c "com.example.game" eq_refl)
    as (Hcommands & Hsuccess & _).
  split; [by rewrite Hsuccess|by rewrite Hcommands].
Defined.

Lemma status_after_connect_witness :
  let c := ADBController.init (H := ADBController.scripted) "adb" None
             [ADBController.Completed "emulator-5554 device"] in
  let r := ADBController.connect_device "emulator-5554" c in
  fst r = Some true
  /\ ADBController.get_device_status "emulator-5554" (snd r) = "online"
  /\ ADBController.get_device_status "emulator-5556" (snd r) = "unknown".
Proof.
  intros c r.
  destruct (status_after_connect c "emulator-5554")
    as [(connected & Hanswer & Hstatus & _ & Hothers) _].
  fold r in Hanswer, Hstatus, Hothers.
  assert (connected = true) as ->.
  { assert (fst r = Some true) as Hvalue by reflexivity.
    rewrite Hanswer in Hvalue. by injection Hvalue. }
  split; [exact Hanswer|]. split; [exact Hstatus|].
  by rewrite (Hothers "emulator-5556").
Defined.

(** The rendering of integers, for the reader: as Python's [str]. *)
Example str_of_int_examples :
  str_of_int 0 = "0" /\ str_of_int 540 = "540" /\ str_of_int (-12) = "-12"
  /\ str_split_ws "  shell   input tap 540 -12 " = ["shell"; "input"; "tap"; "540"; "-12"].
Proof. repeat split; reflexivity. Qed.
